(** * fitbit_convert.py: Fitbit export to Viatom / Dreem conversion

    A shallow embedding of [src/fitbit_convert.py] and the properties of
    its session segmenter, grid resampler / chunker, binary writer and
    hypnogram generator.

    Conventions of the embedding.
    - A [datetime] of the program is always an aware datetime carrying the
      one [tzinfo] object of the configured time zone.  Python compares,
      subtracts and hashes such values on their wall-clock fields, and
      [+= timedelta(seconds=4)] moves the wall clock by four seconds, so a
      timestamp is the integer number of wall-clock seconds since
      1970-01-01T00:00:00 (both [strptime] formats have whole seconds).
    - A raised exception is the left summand of [result]; console output and
      the files written are threaded through the [IO] state, which survives
      an exception.
    - Library behaviour that is not part of the program (time-zone
      conversion, calendar fields, [strftime], float formatting) is a
      parameter, [datetime_lib]. *)

From stdpp Require Import gmap strings list sorting pretty.
From Equations Require Import Equations.
Local Open Scope Z_scope.

(** ** Exceptions and the two monads *)

Inductive exn : Type :=
| RuntimeError (msg : string)
| IndexError
| TypeError
| UnboundLocalError (name : string)
| StructError.

Definition result (A : Type) : Type := (exn + A)%type.

#[export] Instance result_ret : MRet result := λ A x, inr x.
#[export] Instance result_bind : MBind result :=
  λ A B f m, match m with inl e => inl e | inr x => f x end.

(** [len(l)] *)
Definition len {A} (l : list A) : Z := Z.of_nat (length l).

(** [l[i]] on a Python list. *)
Definition index {A} (l : list A) (i : nat) : result A :=
  match l !! i with Some x => inr x | None => inl IndexError end.

(** Reading a local variable that may not have been assigned yet. *)
Definition local {A} (name : string) (v : option A) : result A :=
  match v with Some x => inr x | None => inl (UnboundLocalError name) end.

Record world : Type := World {
  stdout : list string;
  files : gmap string (list Z)
}.

Definition IO (A : Type) : Type := world → result A * world.

#[export] Instance IO_ret : MRet IO := λ A x w, (inr x, w).
#[export] Instance IO_bind : MBind IO :=
  λ A B f m w, match m w with
               | (inl e, w') => (inl e, w')
               | (inr x, w') => f x w'
               end.

Definition raise {A} (e : exn) : IO A := λ w, (inl e, w).
Definition lift {A} (r : result A) : IO A := λ w, (r, w).

(** [print(...)]: one line on standard output. *)
Definition print (line : string) : IO unit :=
  λ w, (inr (), World (stdout w ++ [line]) (files w)).

(** [open(name, "wb")]: the file is created or truncated. *)
Definition open_wb (name : string) : IO unit :=
  λ w, (inr (), World (stdout w) (<[name := []]> (files w))).

(** [f.write(bytes)] *)
Definition append_file (name : string) (bytes : list Z)
    (fs : gmap string (list Z)) : gmap string (list Z) :=
  <[name := default [] (fs !! name) ++ bytes]> fs.

Definition f_write (name : string) (bytes : list Z) : IO unit :=
  λ w, (inr (), World (stdout w) (append_file name bytes (files w))).

(** [for x in l: body x] *)
Fixpoint for_each {A} (body : A → IO unit) (l : list A) : IO unit :=
  match l with
  | [] => mret ()
  | x :: l' => body x ≫= λ _, for_each body l'
  end.

(** ** The datetime library *)

Record datetime_lib : Type := DatetimeLib {
  (** [utc.astimezone(tz.gettz(timezone))], wall-clock seconds of the result *)
  astimezone : string → Z → Z;
  year : Z → Z;
  month : Z → Z;
  day : Z → Z;
  hour : Z → Z;
  minute : Z → Z;
  second : Z → Z;
  (** [t.strftime(format)] *)
  strftime : Z → string → string;
  (** [str(t)] *)
  str_datetime : Z → string;
  (** [minutes_to_time(n / 15)]: the float division and the float
      arithmetic of [minutes_to_time] on its result *)
  minutes_to_time_15 : nat → string
}.

(** ** Grid resampler / chunker *)

(** [(timestamp, spo2, bpm)] *)
Definition record : Type := (Z * Z * Z)%type.

(** The locals of [divide_data_to_viatom_chunks] that the loops update;
    [None] in [spo2] or [bpm] is a local that was never assigned. *)
Record chunker : Type := Chunker {
  chunks : list (list record);
  chunk : list record;
  spo2 : option Z;
  bpm : option Z
}.

(** [if len(chunk) >= 4095: chunks.append(chunk); chunk = []] *)
Definition seal_full (st : chunker) : chunker :=
  if decide (4095 ≤ len (chunk st))
  then Chunker (chunks st ++ [chunk st]) [] (spo2 st) (bpm st)
  else st.

(** [chunk.append((timestamp, spo2, bpm))] *)
Definition emit (timestamp : Z) (st : chunker) : result chunker :=
  s ← local "spo2" (spo2 st);
  b ← local "bpm" (bpm st);
  mret (Chunker (chunks st) (chunk st ++ [(timestamp, s, b)]) (spo2 st) (bpm st)).

(** [while timestamp < end_timestamp: ...]; returns the final [timestamp]. *)
Equations? while_loop (end_timestamp timestamp : Z) (st : chunker)
  : result (Z * chunker) by wf (Z.to_nat (end_timestamp - timestamp)) lt :=
  while_loop end_timestamp timestamp st with decide (timestamp < end_timestamp) => {
    | left _ with emit timestamp (seal_full st) => {
        | inl e => inl e;
        | inr st' => while_loop end_timestamp (timestamp + 4) st' };
    | right _ => inr (timestamp, st) }.
Proof. lia. Qed.

(** [if values[k] is not None: var = values[k]] *)
Definition observe (value var : option Z) : option Z :=
  match value with Some v => Some v | None => var end.

Abbreviation item := (Z * (option Z * option Z))%type.

(** Body of [for i in range(len(sorted_data) - 1)]. *)
Definition interval (sorted_data : list item) (session : list Z) (i : nat)
    (acc : option Z * chunker) : result (option Z * chunker) :=
  let '(last_timestamp, st) := acc in
  timestamp ← match last_timestamp with
              | None => cur ← index sorted_data i; mret cur.1
              | Some t => mret t
              end;
  next ← index sorted_data (i + 1);
  let end_timestamp := next.1 in
  cur ← index sorted_data i;
  let values := cur.2 in
  let st := Chunker (chunks st) (chunk st)
              (observe values.1 (spo2 st)) (observe values.2 (bpm st)) in
  s0 ← index session 0;
  if decide (timestamp < s0) then mret (last_timestamp, st) else
  s1 ← index session 1;
  if decide (timestamp > s1) then mret (last_timestamp, st) else
  '(timestamp, st) ← while_loop end_timestamp timestamp st;
  mret (Some timestamp, st).

(** [for x in l: acc = body x acc], stopping at the first exception. *)
Fixpoint for_fold {A S} (body : A → S → result S) (l : list A) (acc : S) : result S :=
  match l with
  | [] => inr acc
  | x :: l' => body x acc ≫= for_fold body l'
  end.

(** [if chunk: chunks.append(chunk); chunk = []] *)
Definition seal_nonempty (st : chunker) : chunker :=
  match chunk st with
  | [] => st
  | _ :: _ => Chunker (chunks st ++ [chunk st]) [] (spo2 st) (bpm st)
  end.

(** Body of [for session in sessions]. *)
Definition walk_session (sorted_data : list item) (session : list Z)
    (st : chunker) : result chunker :=
  '(_, st) ← for_fold (interval sorted_data session)
               (seq 0 (length sorted_data - 1)) (None, st);
  mret (seal_nonempty st).

Definition key_le (x y : item) : Prop := x.1 ≤ y.1.
#[export] Instance key_le_dec x y : Decision (key_le x y) := Z_le_dec x.1 y.1.

(** [sorted(data.items())]: the keys of a dict are distinct, so the order
    is the order of the timestamps. *)
Definition sorted_items (data : gmap Z (option Z * option Z)) : list item :=
  merge_sort key_le (map_to_list data).

Definition divide_data_to_viatom_chunks (sessions : list (list Z))
    (data : gmap Z (option Z * option Z)) : result (list (list record)) :=
  let sorted_data := sorted_items data in
  st ← for_fold (walk_session sorted_data) sessions (Chunker [] [] None None);
  mret (chunks (seal_nonempty st)).

(** ** Series reader and session segmenter *)

Section Reader.
Variable lib : datetime_lib.

(** A row of a "Minute SpO2" file as the reader sees it: the parsed UTC
    [timestamp] column and [round(float(row["value"]))]. *)
Definition read_csv (file : list (Z * Z)) (timezone : string) : list (Z * Z) :=
  omap (λ row : Z * Z,
          let timestamp := astimezone lib timezone row.1 in
          let value := row.2 in
          if decide (value < 61) then None
          else Some (timestamp, if decide (value = 100) then 99 else value))
       file.

(** An entry of a heart-rate file: the parsed [dateTime] and
    [entry["value"]["bpm"]]. *)
Definition read_json (file : list (Z * Z)) (timezone : string) : list (Z * Z) :=
  (λ entry : Z * Z, (astimezone lib timezone entry.1, entry.2)) <$> file.
End Reader.

(** The locals of [align_spo2_data] updated by its first loop. *)
Record segmenter : Type := Segmenter {
  sessions : list (list Z);
  data : gmap Z (option Z * option Z);
  prev_timestamp : option Z
}.

(** [sessions[-1].append(x)] *)
Definition append_to_last (x : Z) (ss : list (list Z)) : list (list Z) :=
  alter (λ s, s ++ [x]) (pred (length ss)) ss.

(** [data[timestamp][0] = value] on the [defaultdict] *)
Definition set_spo2 (timestamp value : Z) (d : gmap Z (option Z * option Z))
  : gmap Z (option Z * option Z) :=
  <[timestamp := (Some value, (default (None, None) (d !! timestamp)).2)]> d.

(** [data[timestamp][1] = value] *)
Definition set_bpm (timestamp value : Z) (d : gmap Z (option Z * option Z))
  : gmap Z (option Z * option Z) :=
  <[timestamp := ((default (None, None) (d !! timestamp)).1, Some value)]> d.

(** Body of the loop over the SpO2 samples (lines 99-108). *)
Definition spo2_sample (sample : Z * Z) (st : segmenter) : result segmenter :=
  let '(timestamp, value) := sample in
  ss ← (if decide (length (sessions st) = 0%nat)
        then mret (sessions st ++ [[timestamp]])
        else
          cur ← match last (sessions st) with
                | Some s => mret s
                | None => inl IndexError
                end;
          sessions_start ← index cur 0;
          prev ← local "prev_timestamp" (prev_timestamp st);
          if decide (timestamp - prev > 300)
          then mret (append_to_last prev (sessions st) ++ [[timestamp]])
          else mret (sessions st));
  mret (Segmenter ss (set_spo2 timestamp value (data st)) (Some timestamp)).

(** Lines 109-112. *)
Definition close_sessions (st : segmenter) : result (list (list Z)) :=
  if decide (length (sessions st) = 0%nat)
  then inl (RuntimeError "No SPO2 night sessions detected!")
  else
    cur ← match last (sessions st) with
          | Some s => mret s
          | None => inl IndexError
          end;
    if decide (length cur = 1%nat)
    then prev ← local "prev_timestamp" (prev_timestamp st);
         mret (append_to_last prev (sessions st))
    else mret (sessions st).

(** Body of the loop over the heart-rate entries (lines 116-117); the
    state is [(data, last_bpm_timestamp)]. *)
Definition bpm_sample (sample : Z * Z)
    (acc : gmap Z (option Z * option Z) * option Z)
  : gmap Z (option Z * option Z) * option Z :=
  (set_bpm sample.1 sample.2 acc.1, Some sample.1).

(** Body of [for s in sessions] (lines 120-121); [s[1] < None] raises
    [TypeError]. *)
Definition retain (last_bpm_timestamp : option Z) (s : list Z)
    (filtered_sessions : list (list Z)) : result (list (list Z)) :=
  s1 ← index s 1;
  match last_bpm_timestamp with
  | None => inl TypeError
  | Some l => if decide (s1 < l) then mret (filtered_sessions ++ [s])
              else mret filtered_sessions
  end.

Section Align.
Variable lib : datetime_lib.

(** Both loops over files are nested loops over the rows the readers
    yield, in file order. *)
Definition spo2_samples (csv_files : list (list (Z * Z))) (timezone : string)
  : list (Z * Z) :=
  file ← csv_files; read_csv lib file timezone.

Definition bpm_samples (json_files : list (list (Z * Z))) (timezone : string)
  : list (Z * Z) :=
  file ← json_files; read_json lib file timezone.

Definition align_spo2_data (csv_files json_files : list (list (Z * Z)))
    (timezone : string)
  : result (list (list Z) * gmap Z (option Z * option Z)) :=
  st ← for_fold spo2_sample (spo2_samples csv_files timezone)
         (Segmenter [] ∅ None);
  ss ← close_sessions st;
  let '(d, last_bpm_timestamp) :=
    foldl (λ acc sample, bpm_sample sample acc) (data st, None)
          (bpm_samples json_files timezone) in
  filtered_sessions ← for_fold (retain last_bpm_timestamp) ss [];
  mret (filtered_sessions, d).
End Align.

(** ** Binary writer *)

(** The [n] little-endian bytes of [x]. *)
Fixpoint le_bytes (n : nat) (x : Z) : list Z :=
  match n with
  | O => []
  | S n' => x `mod` 256 :: le_bytes n' (x `div` 256)
  end.

(** [struct.pack("<B", x)], [struct.pack("<H", x)], [struct.pack("<I", x)]:
    little-endian bytes, [struct.error] when [x] does not fit. *)
Definition pack_B (x : Z) : result (list Z) :=
  if decide (0 ≤ x < 256) then mret (le_bytes 1 x) else inl StructError.

Definition pack_H (x : Z) : result (list Z) :=
  if decide (0 ≤ x < 65536) then mret (le_bytes 2 x) else inl StructError.

Definition pack_I (x : Z) : result (list Z) :=
  if decide (0 ≤ x < 4294967296) then mret (le_bytes 4 x) else inl StructError.

(** Body of [for record in data] (lines 187-199). *)
Definition write_record (bin_file : string) (r : record) : IO unit :=
  let '(_, r1, r2) := r in
  if decide (r1 ≤ 61) then
    f_write bin_file [255];;
    b ← lift (pack_B r2);
    f_write bin_file b;;
    f_write bin_file [255; 0; 0]
  else
    (if decide (r1 > 99) then
       print ("TOOHIGH: " +:+ pretty r1);;
       b ← lift (pack_B 99);
       f_write bin_file b
     else
       b ← lift (pack_B r1);
       f_write bin_file b);;
    b ← lift (pack_B r2);
    f_write bin_file b;;
    f_write bin_file [0; 0; 0].

Section Writer.
Variable lib : datetime_lib.

Definition too_long (data : list record) : IO unit :=
  first ← lift (index data 0);
  final ← lift (match last data with Some r => mret r | None => inl IndexError end);
  raise (RuntimeError ("Data chunk (" +:+ str_datetime lib first.1.1 +:+ ", "
                         +:+ str_datetime lib final.1.1 +:+ ") too long ("
                         +:+ pretty (len data) +:+ ")!")).

Definition file_name (t : Z) : string :=
  strftime lib t "%Y%m%d%H%M%S" +:+ ".bin".

Definition write_to_viatom_file (data : list record) : IO unit :=
  if decide (len data > 4095) then too_long data else
  first ← lift (index data 0);
  let t := first.1.1 in
  let bin_file := file_name t in
  open_wb bin_file;;
  b ← lift (b0 ← pack_B 5; b1 ← pack_B 0; mret (b0 ++ b1));
  f_write bin_file b;;
  b ← lift (pack_H (year lib t));
  f_write bin_file b;;
  b ← lift (mo ← pack_B (month lib t); d ← pack_B (day lib t);
            h ← pack_B (hour lib t); mi ← pack_B (minute lib t);
            s ← pack_B (second lib t); mret (mo ++ d ++ h ++ mi ++ s));
  f_write bin_file b;;
  b ← lift (pack_I (len data * 5 + 40));
  f_write bin_file b;;
  b ← lift (pack_H (len data * 4));
  f_write bin_file b;;
  f_write bin_file (replicate 25 0);;
  for_each (write_record bin_file) data;;
  print ("Exported " +:+ bin_file +:+ " (size: "
           +:+ pretty (len data * 5 + 40) +:+ ", duration: "
           +:+ minutes_to_time_15 lib (length data) +:+ ")").
End Writer.

(** ** The SpO2 pipeline *)

(** What the program reads of an export directory. *)
Record export : Type := Export {
  (** the [timezone] column of the rows of [Profile.csv] *)
  profile : list string;
  (** the "Minute SpO2*.csv" files, in the order [glob] lists them *)
  spo2_files : list (list (Z * Z));
  (** the "heart_rate-*.json" files, in the order [glob] lists them *)
  bpm_files : list (list (Z * Z))
}.

Definition read_profile_timezone (e : export) : IO string :=
  match last (profile e) with
  | Some timezone => print ("Timezone: " +:+ timezone);; mret timezone
  | None => raise (RuntimeError "Profile not detected!")
  end.

Section Pipeline.
Variable lib : datetime_lib.

Definition print_session (s : list Z) : IO unit :=
  s0 ← lift (index s 0);
  s1 ← lift (index s 1);
  print (strftime lib s0 "%Y-%m-%d %H:%M:%S" +:+ " - "
           +:+ strftime lib s1 "%Y-%m-%d %H:%M:%S").

Definition export_spo2_as_viatom (e : export) : IO unit :=
  timezone ← read_profile_timezone e;
  let csv_files := spo2_files e in
  let json_files := bpm_files e in
  if decide (length csv_files = 0%nat ∨ length json_files = 0%nat)
  then raise (RuntimeError "No SpO2 or heart rate data detected!")
  else
    '(sessions, data) ← lift (align_spo2_data lib csv_files json_files timezone);
    print "Detected SpO2 sessions:";;
    for_each print_session sessions;;
    chunks ← lift (divide_data_to_viatom_chunks sessions data);
    for_each (write_to_viatom_file lib) chunks.
End Pipeline.

(** ** Hypnogram *)

(** An element of [levels.data] *)
Record stage : Type := Stage { level : string; seconds : Z }.

Definition levels : gmap string string :=
  {[ "wake" := "WAKE"; "rem" := "REM"; "light" := "Light"; "deep" := "Deep" ]}.

(** Body of [for item in json_data] (lines 211-215). *)
Definition hypnogram_item (sleep_stages : list string) (item : stage)
  : IO (list string) :=
  let intervals := seconds item `div` 30 in
  match levels !! level item with
  | Some label => mret (sleep_stages ++ replicate (Z.to_nat intervals) label)
  | None =>
      print ("Sleep stage '" +:+ level item +:+ "' is not recognized");;
      mret sleep_stages
  end.

Fixpoint hypnogram_loop (json_data : list stage) (sleep_stages : list string)
  : IO (list string) :=
  match json_data with
  | [] => mret sleep_stages
  | item :: rest =>
      sleep_stages ← hypnogram_item sleep_stages item;
      hypnogram_loop rest sleep_stages
  end.

Definition generate_dreem_hypnogram (json_data : list stage) : IO (list string) :=
  hypnogram_loop json_data [].

(** ** Vocabulary of the properties *)

Definition ts (r : record) : Z := r.1.1.

(** What one pass of the [while] body does to [(chunks, chunk)]. *)
Definition push (acc : list (list record) * list record) (r : record)
  : list (list record) * list record :=
  if decide (4095 ≤ len acc.2)
  then (acc.1 ++ [acc.2], [r])
  else (acc.1, acc.2 ++ [r]).

(** The chunks a session leaves behind when it emits the records [rs]
    starting from an empty chunk. *)
Definition chop (rs : list record) : list (list record) :=
  let acc := foldl push ([], []) rs in
  acc.1 ++ match acc.2 with [] => [] | _ :: _ => [acc.2] end.

(** Consecutive records are four seconds apart. *)
Definition grid (l : list record) : Prop :=
  ∀ i a b, l !! i = Some a → l !! S i = Some b → ts b = ts a + 4.

(** The record [r] was emitted in the index interval [i], whose walk
    started at [t0] with the session bounds checked on [t0]. *)
Definition emitted_in (sd : list item) (s : list Z) (r : record) : Prop :=
  ∃ (i : nat) cur nxt s0 s1 t0,
    sd !! i = Some cur ∧ sd !! S i = Some nxt ∧
    s !! 0%nat = Some s0 ∧ s !! 1%nat = Some s1 ∧
    cur.1 ≤ t0 ∧ s0 ≤ t0 ≤ s1 ∧ t0 ≤ ts r < nxt.1.

(** Invariant of the loop over the index while it walks one session:
    [rs] are the records emitted so far, [cs0] the chunks sealed before the
    session began. *)
Definition walk_inv (sd : list item) (s : list Z) (cs0 : list (list record))
    (i : nat) (rs : list record) (acc : option Z * chunker) : Prop :=
  (chunks acc.2, chunk acc.2) = foldl push (cs0, []) rs ∧
  grid rs ∧
  (∀ r, last rs = Some r → acc.1 = Some (ts r + 4)) ∧
  (∀ t, acc.1 = Some t →
     ∃ s0 s1, s !! 0%nat = Some s0 ∧ s !! 1%nat = Some s1 ∧ s0 ≤ t ∧
       (s1 < t ∨ ∀ cur, sd !! i = Some cur → cur.1 ≤ t)) ∧
  Forall (emitted_in sd s) rs.

(** [cs] are the chunks that walking the session [s] appends. *)
Definition session_output (sd : list item) (s : list Z)
    (cs : list (list record)) : Prop :=
  ∃ st st', chunk st = [] ∧ walk_session sd s st = inr st' ∧
            chunk st' = [] ∧ chunks st' = chunks st ++ cs.

(** [m] is the greatest timestamp of the record index. *)
Definition greatest_timestamp (data : gmap Z (option Z * option Z)) (m : Z) : Prop :=
  is_Some (data !! m) ∧ ∀ k, is_Some (data !! k) → k ≤ m.

(** Sessions as the specification describes them: the samples [l], in
    order, cut into runs [rs]; inside a run consecutive samples are at most
    five minutes apart, and a run ends where the next sample is more than
    five minutes later. *)
Definition close (r : list Z) : Prop :=
  ∀ i x y, r !! i = Some x → r !! S i = Some y → y - x ≤ 300.

Definition apart (rs : list (list Z)) : Prop :=
  ∀ j a b x y, rs !! j = Some a → rs !! S j = Some b →
               last a = Some x → head b = Some y → y - x > 300.

Definition segmentation (l : list Z) (rs : list (list Z)) : Prop :=
  concat rs = l ∧ Forall (λ r, r ≠ []) rs ∧ Forall close rs ∧ apart rs.

(** The session [[start, end]] of a run. *)
Definition bounds (r : list Z) : list Z :=
  match head r, last r with
  | Some a, Some b => [a; b]
  | _, _ => []
  end.

(** Lines 97-112 of [align_spo2_data]: the sessions before retention. *)
Definition segment (samples : list (Z * Z)) : result (list (list Z)) :=
  st ← for_fold spo2_sample samples (Segmenter [] ∅ None);
  close_sessions st.

(** Invariant of the loop over the SpO2 samples, [p] being the timestamps
    read so far. *)
Definition segment_inv (p : list Z) (st : segmenter) : Prop :=
  (p = [] ∧ sessions st = []) ∨
  (∃ rs cur a x,
     segmentation p (rs ++ [cur]) ∧ head cur = Some a ∧ last cur = Some x ∧
     sessions st = (bounds <$> rs) ++ [[a]] ∧ prev_timestamp st = Some x).

(** The hypnogram as the specification describes it: the label of a
    recognized stage, once per whole 30 seconds of the stage. *)
Definition label_of (lvl : string) : option string :=
  if decide (lvl = "wake") then Some "WAKE"
  else if decide (lvl = "rem") then Some "REM"
  else if decide (lvl = "light") then Some "Light"
  else if decide (lvl = "deep") then Some "Deep"
  else None.

Definition stage_labels (item : stage) : list string :=
  match label_of (level item) with
  | Some label => replicate (Z.to_nat (seconds item `div` 30)) label
  | None => []
  end.

Definition stage_diagnostics (item : stage) : list string :=
  match label_of (level item) with
  | Some _ => []
  | None => ["Sleep stage '" +:+ level item +:+ "' is not recognized"]
  end.

(** Reading a written file back: an unsigned little-endian field, and
    the fields of the 40-byte header at their offsets. *)
Definition le_uint (bytes : list Z) : Z :=
  foldr (λ b acc, b + 256 * acc) 0 bytes.

Definition field (offset size : nat) (content : list Z) : Z :=
  le_uint (take size (drop offset content)).

Record header : Type := Header {
  h_year : Z; h_month : Z; h_day : Z;
  h_hour : Z; h_minute : Z; h_second : Z;
  h_file_size : Z; h_duration : Z
}.

Definition decode_header (content : list Z) : option header :=
  if decide (40 ≤ length content)%nat then
    Some {| h_year := field 2 2 content;
            h_month := field 4 1 content;
            h_day := field 5 1 content;
            h_hour := field 6 1 content;
            h_minute := field 7 1 content;
            h_second := field 8 1 content;
            h_file_size := field 9 4 content;
            h_duration := field 13 2 content |}
  else None.

(** The five bytes of a record and the diagnostic it causes, as the
    format describes them. *)
Definition record_bytes (r : record) : list Z :=
  let '(_, r1, r2) := r in
  if decide (r1 ≤ 61) then [255; r2; 255; 0; 0]
  else [if decide (r1 > 99) then 99 else r1; r2; 0; 0; 0].

Definition record_diagnostics (r : record) : list string :=
  let '(_, r1, _) := r in
  if decide (r1 > 99) then ["TOOHIGH: " +:+ pretty r1] else [].

(** ** A sample library for the examples

    The UTC zone on the proleptic Gregorian calendar, with exact arithmetic
    in place of the floats of [minutes_to_time]. *)

Definition civil_of_days (z : Z) : Z * Z * Z :=
  let z := z + 719468 in
  let era := z `div` 146097 in
  let doe := z - era * 146097 in
  let yoe := (doe - doe `div` 1460 + doe `div` 36524 - doe `div` 146096) `div` 365 in
  let doy := doe - (365 * yoe + yoe `div` 4 - yoe `div` 100) in
  let mp := (5 * doy + 2) `div` 153 in
  let d := doy - (153 * mp + 2) `div` 5 + 1 in
  let m := if decide (mp < 10) then mp + 3 else mp - 9 in
  (yoe + era * 400 + (if decide (m ≤ 2) then 1 else 0), m, d).

Definition pad2 (n : Z) : string :=
  if decide (n < 10) then "0" +:+ pretty n else pretty n.

Definition utc_fields (t : Z) : list Z :=
  let '(y, m, d) := civil_of_days (t `div` 86400) in
  let sod := t `mod` 86400 in
  [y; m; d; sod `div` 3600; (sod `mod` 3600) `div` 60; sod `mod` 60].

Definition utc_field (i : nat) (t : Z) : Z := default 0 (utc_fields t !! i).

Definition utc_strftime (t : Z) (format : string) : string :=
  let f i := pad2 (utc_field i t) in
  if decide (format = "%Y%m%d%H%M%S")
  then pretty (utc_field 0 t) +:+ f 1%nat +:+ f 2%nat +:+ f 3%nat +:+ f 4%nat +:+ f 5%nat
  else pretty (utc_field 0 t) +:+ "-" +:+ f 1%nat +:+ "-" +:+ f 2%nat +:+ " "
         +:+ f 3%nat +:+ ":" +:+ f 4%nat +:+ ":" +:+ f 5%nat.

Definition utc : datetime_lib := {|
  astimezone := λ _ t, t;
  year := utc_field 0;
  month := utc_field 1;
  day := utc_field 2;
  hour := utc_field 3;
  minute := utc_field 4;
  second := utc_field 5;
  strftime := utc_strftime;
  str_datetime := λ t, utc_strftime t "%Y-%m-%d %H:%M:%S" +:+ "+00:00";
  minutes_to_time_15 := λ n,
    let secs := 4 * Z.of_nat n in
    pad2 (secs `div` 3600) +:+ ":" +:+ pad2 ((secs `div` 60) `mod` 60)
      +:+ ":" +:+ pad2 (secs `mod` 60)
|}.

(** 2021-03-01 08:00:00 *)
Definition t8 : Z := 1614585600.

(** One night: SpO2 at 08:00:00 and 08:01:00, heart rate at 08:00:00,
    08:00:30, 08:01:30 and 08:15:00. *)
Definition night : export := {|
  profile := ["Europe/London"];
  spo2_files := [[(t8, 95); (t8 + 60, 96)]];
  bpm_files := [[(t8, 60); (t8 + 30, 61); (t8 + 90, 62); (t8 + 900, 70)]]
|}.

Definition night_sessions : list (list Z) := [[t8; t8 + 60]].

Definition night_data : gmap Z (option Z * option Z) :=
  list_to_map [(t8, (Some 95, Some 60)); (t8 + 30, (None, Some 61));
               (t8 + 60, (Some 96, None)); (t8 + 90, (None, Some 62));
               (t8 + 900, (None, Some 70))].

Definition night_chunks : list (list record) :=
  match divide_data_to_viatom_chunks night_sessions night_data with
  | inr out => out
  | inl _ => []
  end.

(** A session of 4096 records: one SpO2 sample, and a heart-rate entry
    16384 seconds later. *)
Definition long_data : gmap Z (option Z * option Z) :=
  list_to_map [(t8, (Some 95, Some 60)); (t8 + 16384, (None, Some 61))].

(** The heart-rate files of [night] listed with the later file first. *)
Definition night_bpm_unordered : list (list (Z * Z)) :=
  [[(t8 + 90, 62); (t8 + 900, 70)]; [(t8, 60); (t8 + 30, 61)]].

(** Three SpO2 samples, the third more than five minutes after the second. *)
Definition three_samples : list (Z * Z) :=
  [(t8, 95); (t8 + 60, 96); (t8 + 361, 97)].

(** A night of stages; "restless" is not a level of the table. *)
Definition stages : list stage :=
  [Stage "wake" 95; Stage "restless" 60; Stage "deep" 60; Stage "rem" 29].

(** An export whose only SpO2 file has a header and no row. *)
Definition no_rows : export := {|
  profile := ["Europe/London"];
  spo2_files := [[]];
  bpm_files := bpm_files night
|}.

(** An export with a single instant: one SpO2 sample and one heart-rate
    entry at 08:00:00. *)
Definition one_instant : export := {|
  profile := ["Europe/London"];
  spo2_files := [[(t8, 95)]];
  bpm_files := [[(t8, 60)]]
|}.

(** The first chunk of [night]. *)
Definition night_chunk : list record := default [] (head night_chunks).

(** [night] with both SpO2 samples at 61, the lowest value the reader keeps. *)
Definition night_61 : export := {|
  profile := ["Europe/London"];
  spo2_files := [[(t8, 61); (t8 + 60, 61)]];
  bpm_files := bpm_files night
|}.

(** ** Vocabulary of the further properties *)

(** The value of the last sample of [samples] taken at [t]. *)
Definition latest (t : Z) (samples : list (Z * Z)) : option Z :=
  snd <$> last (filter (λ x : Z * Z, x.1 = t) samples).

(** What a dict entry holds after the two sources were merged. *)
Definition merged (a b : option Z) : option (option Z * option Z) :=
  match a, b with
  | None, None => None
  | _, _ => Some (a, b)
  end.

(** SpO2 rows in time order, with a value to drop and a 100. *)
Definition four_rows : list (Z * Z) :=
  [(t8, 95); (t8 + 60, 60); (t8 + 120, 100); (t8 + 600, 97)].

(** The last value of the field [f] among the index entries [entries]. *)
Definition observed (f : option Z * option Z → option Z) (entries : list item)
  : option Z :=
  last (omap (λ x : item, f x.2) entries).

(** The index entries with a timestamp at or before [t]. *)
Definition up_to (t : Z) (sd : list item) : list item :=
  filter (λ x : item, x.1 ≤ t) sd.

(** The record [r] lies in an interval of the index and holds the last
    SpO2 and heart-rate values of the entries up to that interval. *)
Definition carried_in (sd : list item) (r : record) : Prop :=
  ∃ (i : nat) cur nxt,
    sd !! i = Some cur ∧ sd !! S i = Some nxt ∧ cur.1 ≤ ts r < nxt.1 ∧
    (∀ v, observed fst (take (S i) sd) = Some v → r.1.2 = v) ∧
    (∀ v, observed snd (take (S i) sd) = Some v → r.2 = v).

(** Invariant of the walk of one session, for the values: [rs] are the
    records emitted since the state [(cs0, c0)]. *)
Definition values_inv (sd : list item) (s : list Z)
    (cs0 : list (list record)) (c0 : list record)
    (i : nat) (rs : list record) (acc : option Z * chunker) : Prop :=
  (chunks acc.2, chunk acc.2) = foldl push (cs0, c0) rs ∧
  (∀ v, observed fst (take i sd) = Some v → spo2 acc.2 = Some v) ∧
  (∀ v, observed snd (take i sd) = Some v → bpm acc.2 = Some v) ∧
  (∀ t, acc.1 = Some t →
     ∃ s0 s1, s !! 0%nat = Some s0 ∧ s !! 1%nat = Some s1 ∧ s0 ≤ t ∧
       (s1 < t ∨ ∀ cur, sd !! i = Some cur → cur.1 ≤ t)) ∧
  Forall (carried_in sd) rs.

(** Invariant of the walk of one session, for the assignment of the
    locals [spo2] and [bpm]. *)
Definition bound_inv (sd : list item) (i : nat) (acc : option Z * chunker)
  : Prop :=
  (is_Some (observed fst (take i sd)) → is_Some (spo2 acc.2)) ∧
  (is_Some (observed snd (take i sd)) → is_Some (bpm acc.2)) ∧
  (is_Some acc.1 → is_Some (spo2 acc.2) ∧ is_Some (bpm acc.2)).

(** A night whose heart-rate entries begin after the first SpO2 sample. *)
Definition late_bpm_sessions : list (list Z) := [[t8; t8 + 60]].

Definition late_bpm_data : gmap Z (option Z * option Z) :=
  list_to_map [(t8, (Some 95, None)); (t8 + 30, (None, Some 61));
               (t8 + 60, (Some 96, None)); (t8 + 900, (None, Some 70))].

(** The program [m] leaves every file whose name is not in [P] as it
    was, whether it returns or raises. *)
Definition touches_only {A} (P : string → Prop) (m : IO A) : Prop :=
  ∀ w n, ¬ P n → files (m w).2 !! n = files w !! n.

(** The program [m] raises no exception outside [Q]. *)
Definition raises_only {A} (Q : exn → Prop) (m : IO A) : Prop :=
  ∀ w e w', m w = (inl e, w') → Q e.

(** The name of the file of a chunk. *)
Definition chunk_file (lib : datetime_lib) (c : list record) : option string :=
  (λ first, file_name lib (ts first)) <$> head c.


(** The bytes of the file of the chunk [data], as the writer lays them
    out: the 40-byte header, then five bytes per record. *)
Definition viatom_file (lib : datetime_lib) (data : list record) : list Z :=
  match data with
  | [] => []
  | first :: _ =>
      let t := ts first in
      [5; 0] ++ le_bytes 2 (year lib t) ++
      [month lib t; day lib t; hour lib t; minute lib t; second lib t] ++
      le_bytes 4 (len data * 5 + 40) ++ le_bytes 2 (len data * 4) ++
      replicate 25 0 ++ (data ≫= record_bytes)
  end.


(** ** The sleep pipeline *)

(** [f"{n:02d}"] *)
Definition format_02d (n : Z) : string :=
  if decide (0 ≤ n < 10) then "0" +:+ pretty n else pretty n.

(** [minutes_to_time(minutes)] on an [int]: [//] and [%] round down, and
    [minutes % 1] is 0. *)
Definition minutes_to_time (minutes : Z) : string :=
  format_02d (minutes `div` 60) +:+ ":" +:+ format_02d (minutes `mod` 60)
    +:+ ":" +:+ format_02d ((minutes `mod` 1) * 60).

(** An entry of [item["levels"]["summary"]] *)
Record summary_entry : Type := SummaryEntry { count : Z; minutes : Z }.

(** An item of a "sleep-*.json" file, as Fitbit exports it: strings for
    the times, integers for the numbers. *)
Record sleep_log : Type := SleepLog {
  startTime : string;
  endTime : string;
  duration : Z;
  minutesAwake : Z;
  efficiency : Z;
  (** [item["levels"]["summary"]] *)
  summary : gmap string summary_entry;
  (** [item["levels"]["data"]] *)
  levels_data : list stage
}.

Record csv_lib : Type := CsvLib {
  (** [str.lower] *)
  lower : string → string;
  (** the bytes that [csv.writer(csv_file, delimiter=";").writerow(row)]
      writes to the file *)
  writerow : list string → list Z;
  (** [minutes_to_time(duration / 60000)]: the float division and the
      float arithmetic of [minutes_to_time] on its result *)
  minutes_to_time_60000 : Z → string
}.

(** The sleep pipeline also raises [KeyError]. *)
Inductive py_exn : Type :=
| Builtin (e : exn)
| KeyError (key : string).

Definition SIO (A : Type) : Type := world → (py_exn + A) * world.

#[export] Instance SIO_ret : MRet SIO := λ A x w, (inr x, w).
#[export] Instance SIO_bind : MBind SIO :=
  λ A B f m w, match m w with
               | (inl e, w') => (inl e, w')
               | (inr x, w') => f x w'
               end.

(** A step that raises one of the exceptions of [exn], or none. *)
Definition builtin {A} (m : IO A) : SIO A :=
  λ w, match m w with
       | (inl e, w') => (inl (Builtin e), w')
       | (inr x, w') => (inr x, w')
       end.

(** [d[key]] on a dict with string keys *)
Definition getitem {A} (d : gmap string A) (key : string) : SIO A :=
  λ w, match d !! key with
       | Some x => (inr x, w)
       | None => (inl (KeyError key), w)
       end.

Fixpoint for_each_item {A} (body : A → SIO unit) (l : list A) : SIO unit :=
  match l with
  | [] => mret ()
  | x :: l' => body x ≫= λ _, for_each_item body l'
  end.

(** The row of column names (lines 221-234). *)
Definition column_names : list string :=
  ["Start Time"; "Stop Time"; "Sleep Onset Duration"; "Light Sleep Duration";
   "Deep Sleep Duration"; "REM Duration"; "Wake After Sleep Onset Duration";
   "Number of awakenings"; "Sleep efficiency"; "Hypnogram"].

Section Dreem.
Variable slib : csv_lib.

(** ["light" in map(lambda y: y.lower(), x["levels"]["summary"].keys())] *)
Definition has_light (x : sleep_log) : Prop :=
  "light" ∈ lower slib <$> (map_to_list (summary x)).*1.

#[export] Instance has_light_dec x : Decision (has_light x) :=
  list_elem_of_dec "light" (lower slib <$> (map_to_list (summary x)).*1).

(** Body of [for item in filtered_data] (lines 243-280). *)
Definition dreem_item (item : sleep_log) : SIO unit :=
  let start_time := startTime item in
  let stop_time := endTime item in
  builtin (print ("Export to dreem sleep: " +:+ start_time +:+ " - "
                    +:+ stop_time));;
  let sleep_onset_duration := minutes_to_time_60000 slib (duration item) in
  light ← getitem (summary item) "light";
  let light_sleep_duration := minutes_to_time (minutes light) in
  deep ← getitem (summary item) "deep";
  let deep_sleep_duration := minutes_to_time (minutes deep) in
  rem ← getitem (summary item) "rem";
  let rem_duration := minutes_to_time (minutes rem) in
  let wake_after_sleep_onset_duration := minutes_to_time (minutesAwake item) in
  wake ← getitem (summary item) "wake";
  let number_of_awakenings := count wake in
  let sleep_efficiency := efficiency item in
  hypnogram ← builtin (generate_dreem_hypnogram (levels_data item));
  builtin (f_write "sleep.csv"
             (writerow slib
                [start_time; stop_time; sleep_onset_duration;
                 light_sleep_duration; deep_sleep_duration; rem_duration;
                 wake_after_sleep_onset_duration;
                 pretty number_of_awakenings; pretty sleep_efficiency;
                 "[" +:+ String.concat "," hypnogram +:+ "]"])).

Definition write_to_dreem (json_files : list (list sleep_log)) : SIO unit :=
  builtin (open_wb "sleep.csv");;
  builtin (f_write "sleep.csv" (writerow slib column_names));;
  for_each_item
    (λ json_data, for_each_item dreem_item (filter has_light json_data))
    json_files.

(** [json_files] are the parsed "sleep-*.json" files, in the order [glob]
    lists them. *)
Definition export_sleep_phases_as_dreem (json_files : list (list sleep_log))
  : SIO unit :=
  if decide (length json_files = 0%nat)
  then builtin (raise (RuntimeError "No sleep data detected!"))
  else write_to_dreem json_files.
End Dreem.

(** Lines 303-305: the two exports, one after the other, once the path
    of the export is known. *)
Definition run_exports (lib : datetime_lib) (slib : csv_lib) (e : export)
    (sleep_files : list (list sleep_log)) : SIO unit :=
  builtin (export_spo2_as_viatom lib e);;
  export_sleep_phases_as_dreem slib sleep_files.

(** The first of the four keys that the loop body reads and the summary
    lacks. *)
Definition missing_key (item : sleep_log) : option string :=
  head (filter (λ key, summary item !! key = None)
          ["light"; "deep"; "rem"; "wake"]).

(** The fields of the row of an item, and what the item prints. *)
Definition dreem_fields (slib : csv_lib) (item : sleep_log)
  : option (list string) :=
  light ← summary item !! "light";
  deep ← summary item !! "deep";
  rem ← summary item !! "rem";
  wake ← summary item !! "wake";
  Some [startTime item; endTime item;
        minutes_to_time_60000 slib (duration item);
        minutes_to_time (minutes light); minutes_to_time (minutes deep);
        minutes_to_time (minutes rem); minutes_to_time (minutesAwake item);
        pretty (count wake); pretty (efficiency item);
        "[" +:+ String.concat "," (levels_data item ≫= stage_labels) +:+ "]"].

Definition dreem_announce (item : sleep_log) : string :=
  "Export to dreem sleep: " +:+ startTime item +:+ " - " +:+ endTime item.

Definition dreem_lines (item : sleep_log) : list string :=
  dreem_announce item :: (levels_data item ≫= stage_diagnostics).

(** The items of all files that pass the filter, in order. *)
Definition stage_logs (slib : csv_lib) (json_files : list (list sleep_log))
  : list sleep_log :=
  json_data ← json_files; filter (has_light slib) json_data.

(** A sample library: ASCII lower case, rows without quoting, and whole
    minutes in place of the floats. *)
Definition ascii_lower (s : string) : string :=
  String.string_of_list_ascii
    ((λ c, let n := Ascii.nat_of_ascii c in
           if decide (65 ≤ n ≤ 90)%nat then Ascii.ascii_of_nat (n + 32) else c)
       <$> String.list_ascii_of_string s).

Definition plain_row (row : list string) : list Z :=
  (λ c, Z.of_nat (Ascii.nat_of_ascii c)) <$>
    String.list_ascii_of_string (String.concat ";" row) ++
    [Ascii.ascii_of_nat 13; Ascii.ascii_of_nat 10].

Definition plain : csv_lib := {|
  lower := ascii_lower;
  writerow := plain_row;
  minutes_to_time_60000 := λ d, minutes_to_time (d `div` 60000)
|}.

(** A stages log, a classic log, which has no "light" entry, and a log
    whose "light" entry is spelled "Light". *)
Definition stages_log : sleep_log := {|
  startTime := "2021-03-01T00:10:00.000";
  endTime := "2021-03-01T07:40:00.000";
  duration := 27000000;
  minutesAwake := 41;
  efficiency := 93;
  summary := {[ "deep" := SummaryEntry 3 76; "light" := SummaryEntry 24 231;
                "rem" := SummaryEntry 5 102; "wake" := SummaryEntry 22 41 ]};
  levels_data := stages
|}.

Definition classic_log : sleep_log := {|
  startTime := "2021-03-02T00:30:00.000";
  endTime := "2021-03-02T01:30:00.000";
  duration := 3600000;
  minutesAwake := 2;
  efficiency := 97;
  summary := {[ "asleep" := SummaryEntry 0 58; "awake" := SummaryEntry 1 2;
                "restless" := SummaryEntry 0 0 ]};
  levels_data := []
|}.

Definition capital_log : sleep_log := {|
  startTime := "2021-03-03T00:10:00.000";
  endTime := "2021-03-03T07:40:00.000";
  duration := 27000000;
  minutesAwake := 41;
  efficiency := 93;
  summary := {[ "Light" := SummaryEntry 24 231 ]};
  levels_data := []
|}.


(** [night] with a heart-rate file that has no entry. *)
Definition no_heart_rate : export := {|
  profile := ["Europe/London"];
  spo2_files := spo2_files night;
  bpm_files := [[]]
|}.


(** ** A zone with daylight saving time

    Europe/London in 2021: British Summer Time, one hour ahead of UTC, from
    2021-03-28 01:00:00 UTC to 2021-10-31 01:00:00 UTC.  All the datetimes
    of a run carry the same [tzinfo], so Python compares and subtracts
    them on these local wall-clock values.  [str] takes the repeated hour
    of the last morning as summer time. *)
Definition bst_start : Z := 1616893200.
Definition bst_end : Z := 1635642000.

Definition london_time (t : Z) : Z :=
  if decide (bst_start ≤ t < bst_end) then t + 3600 else t.

Definition london : datetime_lib := {|
  astimezone := λ _ t, london_time t;
  year := year utc;
  month := month utc;
  day := day utc;
  hour := hour utc;
  minute := minute utc;
  second := second utc;
  strftime := strftime utc;
  str_datetime := λ t,
    utc_strftime t "%Y-%m-%d %H:%M:%S"
      +:+ (if decide (bst_start + 3600 ≤ t < bst_end + 3600)
           then "+01:00" else "+00:00");
  minutes_to_time_15 := minutes_to_time_15 utc
|}.

(** Two SpO2 rows four minutes apart, at 00:58 and 01:02 UTC on the
    morning British Summer Time begins. *)
Definition spring_rows : list (Z * Z) :=
  [(bst_start - 120, 95); (bst_start + 120, 96)].

(** Two SpO2 rows 62 minutes apart, at 00:59 and 02:01 UTC on the morning
    British Summer Time ends. *)
Definition autumn_rows : list (Z * Z) :=
  [(bst_end - 60, 95); (bst_end + 3660, 96)].

(** A session of 4096 grid points in [long_data]. *)
Definition long_sessions : list (list Z) := [[t8; t8 + 16380]].

(** The chunks of a run of the chunker that returned. *)
Definition returned (r : result (list (list record))) : list (list record) :=
  match r with
  | inr out => out
  | inl _ => []
  end.

Definition long_chunks : list (list record) :=
  returned (divide_data_to_viatom_chunks long_sessions long_data).


(** ** The while loop *)

Lemma while_loop_eq e t st :
  while_loop e t st =
    if decide (t < e)
    then st' ← emit t (seal_full st); while_loop e (t + 4) st'
    else inr (t, st).
Proof.
  simp while_loop. destruct (decide (t < e)); simpl; [|done].
  destruct (emit t (seal_full st)); done.
Qed.

Lemma emit_seal_full t st st' :
  emit t (seal_full st) = inr st' →
  ∃ s b, spo2 st = Some s ∧ bpm st = Some b ∧
    (chunks st', chunk st') = push (chunks st, chunk st) (t, s, b) ∧
    spo2 st' = spo2 st ∧ bpm st' = bpm st.
Proof.
  unfold emit, seal_full, push. destruct st as [cs c s b].
  cbn [chunks chunk spo2 bpm fst snd].
  case_decide; cbn [chunks chunk spo2 bpm];
    destruct s as [s|], b as [b|]; try done;
    intros [= <-]; exists s, b; done.
Qed.

Lemma while_loop_spec e t st t' st' :
  while_loop e t st = inr (t', st') →
  ∃ new,
    (chunks st', chunk st') = foldl push (chunks st, chunk st) new ∧
    spo2 st' = spo2 st ∧ bpm st' = bpm st ∧
    t' = t + 4 * Z.of_nat (length new) ∧ e ≤ t' ∧
    (∀ (j : nat) r, new !! j = Some r → ts r = t + 4 * Z.of_nat j ∧ ts r < e).
Proof.
  remember (Z.to_nat (e - t)) as n eqn:Hn.
  revert t st Hn. induction (lt_wf n) as [n _ IH]. intros t st Hn.
  rewrite while_loop_eq. case_decide as Hlt.
  - destruct (emit t (seal_full st)) as [err|st1] eqn:Hemit; simpl; [done|].
    intros Hloop.
    apply emit_seal_full in Hemit as (s & b & _ & _ & Hpush & Hs & Hb).
    eapply (IH (Z.to_nat (e - (t + 4)))) in Hloop as
      (new & Hacc & Hs' & Hb' & Ht' & Hexit & Hnew); [|lia|done].
    exists ((t, s, b) :: new). simpl. rewrite <- Hpush.
    split_and!; [done|congruence|congruence|lia|done|].
    intros [|j] r; simpl.
    + intros [= <-]. unfold ts; simpl. lia.
    + intros Hr. apply Hnew in Hr. lia.
  - intros [= <- <-]. exists []. simpl. split_and!; [done..|lia|lia|done].
Qed.

(** ** Walking one session *)

Ltac red_result :=
  repeat (progress (unfold mret, mbind, result_ret, result_bind in *; simpl in *)).

Lemma index_inr {A} (l : list A) i x : index l i = inr x → l !! i = Some x.
Proof. unfold index. destruct (l !! i); naive_solver. Qed.

Lemma grid_app_progression rs new t :
  grid rs →
  (∀ r, last rs = Some r → ts r + 4 = t) →
  (∀ (j : nat) r, new !! j = Some r → ts r = t + 4 * Z.of_nat j) →
  grid (rs ++ new).
Proof.
  intros Hrs Hlast Hnew i a b Ha Hb.
  apply lookup_app_Some in Ha as [Ha|[Hi Ha]];
    apply lookup_app_Some in Hb as [Hb|[Hi' Hb]].
  - eauto.
  - apply lookup_lt_Some in Ha as Hlt.
    assert (i = pred (length rs)) as -> by lia.
    rewrite <- last_lookup in Ha. apply Hlast in Ha.
    replace (S (pred (length rs)) - length rs)%nat with 0%nat in Hb by lia.
    apply Hnew in Hb. lia.
  - apply lookup_lt_Some in Hb. lia.
  - replace (S i - length rs)%nat with (S (i - length rs)) in Hb by lia.
    apply Hnew in Ha, Hb. lia.
Qed.

Lemma interval_inv sd s cs0 i rs acc acc' :
  walk_inv sd s cs0 i rs acc →
  interval sd s i acc = inr acc' →
  ∃ rs', walk_inv sd s cs0 (S i) rs' acc'.
Proof.
  destruct acc as [last_timestamp st].
  intros (Hacc & Hgrid & Hlast & Hbound & Hin). simpl in *.
  unfold interval.
  destruct (match last_timestamp with
            | Some t => mret t
            | None => cur ← index sd i; mret cur.1
            end) as [err|t0] eqn:Ht0; simpl; [done|].
  destruct (index sd (i + 1)) as [err|nxt] eqn:Hnxt; simpl; [done|].
  destruct (index sd i) as [err|cur] eqn:Hcur; simpl; [done|].
  apply index_inr in Hnxt, Hcur. rewrite Nat.add_1_r in Hnxt.
  destruct (index s 0) as [err|s0] eqn:Hs0; simpl; [done|].
  apply index_inr in Hs0.
  assert (cur.1 ≤ t0 ∨ ∃ s1, s !! 1%nat = Some s1 ∧ s1 < t0) as Hcur_le.
  { destruct last_timestamp as [t|]; red_result; simplify_eq/=; [|left; lia].
    destruct (Hbound t0 eq_refl) as (? & s1 & ? & ? & ? & [?|Hc]); eauto. }
  assert (last_timestamp = None → rs = []) as Hnone.
  { intros ->. destruct (last rs) as [r|] eqn:Hr.
    - by specialize (Hlast r eq_refl).
    - by apply last_None in Hr. }
  assert (∀ t, last_timestamp = Some t → t = t0) as Hsome.
  { intros t ->. red_result. by simplify_eq/=. }
  case_decide as Hlo.
  { intros [= <-]. exists rs. split_and!; simpl; try done.
    intros t ->. destruct (Hbound t eq_refl) as (? & ? & ? & ? & ? & ?).
    rewrite (Hsome t eq_refl) in *. simplify_eq/=. lia. }
  destruct (index s 1) as [err|s1] eqn:Hs1; simpl; [done|].
  apply index_inr in Hs1.
  case_decide as Hhi.
  { intros [= <-]. exists rs. split_and!; simpl; try done.
    intros t ->. rewrite (Hsome t eq_refl) in *.
    exists s0, s1. split_and!; [done|done|lia|left; lia]. }
  match goal with |- context [while_loop ?e ?t ?st] =>
    destruct (while_loop e t st) as [err|[t' st']] eqn:Hloop end; simpl; [done|].
  intros [= <-].
  apply while_loop_spec in Hloop as (new & Hpush & _ & _ & Ht' & Hexit & Hnew).
  simpl in *.
  exists (rs ++ new). split_and!; simpl.
  - by rewrite foldl_app, <- Hacc.
  - apply (grid_app_progression _ _ t0); [done| |by intros j r [? _]%Hnew].
    intros r Hr. apply Hlast in Hr. specialize (Hsome _ Hr). lia.
  - intros r. destruct new as [|r0 new _] using rev_ind.
    + rewrite app_nil_r. intros Hr. apply Hlast in Hr.
      specialize (Hsome _ Hr). simpl in *. f_equal. lia.
    + rewrite app_assoc, last_snoc. intros [= <-].
      destruct (Hnew (length new) r0) as [-> _].
      { by rewrite lookup_app_r, Nat.sub_diag by lia. }
      rewrite length_app in Ht'. simpl in *. f_equal. lia.
  - intros t [= <-]. exists s0, s1. split_and!; [done|done|lia|].
    right. intros c Hc. simplify_eq/=. lia.
  - apply Forall_app. split; [done|].
    apply Forall_lookup. intros j r Hr. apply Hnew in Hr as [Hr1 Hr2].
    destruct Hcur_le as [?|(s1' & ? & ?)]; [|simplify_eq/=; lia].
    exists i, cur, nxt, s0, s1, t0. split_and!; try done; lia.
Qed.

Lemma intervals_inv sd s cs0 n i rs acc acc' :
  walk_inv sd s cs0 i rs acc →
  for_fold (interval sd s) (seq i n) acc = inr acc' →
  ∃ rs', walk_inv sd s cs0 (i + n) rs' acc'.
Proof.
  revert i rs acc. induction n as [|n IH]; intros i rs acc Hinv; simpl.
  - intros [= <-]. rewrite Nat.add_0_r. eauto.
  - destruct (interval sd s i acc) as [err|acc1] eqn:Hstep; simpl; [done|].
    intros Hrest. eapply interval_inv in Hstep as [rs1 Hinv1]; [|done].
    eapply IH in Hrest as [rs' Hinv']; [|done].
    exists rs'. by replace (i + S n)%nat with (S i + n)%nat by lia.
Qed.

Lemma foldl_push_prefix cs0 cs c rs :
  foldl push (cs0 ++ cs, c) rs =
    (cs0 ++ (foldl push (cs, c) rs).1, (foldl push (cs, c) rs).2).
Proof.
  revert cs c. induction rs as [|r rs IH]; intros cs c; simpl; [done|].
  unfold push at 2 4 6; simpl. case_decide; simpl.
  - by rewrite <- app_assoc, IH.
  - by rewrite IH.
Qed.

Lemma walk_session_stream sd s st st' :
  chunk st = [] →
  walk_session sd s st = inr st' →
  ∃ rs, chunks st' = chunks st ++ chop rs ∧ chunk st' = [] ∧
        grid rs ∧ Forall (emitted_in sd s) rs.
Proof.
  intros Hempty. unfold walk_session.
  destruct (for_fold _ _ _) as [err|[last_timestamp st1]] eqn:Hfold; simpl; [done|].
  intros [= <-].
  eapply (intervals_inv sd s (chunks st) _ 0 []) in Hfold as [rs Hinv].
  2:{ split_and!; simpl; [by rewrite Hempty|by intros []|done|done|done]. }
  destruct Hinv as (Hacc & Hgrid & _ & _ & Hin). simpl in Hacc.
  exists rs. split_and!; [| |done|done].
  - rewrite <- (app_nil_r (chunks st)), foldl_push_prefix in Hacc.
    injection Hacc as Hcs Hc.
    unfold seal_nonempty, chop. rewrite Hc. simpl.
    destruct (foldl push ([], []) rs).2; simpl.
    + by rewrite Hcs, app_nil_r.
    + by rewrite Hcs, app_assoc.
  - unfold seal_nonempty. by destruct (chunk st1) eqn:?.
Qed.

(** ** Chunks of a session *)

Lemma foldl_push_stream acc rs :
  concat (foldl push acc rs).1 ++ (foldl push acc rs).2 =
    concat acc.1 ++ acc.2 ++ rs.
Proof.
  revert acc. induction rs as [|r rs IH]; intros [cs c]; simpl.
  - by rewrite app_nil_r.
  - rewrite IH. unfold push; simpl. case_decide; simpl.
    + rewrite concat_app; simpl. by rewrite app_nil_r, <- app_assoc.
    + by rewrite <- app_assoc.
Qed.

Lemma foldl_push_full acc rs :
  Forall (λ c, len c = 4095) acc.1 → len acc.2 ≤ 4095 →
  Forall (λ c, len c = 4095) (foldl push acc rs).1 ∧
  len (foldl push acc rs).2 ≤ 4095 ∧
  (rs ≠ [] → (foldl push acc rs).2 ≠ []).
Proof.
  revert acc. induction rs as [|r rs IH]; intros [cs c] Hcs Hc; simpl in *.
  - done.
  - assert (Forall (λ c, len c = 4095) (push (cs, c) r).1 ∧
            len (push (cs, c) r).2 ≤ 4095 ∧
            (push (cs, c) r).2 ≠ []) as (Hcs1 & Hc1 & Hne1).
    { unfold push, len in *; cbn [fst snd]. case_decide; cbn [fst snd].
      - split_and!; [|simpl; lia|done].
        apply Forall_app. split; [done|]. apply Forall_singleton. lia.
      - rewrite length_app; simpl. split_and!; [done|lia|by destruct c]. }
    destruct (IH _ Hcs1 Hc1) as (? & ? & Hne).
    split_and!; [done..|]. intros _.
    destruct rs; [done|]. by apply Hne.
Qed.

Lemma chop_concat rs : concat (chop rs) = rs.
Proof.
  unfold chop. pose proof (foldl_push_stream ([], []) rs) as H. simpl in H.
  rewrite concat_app. destruct (foldl push ([], []) rs).2; simpl in *.
  - done.
  - by rewrite app_nil_r.
Qed.

Lemma chop_cap rs : Forall (λ c, 0 < len c ≤ 4095) (chop rs).
Proof.
  unfold chop.
  destruct (foldl_push_full ([], []) rs) as (Hfull & Hlen & _); [done..|].
  apply Forall_app. split.
  - eapply Forall_impl; [done|]. simpl. lia.
  - destruct (foldl push ([], []) rs).2; [done|].
    apply Forall_singleton. unfold len in *. simpl in *. lia.
Qed.

(** Every chunk of a session but its last holds exactly 4095 records. *)
Lemma chop_full rs j c :
  chop rs !! j = Some c → (S j < length (chop rs))%nat → len c = 4095.
Proof.
  unfold chop.
  destruct (foldl_push_full ([], []) rs) as (Hfull & _ & _); [done..|].
  intros Hc Hj. rewrite length_app in Hj.
  apply lookup_app_Some in Hc as [Hc|[Hge Hc]].
  - by eapply Forall_lookup in Hfull.
  - destruct (foldl push ([], []) rs).2; simpl in *; lia.
Qed.

Lemma grid_app_l l1 l2 : grid (l1 ++ l2) → grid l1.
Proof.
  intros H i a b Ha Hb. apply (H i); by apply lookup_app_l_Some.
Qed.

Lemma grid_app_r l1 l2 : grid (l1 ++ l2) → grid l2.
Proof.
  intros H i a b Ha Hb. apply (H (length l1 + i)%nat).
  - by rewrite lookup_app_r, Nat.add_comm, Nat.add_sub by lia.
  - replace (S (length l1 + i)) with (length l1 + S i)%nat by lia.
    by rewrite lookup_app_r, Nat.add_comm, Nat.add_sub by lia.
Qed.

Lemma grid_concat cs : grid (concat cs) → Forall grid cs.
Proof.
  induction cs as [|c cs IH]; simpl; intros H; constructor.
  - by eapply grid_app_l.
  - eapply IH, grid_app_r. done.
Qed.

Lemma chop_grid rs : grid rs → Forall grid (chop rs).
Proof. intros H. apply grid_concat. by rewrite chop_concat. Qed.

Lemma session_output_stream sd s cs :
  session_output sd s cs →
  ∃ rs, cs = chop rs ∧ grid rs ∧ Forall (emitted_in sd s) rs.
Proof.
  intros (st & st' & Hempty & Hwalk & _ & Hcs).
  apply walk_session_stream in Hwalk as (rs & Hcs' & _ & Hgrid & Hin); [|done].
  exists rs. split_and!; [|done..].
  rewrite Hcs in Hcs'. by apply app_inv_head in Hcs'.
Qed.

(** ** The loop over the sessions *)

Lemma sessions_decompose sd sessions st st' :
  chunk st = [] →
  for_fold (walk_session sd) sessions st = inr st' →
  ∃ per, chunk st' = [] ∧ chunks st' = chunks st ++ concat per ∧
         Forall2 (session_output sd) sessions per.
Proof.
  revert st. induction sessions as [|s sessions IH]; intros st Hempty; simpl.
  - intros [= <-]. exists []. simpl. by rewrite app_nil_r.
  - destruct (walk_session sd s st) as [err|st1] eqn:Hwalk; simpl; [done|].
    intros Hrest.
    destruct (walk_session_stream _ _ _ _ Hempty Hwalk) as (rs & Hcs & Hc & _).
    apply IH in Hrest as (per & Hc' & Hcs' & Hper); [|done].
    exists (chop rs :: per). split_and!; [done| |].
    + simpl. by rewrite Hcs', Hcs, app_assoc.
    + constructor; [|done]. by exists st, st1.
Qed.

Lemma divide_decompose sessions data out :
  divide_data_to_viatom_chunks sessions data = inr out →
  ∃ per, out = concat per ∧
         Forall2 (session_output (sorted_items data)) sessions per.
Proof.
  unfold divide_data_to_viatom_chunks.
  destruct (for_fold _ _ _) as [err|st] eqn:Hfold; simpl; [done|].
  intros [= <-].
  apply sessions_decompose in Hfold as (per & Hc & Hcs & Hper); [|done].
  exists per. split; [|done].
  unfold seal_nonempty. by rewrite Hc.
Qed.

(** ** The sorted record index *)

#[local] Instance key_le_trans : Transitive key_le.
Proof. unfold key_le. intros x y z. lia. Qed.

#[local] Instance key_le_total : Total key_le.
Proof. unfold key_le. intros x y. lia. Qed.

Lemma sorted_items_sorted data : StronglySorted key_le (sorted_items data).
Proof. apply StronglySorted_merge_sort; apply _. Qed.

Lemma elem_of_sorted_items data k v :
  (k, v) ∈ sorted_items data ↔ data !! k = Some v.
Proof.
  unfold sorted_items. rewrite merge_sort_Permutation.
  apply elem_of_map_to_list.
Qed.

Lemma sorted_items_key data i x :
  sorted_items data !! i = Some x → is_Some (data !! x.1).
Proof.
  intros H. destruct x as [k v]. exists v.
  apply elem_of_sorted_items, list_elem_of_lookup. eauto.
Qed.

Lemma length_sorted_items data : length (sorted_items data) = size data.
Proof.
  unfold sorted_items. rewrite merge_sort_Permutation.
  apply length_map_to_list.
Qed.

Lemma StronglySorted_lookup_le (l : list item) i j x y :
  StronglySorted key_le l → (i ≤ j)%nat →
  l !! i = Some x → l !! j = Some y → key_le x y.
Proof.
  intros Hl. revert i j. induction Hl as [|a l Hl IH Ha]; intros i j Hij; [done|].
  destruct i as [|i], j as [|j]; simpl; try lia.
  - intros [= <-] [= <-]. unfold key_le. lia.
  - intros [= <-] Hy. eapply Forall_lookup in Ha; [|done]. done.
  - apply IH. lia.
Qed.

(** A record emitted while walking a session lies strictly before every
    index timestamp later than the session end. *)
Lemma emitted_in_before_later data s r :
  emitted_in (sorted_items data) s r →
  ∃ s0 s1, s !! 0%nat = Some s0 ∧ s !! 1%nat = Some s1 ∧ s0 ≤ ts r ∧
    ∀ k, is_Some (data !! k) → s1 < k → ts r < k.
Proof.
  intros (i & cur & nxt & s0 & s1 & t0 & Hcur & Hnxt & Hs0 & Hs1 & Hc & Ht0 & Hr).
  exists s0, s1. split_and!; [done|done|lia|].
  intros k [v Hk] Hlater.
  apply elem_of_sorted_items, list_elem_of_lookup in Hk as [j Hj].
  pose proof (sorted_items_sorted data) as Hsorted.
  destruct (decide (j ≤ i)%nat) as [Hle|Hgt].
  - pose proof (StronglySorted_lookup_le _ _ _ _ _ Hsorted Hle Hj Hcur) as H.
    unfold key_le in H. simpl in H. lia.
  - assert (S i ≤ j)%nat as Hle by lia.
    pose proof (StronglySorted_lookup_le _ _ _ _ _ Hsorted Hle Hnxt Hj) as H.
    unfold key_le in H. simpl in H. lia.
Qed.

Lemma greatest_timestamp_exists data :
  data ≠ ∅ → ∃ m, greatest_timestamp data m.
Proof.
  intros Hne.
  pose proof (sorted_items_sorted data) as Hsorted.
  destruct (last (sorted_items data)) as [x|] eqn:Hlast.
  - exists x.1. rewrite last_lookup in Hlast. split.
    + by eapply sorted_items_key.
    + intros k [v Hk].
      apply elem_of_sorted_items, list_elem_of_lookup in Hk as [j Hj].
      assert (j ≤ pred (length (sorted_items data)))%nat as Hle.
      { apply lookup_lt_Some in Hj. lia. }
      apply (StronglySorted_lookup_le _ _ _ _ _ Hsorted Hle Hj Hlast).
  - apply last_None in Hlast.
    apply (f_equal length) in Hlast. rewrite length_sorted_items in Hlast.
    simpl in Hlast. by apply map_size_empty_inv in Hlast.
Qed.

Lemma emitted_in_before_greatest data s r :
  emitted_in (sorted_items data) s r →
  ∃ m, greatest_timestamp data m ∧ ts r < m.
Proof.
  intros (i & cur & nxt & s0 & s1 & t0 & Hcur & Hnxt & _ & _ & _ & _ & Hr).
  apply sorted_items_key in Hnxt as Hkey.
  destruct (greatest_timestamp_exists data) as [m Hm].
  { intros ->. by destruct Hkey. }
  exists m. split; [done|]. destruct Hm as [_ Hm]. apply Hm in Hkey. lia.
Qed.

Lemma elem_of_concat {A} (ls : list (list A)) x :
  x ∈ concat ls ↔ ∃ l, x ∈ l ∧ l ∈ ls.
Proof.
  rewrite list_elem_of_In, in_concat. split.
  - intros (l & ? & ?). exists l. by rewrite !list_elem_of_In.
  - intros (l & ? & ?). exists l. by rewrite <- !list_elem_of_In.
Qed.

(** Records of the output, with the session that emitted them. *)
Lemma divide_emitted sessions data out :
  divide_data_to_viatom_chunks sessions data = inr out →
  ∀ c r, c ∈ out → r ∈ c →
    ∃ s, s ∈ sessions ∧ emitted_in (sorted_items data) s r.
Proof.
  intros (per & -> & Hper)%divide_decompose c r Hc Hr.
  apply elem_of_concat in Hc as (cs & Hc & Hcs).
  apply list_elem_of_lookup in Hcs as [j Hj].
  destruct (Forall2_lookup_r _ _ _ _ _ Hper Hj) as (s & Hs & Hout).
  apply session_output_stream in Hout as (rs & -> & _ & Hin).
  exists s. split; [by eapply list_elem_of_lookup_2|].
  eapply Forall_forall; [done|].
  rewrite <- (chop_concat rs). apply elem_of_concat. eauto.
Qed.

Lemma concat_adjacent {A} (ls : list (list A)) i a b :
  Forall (λ l, l ≠ []) ls →
  concat ls !! i = Some a → concat ls !! S i = Some b →
  (∃ l k, l ∈ ls ∧ l !! k = Some a ∧ l !! S k = Some b) ∨
  (∃ j c c', ls !! j = Some c ∧ ls !! S j = Some c' ∧
             last c = Some a ∧ head c' = Some b).
Proof.
  intros Hne. revert i. induction Hne as [|l ls Hl Hne IH]; intros i; simpl; [done|].
  intros Ha Hb.
  apply lookup_app_Some in Ha as [Ha|[Hge Ha]].
  - apply lookup_app_Some in Hb as [Hb|[Hge Hb]].
    + left. exists l, i. split_and!; [left|done..].
    + apply lookup_lt_Some in Ha as Hlt.
      replace (S i - length l)%nat with 0%nat in Hb by lia.
      assert (i = pred (length l)) as -> by lia. rewrite <- last_lookup in Ha.
      destruct Hne as [|c' ls Hc' _]; simpl in Hb; [done|].
      right. exists 0%nat, l, c'. split_and!; [done..|].
      destruct c'; simpl in *; done.
  - rewrite lookup_app_r in Hb by lia.
    replace (S i - length l)%nat with (S (i - length l)) in Hb by lia.
    destruct (IH _ Ha Hb) as [(c & k & ? & ? & ?)|(j & c & c' & ? & ? & ? & ?)].
    + left. exists c, k. split_and!; [by right|done..].
    + right. by exists (S j), c, c'.
Qed.

(** ** Properties of the chunker *)

Ltac red_io :=
  repeat (progress (unfold mbind, mret, IO_bind, IO_ret, lift, raise,
                      result_bind, result_ret in *; simpl in *)).

Lemma write_too_long lib data w :
  len data > 4095 →
  ∃ msg, write_to_viatom_file lib data w = (inl (RuntimeError msg), w).
Proof.
  intros Hlen. unfold write_to_viatom_file. rewrite decide_True by done.
  unfold too_long.
  destruct data as [|r data]; [done|].
  destruct (last (r :: data)) as [final|] eqn:Hlast.
  - red_io. eauto.
  - by apply last_None in Hlast.
Qed.

Example long_session_splits :
  (out ← divide_data_to_viatom_chunks [[t8; t8]] long_data; mret (len <$> out))
    = inr [4095; 1].
Proof. vm_compute. reflexivity. Qed.

Lemma night_session_output :
  session_output (sorted_items night_data) [t8; t8 + 60] night_chunks.
Proof.
  exists (Chunker [] [] None None), (Chunker night_chunks [] (Some 96) (Some 62)).
  split_and!.
  - reflexivity.
  - vm_compute. reflexivity.
  - reflexivity.
  - reflexivity.
Qed.

(** C4, as stated, fails: the session of [night] ends at 08:01:00 and the
    record of 08:01:04 is emitted while walking it. *)
Lemma records_within_session_fails :
  ¬ (∀ sessions data out per,
       divide_data_to_viatom_chunks sessions data = inr out →
       out = concat per →
       Forall2 (session_output (sorted_items data)) sessions per →
       Forall2 (λ s cs, ∀ c r s0 s1,
                  c ∈ cs → r ∈ c → s !! 0%nat = Some s0 → s !! 1%nat = Some s1 →
                  s0 ≤ ts r ≤ s1)
               sessions per).
Proof.
  intros H.
  specialize (H night_sessions night_data night_chunks [night_chunks]).
  assert (Forall2 (λ s cs, ∀ c r s0 s1,
                     c ∈ cs → r ∈ c → s !! 0%nat = Some s0 → s !! 1%nat = Some s1 →
                     s0 ≤ ts r ≤ s1)
                  night_sessions [night_chunks]) as Hin.
  { apply H.
    - vm_compute. reflexivity.
    - vm_compute. reflexivity.
    - constructor; [apply night_session_output|constructor]. }
  apply Forall2_cons_1 in Hin as [Hin _].
  assert (∃ c, (t8 + 64, 96, 61) ∈ c ∧ c ∈ night_chunks) as (c & Hr & Hc).
  { apply elem_of_concat. vm_compute. do 16 right. left. }
  specialize (Hin c _ t8 (t8 + 60) Hc Hr eq_refl eq_refl).
  unfold ts in Hin. simpl in Hin. lia.
Qed.

(** C4, amended. A record emitted while walking a session has a
    timestamp at or after the session start and strictly before every
    timestamp of the record index that is later than the session end.  The
    session bounds are tested on the timestamp at which the walk of an
    index interval begins, not on each record. *)
Theorem records_from_session_start sessions data out :
  divide_data_to_viatom_chunks sessions data = inr out →
  ∃ per, out = concat per ∧
    Forall2 (λ s cs, session_output (sorted_items data) s cs ∧
               ∀ c r, c ∈ cs → r ∈ c →
                 ∃ s0 s1, s !! 0%nat = Some s0 ∧ s !! 1%nat = Some s1 ∧
                   s0 ≤ ts r ∧
                   ∀ k, is_Some (data !! k) → s1 < k → ts r < k)
            sessions per.
Proof.
  intros (per & -> & Hper)%divide_decompose.
  exists per. split; [done|].
  eapply Forall2_impl; [done|]. intros s cs Hout. split; [done|].
  apply session_output_stream in Hout as (rs & -> & _ & Hin).
  intros c r Hc Hr. apply emitted_in_before_later.
  eapply Forall_forall; [done|].
  rewrite <- (chop_concat rs). apply elem_of_concat. eauto.
Qed.

Lemma records_from_session_start_witness :
  ∃ per, night_chunks = concat per ∧
    Forall2 (λ s cs, session_output (sorted_items night_data) s cs ∧
               ∀ c r, c ∈ cs → r ∈ c →
                 ∃ s0 s1, s !! 0%nat = Some s0 ∧ s !! 1%nat = Some s1 ∧
                   s0 ≤ ts r ∧
                   ∀ k, is_Some (night_data !! k) → s1 < k → ts r < k)
            night_sessions per.
Proof.
  apply (records_from_session_start night_sessions night_data night_chunks).
  vm_compute. reflexivity.
Defined.

(** C8. Inside every chunk consecutive records are exactly four seconds
    apart.  Hence two consecutive records of the whole output that are not
    four seconds apart are the last record of one chunk and the first of
    the next; and a chunk is closed only at the end of its session or when
    it holds 4095 records. *)
Theorem chunks_on_grid sessions data out :
  divide_data_to_viatom_chunks sessions data = inr out →
  Forall grid out ∧
  (∀ i a b, concat out !! i = Some a → concat out !! S i = Some b →
     ts b ≠ ts a + 4 →
     ∃ j c c', out !! j = Some c ∧ out !! S j = Some c' ∧
               last c = Some a ∧ head c' = Some b) ∧
  (∃ per, out = concat per ∧
     Forall2 (λ s cs, session_output (sorted_items data) s cs ∧
                ∀ j c, cs !! j = Some c → (S j < length cs)%nat →
                       len c = 4095)
             sessions per).
Proof.
  intros (per & -> & Hper)%divide_decompose.
  assert (Forall (λ c, grid c ∧ c ≠ []) (concat per)) as Hall.
  { apply Forall_forall. intros c (cs & Hc & Hcs)%elem_of_concat.
    apply list_elem_of_lookup in Hcs as [j Hj].
    destruct (Forall2_lookup_r _ _ _ _ _ Hper Hj) as (s & _ & Hout).
    apply session_output_stream in Hout as (rs & -> & Hgrid & _).
    split.
    - eapply Forall_forall; [by apply chop_grid|done].
    - pose proof (chop_cap rs) as Hcap.
      eapply Forall_forall in Hcap; [|done]. simpl in Hcap.
      intros ->. unfold len in Hcap. simpl in Hcap. lia. }
  apply Forall_and in Hall as [Hgrid Hne]. split_and!.
  - done.
  - intros i a b Ha Hb Hgap.
    destruct (concat_adjacent _ _ _ _ Hne Ha Hb)
      as [(c & k & Hc & Hka & Hkb)|?]; [|done].
    eapply Forall_forall in Hgrid; [|done]. by specialize (Hgrid k a b Hka Hkb).
  - exists per. split; [done|].
    eapply Forall2_impl; [done|]. intros s cs Hout. split; [done|].
    apply session_output_stream in Hout as (rs & -> & _).
    apply chop_full.
Qed.

Lemma chunks_on_grid_witness :
  Forall grid night_chunks ∧
  (∀ i a b, concat night_chunks !! i = Some a →
     concat night_chunks !! S i = Some b →
     ts b ≠ ts a + 4 →
     ∃ j c c', night_chunks !! j = Some c ∧ night_chunks !! S j = Some c' ∧
               last c = Some a ∧ head c' = Some b) ∧
  (∃ per, night_chunks = concat per ∧
     Forall2 (λ s cs, session_output (sorted_items night_data) s cs ∧
                ∀ j c, cs !! j = Some c → (S j < length cs)%nat →
                       len c = 4095)
             night_sessions per).
Proof.
  apply (chunks_on_grid night_sessions night_data night_chunks).
  vm_compute. reflexivity.
Defined.

(** ** The session segmenter *)

Lemma for_fold_cons {A S} (body : A → S → result S) x l acc :
  for_fold body (x :: l) acc = body x acc ≫= for_fold body l.
Proof. done. Qed.

Lemma append_to_last_snoc x ss s :
  append_to_last x (ss ++ [s]) = ss ++ [s ++ [x]].
Proof.
  unfold append_to_last. rewrite length_app, Nat.add_1_r. simpl.
  by rewrite <- (Nat.add_0_r (length ss)), alter_app_r.
Qed.

Lemma close_snoc cur x t :
  close cur → last cur = Some x → t - x ≤ 300 → close (cur ++ [t]).
Proof.
  intros Hcur Hlast Hgap i a b Ha Hb.
  apply lookup_app_Some in Hb as [Hb|[Hge Hb]].
  - apply lookup_lt_Some in Hb as Hlt.
    rewrite lookup_app_l in Ha by lia. eauto.
  - apply list_lookup_singleton_Some in Hb as [Hi <-].
    assert (i = pred (length cur)) as -> by lia.
    rewrite lookup_app_l in Ha by lia.
    rewrite <- last_lookup in Ha. by simplify_eq/=.
Qed.

Lemma apart_snoc_new rs cur x t :
  apart (rs ++ [cur]) → last cur = Some x → t - x > 300 →
  apart ((rs ++ [cur]) ++ [[t]]).
Proof.
  intros Hrs Hlast Hgap j a b x' y Ha Hb Hx Hy.
  apply lookup_app_Some in Hb as [Hb|[Hge Hb]].
  - apply lookup_lt_Some in Hb as Hlt.
    rewrite lookup_app_l in Ha by lia. eauto.
  - apply list_lookup_singleton_Some in Hb as [Hj <-].
    rewrite length_app in Hge, Hj. simpl in *.
    assert (j = length rs) as -> by lia.
    rewrite <- app_assoc, lookup_app_r, Nat.sub_diag in Ha by lia.
    by simplify_eq/=.
Qed.

Lemma apart_snoc_ext rs cur t :
  apart (rs ++ [cur]) → cur ≠ [] → apart (rs ++ [cur ++ [t]]).
Proof.
  intros Hrs Hne j a b x y Ha Hb Hx Hy.
  apply lookup_app_Some in Hb as [Hb|[Hge Hb]].
  - apply lookup_lt_Some in Hb as Hlt.
    rewrite lookup_app_l in Ha by lia.
    apply (Hrs j a b); [|by apply lookup_app_l_Some|done..].
    by apply lookup_app_l_Some.
  - apply list_lookup_singleton_Some in Hb as [Hj <-].
    assert (j = pred (length rs)) as -> by lia.
    rewrite lookup_app_l in Ha by lia.
    apply (Hrs (pred (length rs)) a cur); [by apply lookup_app_l_Some| |done|].
    + replace (S (pred (length rs))) with (length rs) by lia.
      by rewrite lookup_app_r, Nat.sub_diag by lia.
    + by destruct cur.
Qed.

Lemma bounds_run r a x : head r = Some a → last r = Some x → bounds r = [a; x].
Proof. unfold bounds. by intros -> ->. Qed.

Lemma spo2_sample_inv p st t v :
  segment_inv p st →
  ∃ st', spo2_sample (t, v) st = inr st' ∧ segment_inv (p ++ [t]) st'.
Proof.
  intros [[-> Hnil]|(rs & cur & a & x & Hseg & Ha & Hx & Hss & Hprev)];
    unfold spo2_sample.
  - rewrite Hnil. simpl. eexists. split; [done|]. right.
    exists [], [t], t, t. simpl. split_and!; try done.
    split_and!; simpl.
    + done.
    + by repeat constructor.
    + repeat constructor. by intros [|i] ??.
    + by intros [|j] ?????.
  - destruct Hseg as (Hcat & Hne & Hclose & Hapart).
    apply Forall_app in Hne as [Hne Hcur], Hclose as [Hclose Hccur].
    rewrite Forall_singleton in Hcur, Hccur.
    rewrite Hss, Hprev. rewrite decide_False by (rewrite length_app; simpl; lia).
    rewrite last_snoc. red_result.
    case_decide as Hgap; red_result; (eexists; split; [done|]); right.
    + exists (rs ++ [cur]), [t], t, t. simpl. split_and!; try done.
      * split_and!.
        -- by rewrite concat_app, Hcat.
        -- rewrite !Forall_app, !Forall_singleton. done.
        -- rewrite !Forall_app, !Forall_singleton. split_and!; [done..|].
           by intros [|i] ??.
        -- by eapply apart_snoc_new.
      * rewrite append_to_last_snoc, fmap_app. simpl.
        by rewrite (bounds_run cur a x).
    + exists rs, (cur ++ [t]), a, t. simpl. split_and!; try done.
      * split_and!.
        -- rewrite concat_app in *. simpl in *. rewrite app_nil_r in *.
           by rewrite <- Hcat, app_assoc.
        -- rewrite Forall_app, Forall_singleton. split; [done|]. by destruct cur.
        -- rewrite Forall_app, Forall_singleton. split; [done|].
           eapply close_snoc; [done..|lia].
        -- by apply apart_snoc_ext.
      * by destruct cur.
      * by rewrite last_snoc.
Qed.

Lemma spo2_samples_inv samples p st :
  segment_inv p st →
  ∃ st', for_fold spo2_sample samples st = inr st' ∧
         segment_inv (p ++ samples.*1) st'.
Proof.
  revert p st. induction samples as [|[t v] samples IH]; intros p st Hinv.
  - simpl. rewrite app_nil_r. eauto.
  - rewrite for_fold_cons.
    destruct (spo2_sample_inv p st t v Hinv) as (st1 & -> & Hinv1).
    destruct (IH _ _ Hinv1) as (st' & Hfold & Hinv').
    exists st'. split; [done|]. rewrite <- app_assoc in Hinv'. done.
Qed.

Lemma segment_spec samples :
  samples ≠ [] →
  ∃ rs, segment samples = inr (bounds <$> rs) ∧ segmentation samples.*1 rs.
Proof.
  intros Hne. unfold segment.
  destruct (spo2_samples_inv samples [] (Segmenter [] ∅ None)) as (st & -> & Hinv).
  { by left. }
  simpl in *.
  destruct Hinv as [[Hnil _]|(rs & cur & a & x & Hseg & Ha & Hx & Hss & Hprev)].
  { by destruct samples. }
  exists (rs ++ [cur]). split; [|done].
  unfold close_sessions. rewrite Hss, Hprev.
  rewrite decide_False by (rewrite length_app; simpl; lia).
  rewrite last_snoc. red_result.
  rewrite append_to_last_snoc, fmap_app. simpl.
  by rewrite (bounds_run cur a x).
Qed.

Lemma segment_empty : segment [] = inl (RuntimeError "No SPO2 night sessions detected!").
Proof. done. Qed.

(** The sessions on the timestamps of the samples as the reader yields
    them, in the zone of the profile: they are the bounds of the runs of
    the sequence; the runs, in order, make up the input; inside a run
    consecutive timestamps differ by at most 300; the last of a run and
    the first of the next differ by more than 300; each session is
    [[first, last]] of its run, and the last session ends at the final
    timestamp. *)
Lemma sessions_follow_gaps samples :
  samples ≠ [] →
  ∃ rs ss,
    segment samples = inr ss ∧
    segmentation samples.*1 rs ∧
    Forall2 (λ r s, ∃ a b, head r = Some a ∧ last r = Some b ∧ s = [a; b]) rs ss ∧
    (∃ t s, last samples.*1 = Some t ∧ last ss = Some s ∧ s !! 1%nat = Some t).
Proof.
  intros Hne. destruct (segment_spec samples Hne) as (rs & Hseg & Hrs).
  exists rs, (bounds <$> rs). split_and!; [done..| |].
  - destruct Hrs as (_ & Hrne & _).
    apply Forall2_fmap_r, Forall_Forall2_diag.
    eapply Forall_impl; [done|]. intros r Hr. simpl in *.
    destruct r as [|a r]; [done|].
    destruct (last (a :: r)) as [b|] eqn:Hlast.
    + exists a, b. split_and!; [done..|]. by apply bounds_run.
    + by apply last_None in Hlast.
  - destruct Hrs as (Hcat & Hrne & _).
    destruct rs as [|cur rs _] using rev_ind.
    { simpl in Hcat. destruct samples; done. }
    apply Forall_app in Hrne as [_ Hcur]. rewrite Forall_singleton in Hcur.
    destruct cur as [|a cur]; [done|].
    destruct (last (a :: cur)) as [b|] eqn:Hlast.
    2:{ by apply last_None in Hlast. }
    exists b, [a; b]. split_and!; [| |done].
    + rewrite <- Hcat, concat_app. simpl concat. rewrite app_nil_r.
      rewrite last_app. by rewrite Hlast.
    + rewrite fmap_app. change (bounds <$> [a :: cur]) with [bounds (a :: cur)].
      by rewrite last_snoc, (bounds_run _ a b).
Qed.

Lemma sessions_follow_gaps_witness :
  ∃ rs ss,
    segment three_samples = inr ss ∧
    segmentation three_samples.*1 rs ∧
    Forall2 (λ r s, ∃ a b, head r = Some a ∧ last r = Some b ∧ s = [a; b]) rs ss ∧
    (∃ t s, last three_samples.*1 = Some t ∧ last ss = Some s ∧ s !! 1%nat = Some t).
Proof. apply (sessions_follow_gaps three_samples). discriminate. Defined.

Example three_samples_sessions :
  segment three_samples = inr [[t8; t8 + 60]; [t8 + 361; t8 + 361]].
Proof. vm_compute. reflexivity. Qed.

(** ** Retention *)

Lemma align_unfold lib csv_files json_files timezone filtered d :
  align_spo2_data lib csv_files json_files timezone = inr (filtered, d) →
  ∃ ss, segment (spo2_samples lib csv_files timezone) = inr ss ∧
        for_fold (retain (fst <$> last (bpm_samples lib json_files timezone)))
                 ss [] = inr filtered.
Proof.
  unfold align_spo2_data, segment.
  destruct (for_fold spo2_sample _ _) as [err|st]; [done|]. red_result.
  destruct (close_sessions st) as [err|ss]; [done|]. red_result.
  generalize (data st).
  assert (∀ (xs : list (Z * Z)) d0 l0,
            (foldl (λ acc sample, bpm_sample sample acc) (d0, l0) xs).2 =
              match last xs with Some x => Some x.1 | None => l0 end) as Hlast.
  { induction xs as [|x xs IH]; intros d0 l0; [done|].
    simpl. unfold bpm_sample at 2. simpl. rewrite IH.
    destruct xs as [|y xs]; [done|].
    change (last (x :: y :: xs)) with (last (y :: xs)).
    destruct (last (y :: xs)) eqn:E; [done|]. by apply last_None in E. }
  intros d0. specialize (Hlast (bpm_samples lib json_files timezone) d0 None).
  destruct (foldl _ _ _) as [d1 l1]. simpl in Hlast. subst l1.
  replace (match last (bpm_samples lib json_files timezone) with
           | Some x => Some x.1
           | None => None
           end) with (fst <$> last (bpm_samples lib json_files timezone))
    by by destruct (last _).
  destruct (for_fold _ ss []) as [err|out] eqn:Hfold; [done|].
  intros [= <- <-]. by exists ss.
Qed.

Lemma retain_eq last_bpm_timestamp s acc :
  retain last_bpm_timestamp s acc =
    match s !! 1%nat, last_bpm_timestamp with
    | None, _ => inl IndexError
    | Some _, None => inl TypeError
    | Some e, Some l => if decide (e < l) then inr (acc ++ [s]) else inr acc
    end.
Proof.
  unfold retain, index. destruct (s !! 1%nat); [|done].
  destruct last_bpm_timestamp; [|done]. red_result. by case_decide.
Qed.

Lemma retain_spec l ss acc out :
  for_fold (retain (Some l)) ss acc = inr out →
  ∀ s, s ∈ out ↔ s ∈ acc ∨ (s ∈ ss ∧ ∃ e, s !! 1%nat = Some e ∧ e < l).
Proof.
  revert acc. induction ss as [|s0 ss IH]; intros acc.
  - intros [= <-] s. rewrite elem_of_nil. tauto.
  - rewrite for_fold_cons, retain_eq.
    destruct (s0 !! 1%nat) as [e|] eqn:He; [|done].
    case_decide as Hlt; red_result; intros Hrest s;
      rewrite (IH _ Hrest s), elem_of_cons.
    + rewrite elem_of_app, list_elem_of_singleton. split.
      * intros [[? | ->] | [? ?]]; eauto 6.
      * intros [? | [[-> | ?] ?]]; eauto.
    + split.
      * intros [? | [? ?]]; eauto.
      * intros [? | [[-> | ?] (e' & ? & ?)]]; eauto.
        simplify_eq/=. lia.
Qed.

Lemma retain_no_bpm s ss acc :
  for_fold (retain None) (s :: ss) acc = inl IndexError ∨
  for_fold (retain None) (s :: ss) acc = inl TypeError.
Proof.
  rewrite for_fold_cons, retain_eq. destruct (s !! 1%nat); auto.
Qed.

(** C2, as stated, fails: with the later heart-rate file listed first the
    session of [night] ends before the greatest heart-rate timestamp and is
    dropped. *)
Lemma retained_before_max_bpm_fails :
  ¬ (∀ lib csv_files json_files timezone filtered d ss m,
       align_spo2_data lib csv_files json_files timezone = inr (filtered, d) →
       segment (spo2_samples lib csv_files timezone) = inr ss →
       m ∈ (bpm_samples lib json_files timezone).*1 →
       (∀ t, t ∈ (bpm_samples lib json_files timezone).*1 → t ≤ m) →
       ∀ s, s ∈ filtered ↔ s ∈ ss ∧ ∃ e, s !! 1%nat = Some e ∧ e < m).
Proof.
  intros H.
  assert (match align_spo2_data utc (spo2_files night) night_bpm_unordered
                  "Europe/London" with
          | inr (filtered, _) => filtered = []
          | inl _ => False
          end) as Hnone.
  { vm_compute. reflexivity. }
  destruct (align_spo2_data utc (spo2_files night) night_bpm_unordered
              "Europe/London") as [err|[filtered d]] eqn:Halign; [done|].
  subst filtered.
  specialize (H utc (spo2_files night) night_bpm_unordered "Europe/London"
                [] d [[t8; t8 + 60]] (t8 + 900)).
  assert ([t8; t8 + 60] ∈ @nil (list Z)) as Hin; [|by apply elem_of_nil in Hin].
  apply H.
  - done.
  - vm_compute. reflexivity.
  - vm_compute. right. left.
  - intros t Ht. vm_compute in Ht.
    repeat (apply elem_of_cons in Ht as [->|Ht]); [done..|].
    by apply elem_of_nil in Ht.
  - split; [left|]. exists (t8 + 60). split; [done|]. lia.
Qed.

(** Retention on the timestamps as the code compares them, in the zone
    of the profile: a session is retained if and only if its end is
    strictly less than the timestamp of the last heart-rate entry read;
    that timestamp is the greatest when those timestamps are in order. *)
Lemma retained_before_last_read lib csv_files json_files timezone filtered d :
  align_spo2_data lib csv_files json_files timezone = inr (filtered, d) →
  ∃ ss l,
    segment (spo2_samples lib csv_files timezone) = inr ss ∧
    last (bpm_samples lib json_files timezone).*1 = Some l ∧
    (∀ s, s ∈ filtered ↔ s ∈ ss ∧ ∃ e, s !! 1%nat = Some e ∧ e < l) ∧
    (StronglySorted Z.le (bpm_samples lib json_files timezone).*1 →
     ∀ t, t ∈ (bpm_samples lib json_files timezone).*1 → t ≤ l).
Proof.
  intros (ss & Hseg & Hret)%align_unfold.
  rewrite <- fmap_last in Hret.
  destruct (last (bpm_samples lib json_files timezone).*1) as [l|] eqn:Hl.
  - exists ss, l. split_and!; [done..| |].
    + intros s. rewrite (retain_spec _ _ _ _ Hret s), elem_of_nil. tauto.
    + intros Hsorted t Ht.
      destruct (bpm_samples lib json_files timezone).*1 as [|l' ts' _] using rev_ind;
        [done|].
      rewrite last_snoc in Hl. simplify_eq/=.
      apply elem_of_app in Ht as [Ht|Ht%list_elem_of_singleton]; [|lia].
      apply (StronglySorted_app_1_elem_of _ _ _ _ _ Hsorted Ht). left.
  - destruct (spo2_samples lib csv_files timezone) as [|x xs] eqn:Hxs.
    { by rewrite segment_empty in Hseg. }
    destruct (segment_spec (x :: xs)) as (rs & Hseg' & Hrs); [done|].
    rewrite Hseg' in Hseg. injection Hseg as <-.
    destruct rs as [|r rs]; [by destruct Hrs|].
    change (bounds <$> r :: rs) with (bounds r :: (bounds <$> rs)) in Hret.
    destruct (retain_no_bpm (bounds r) (bounds <$> rs) []) as [Herr|Herr];
      rewrite Hret in Herr; done.
Qed.


(** ** The hypnogram *)

Lemma levels_lookup lvl : levels !! lvl = label_of lvl.
Proof.
  unfold label_of.
  repeat (case_decide; [by subst|]).
  unfold levels. rewrite !lookup_insert_ne by done.
  by apply lookup_singleton_ne.
Qed.

Lemma stage_recognized item label :
  label_of (level item) = Some label →
  stage_labels item = replicate (Z.to_nat (seconds item `div` 30)) label ∧
  stage_diagnostics item = [].
Proof. unfold stage_labels, stage_diagnostics. by intros ->. Qed.

Lemma stage_unrecognized item :
  label_of (level item) = None →
  stage_labels item = [] ∧
  stage_diagnostics item =
    ["Sleep stage '" +:+ level item +:+ "' is not recognized"].
Proof. unfold stage_labels, stage_diagnostics. by intros ->. Qed.

#[local] Arguments stage_labels : simpl never.
#[local] Arguments stage_diagnostics : simpl never.

Lemma hypnogram_loop_spec json_data sleep_stages w :
  hypnogram_loop json_data sleep_stages w =
    (inr (sleep_stages ++ (json_data ≫= stage_labels)),
     World (stdout w ++ (json_data ≫= stage_diagnostics)) (files w)).
Proof.
  revert sleep_stages w.
  induction json_data as [|item rest IH]; intros sleep_stages w.
  - simpl. rewrite !app_nil_r. by destruct w.
  - cbn [hypnogram_loop]. unfold hypnogram_item.
    rewrite levels_lookup.
    destruct (label_of (level item)) as [label|] eqn:Hlabel.
    + apply stage_recognized in Hlabel as [Hl Hd].
      red_io. rewrite IH, Hl, Hd. simpl. by rewrite app_assoc.
    + apply stage_unrecognized in Hlabel as [Hl Hd].
      red_io. rewrite IH, Hl, Hd. simpl. by rewrite <- app_assoc.
Qed.

(** C9. [generate_dreem_hypnogram] returns, in input order, the labels of
    the recognized stages, each repeated once per whole 30 seconds of its
    stage; an unrecognized stage adds no label and prints one diagnostic
    line, and the function still returns. *)
Theorem hypnogram_labels json_data w :
  generate_dreem_hypnogram json_data w =
    (inr (json_data ≫= stage_labels),
     World (stdout w ++ (json_data ≫= stage_diagnostics)) (files w)) ∧
  (∀ item label, label_of (level item) = Some label → 0 ≤ seconds item →
     ∃ n : nat, stage_labels item = replicate n label ∧
                stage_diagnostics item = [] ∧
                30 * Z.of_nat n ≤ seconds item < 30 * Z.of_nat n + 30) ∧
  (∀ item, label_of (level item) = None →
     stage_labels item = [] ∧
     stage_diagnostics item =
       ["Sleep stage '" +:+ level item +:+ "' is not recognized"]).
Proof.
  split_and!.
  - unfold generate_dreem_hypnogram. by rewrite hypnogram_loop_spec.
  - intros item label Hlabel Hsec.
    apply stage_recognized in Hlabel as [Hl Hd].
    exists (Z.to_nat (seconds item `div` 30)).
    split_and!; [done..| |].
    + rewrite Z2Nat.id by (apply Z.div_pos; lia).
      apply Z.mul_div_le. lia.
    + rewrite Z2Nat.id by (apply Z.div_pos; lia).
      pose proof (Z.mod_pos_bound (seconds item) 30).
      pose proof (Z.div_mod (seconds item) 30). lia.
  - apply stage_unrecognized.
Qed.

Lemma hypnogram_labels_witness :
  generate_dreem_hypnogram stages (World [] ∅) =
    (inr (stages ≫= stage_labels),
     World ([] ++ (stages ≫= stage_diagnostics)) ∅) ∧
  ∃ n : nat, stage_labels (Stage "wake" 95) = replicate n "WAKE" ∧
             stage_diagnostics (Stage "wake" 95) = [] ∧
             30 * Z.of_nat n ≤ 95 < 30 * Z.of_nat n + 30.
Proof.
  destruct (hypnogram_labels stages (World [] ∅)) as (Hrun & Hknown & _).
  split; [exact Hrun|].
  apply (Hknown (Stage "wake" 95) "WAKE"); [reflexivity|simpl; lia].
Defined.

Example stages_hypnogram :
  generate_dreem_hypnogram stages (World [] ∅) =
    (inr ["WAKE"; "WAKE"; "WAKE"; "Deep"; "Deep"],
     World ["Sleep stage 'restless' is not recognized"] ∅).
Proof. vm_compute. reflexivity. Qed.

(** ** The pipeline *)

Lemma export_unfold lib e w timezone :
  last (profile e) = Some timezone →
  export_spo2_as_viatom lib e w =
    let w1 := World (stdout w ++ ["Timezone: " +:+ timezone]) (files w) in
    if decide (length (spo2_files e) = 0%nat ∨ length (bpm_files e) = 0%nat)
    then (inl (RuntimeError "No SpO2 or heart rate data detected!"), w1)
    else
      match align_spo2_data lib (spo2_files e) (bpm_files e) timezone with
      | inl err => (inl err, w1)
      | inr (sessions, data) =>
          ('(sessions, data) ← lift (inr (sessions, data));
           print "Detected SpO2 sessions:";;
           for_each (print_session lib) sessions;;
           chunks ← lift (divide_data_to_viatom_chunks sessions data);
           for_each (write_to_viatom_file lib) chunks) w1
      end.
Proof.
  intros Htz. unfold export_spo2_as_viatom, read_profile_timezone.
  rewrite Htz. red_io. case_decide; [done|].
  by destruct (align_spo2_data _ _ _ _) as [err|[sessions data]].
Qed.

Lemma for_each_cons {A} (body : A → IO unit) x l w :
  for_each body (x :: l) w =
    match body x w with
    | (inl e, w') => (inl e, w')
    | (inr _, w') => for_each body l w'
    end.
Proof. done. Qed.

Lemma print_session_files lib s w :
  files (print_session lib s w).2 = files w.
Proof.
  unfold print_session. red_io.
  destruct (index s 0) as [err|s0]; [done|].
  by destruct (index s 1) as [err|s1].
Qed.

Lemma print_sessions_files lib ss w :
  files (for_each (print_session lib) ss w).2 = files w.
Proof.
  revert w. induction ss as [|s ss IH]; intros w; [done|].
  rewrite for_each_cons. pose proof (print_session_files lib s w) as Hs.
  destruct (print_session lib s w) as [[err|[]] w']; [done|].
  rewrite IH. done.
Qed.

Lemma walk_session_single sd s st :
  length sd = 1%nat → chunk st = [] → walk_session sd s st = inr st.
Proof.
  intros Hsd Hst. unfold walk_session. rewrite Hsd. red_result.
  unfold seal_nonempty. by rewrite Hst.
Qed.

Lemma divide_single sessions data :
  size data = 1%nat → divide_data_to_viatom_chunks sessions data = inr [].
Proof.
  intros Hsize. unfold divide_data_to_viatom_chunks.
  assert (∀ st, chunk st = [] →
            for_fold (walk_session (sorted_items data)) sessions st = inr st) as ->;
    [|done..].
  induction sessions as [|s sessions IH]; intros st Hst; [done|].
  rewrite for_fold_cons, walk_session_single; [by apply IH| |done].
  by rewrite length_sorted_items.
Qed.

(** C7, as stated, fails: an SpO2 file without rows passes the check on
    the files, and the run stops later with another error. *)
Lemma no_rows_no_data_fails :
  ¬ (∀ lib e w timezone,
       last (profile e) = Some timezone →
       concat (spo2_files e) = [] ∨ concat (bpm_files e) = [] →
       ∃ w', export_spo2_as_viatom lib e w =
               (inl (RuntimeError "No SpO2 or heart rate data detected!"), w')).
Proof.
  intros H.
  destruct (H utc no_rows (World [] ∅) "Europe/London") as [w' Hw'];
    [done|by left|].
  vm_compute in Hw'. discriminate.
Qed.

(** C7, amended. When the export has no SpO2 file or no heart-rate file,
    the pipeline raises "No SpO2 or heart rate data detected!" right after
    reading the time zone: no session is computed and no file is written.
    When the SpO2 files are there and yield no sample, it raises "No SPO2
    night sessions detected!", again before any file is written. *)
Theorem no_files_no_data lib e w timezone :
  last (profile e) = Some timezone →
  let w1 := World (stdout w ++ ["Timezone: " +:+ timezone]) (files w) in
  (spo2_files e = [] ∨ bpm_files e = [] →
   export_spo2_as_viatom lib e w =
     (inl (RuntimeError "No SpO2 or heart rate data detected!"), w1)) ∧
  (spo2_files e ≠ [] → bpm_files e ≠ [] →
   spo2_samples lib (spo2_files e) timezone = [] →
   export_spo2_as_viatom lib e w =
     (inl (RuntimeError "No SPO2 night sessions detected!"), w1)).
Proof.
  intros Htz w1. rewrite (export_unfold _ _ _ _ Htz). fold w1. split.
  - intros Hnone. rewrite decide_True; [done|].
    destruct Hnone as [-> | ->]; auto.
  - intros Hcsv Hjson Hsamples. rewrite decide_False.
    2:{ destruct (spo2_files e), (bpm_files e); simpl; intros [?|?]; done. }
    unfold align_spo2_data. by rewrite Hsamples.
Qed.

Lemma no_files_no_data_witness :
  let w1 := World ([] ++ ["Timezone: " +:+ "Europe/London"]) ∅ in
  (spo2_files no_rows = [] ∨ bpm_files no_rows = [] →
   export_spo2_as_viatom utc no_rows (World [] ∅) =
     (inl (RuntimeError "No SpO2 or heart rate data detected!"), w1)) ∧
  (spo2_files no_rows ≠ [] → bpm_files no_rows ≠ [] →
   spo2_samples utc (spo2_files no_rows) "Europe/London" = [] →
   export_spo2_as_viatom utc no_rows (World [] ∅) =
     (inl (RuntimeError "No SPO2 night sessions detected!"), w1)).
Proof.
  apply (no_files_no_data utc no_rows (World [] ∅) "Europe/London").
  reflexivity.
Defined.

Example no_rows_error :
  export_spo2_as_viatom utc no_rows (World [] ∅) =
    (inl (RuntimeError "No SPO2 night sessions detected!"),
     World ["Timezone: Europe/London"] ∅).
Proof. vm_compute. reflexivity. Qed.

(** C10. Every record returned by [divide_data_to_viatom_chunks] has a
    timestamp strictly less than the greatest timestamp of the record
    index; when the index holds exactly one timestamp the chunker returns
    no chunk, and the pipeline leaves the files as they were. *)
Theorem records_before_greatest lib :
  (∀ sessions data out,
     divide_data_to_viatom_chunks sessions data = inr out →
     ∀ c r, c ∈ out → r ∈ c → ∃ m, greatest_timestamp data m ∧ ts r < m) ∧
  (∀ sessions data,
     size data = 1%nat → divide_data_to_viatom_chunks sessions data = inr []) ∧
  (∀ e w timezone sessions data,
     last (profile e) = Some timezone →
     align_spo2_data lib (spo2_files e) (bpm_files e) timezone
       = inr (sessions, data) →
     size data = 1%nat →
     files (export_spo2_as_viatom lib e w).2 = files w).
Proof.
  split_and!.
  - intros sessions data out Hout c r Hc Hr.
    destruct (divide_emitted _ _ _ Hout c r Hc Hr) as (s & _ & Hin).
    by eapply emitted_in_before_greatest.
  - apply divide_single.
  - intros e w timezone sessions data Htz Halign Hsize.
    rewrite (export_unfold _ _ _ _ Htz). cbn zeta.
    case_decide; [done|]. rewrite Halign.
    red_io.
    pose proof (print_sessions_files lib sessions
                  (World ((stdout w ++ ["Timezone: " +:+ timezone])
                            ++ ["Detected SpO2 sessions:"]) (files w))) as Hfiles.
    destruct (for_each (print_session lib) sessions _) as [[err|[]] w2];
      simpl in *; [done|].
    by rewrite (divide_single _ _ Hsize).
Qed.

Lemma records_before_greatest_witness :
  (∀ c r, c ∈ night_chunks → r ∈ c →
     ∃ m, greatest_timestamp night_data m ∧ ts r < m) ∧
  files (export_spo2_as_viatom utc one_instant (World [] ∅)).2 = ∅.
Proof.
  destruct (records_before_greatest utc) as (Hrecords & _ & Hfiles). split.
  - apply (Hrecords night_sessions night_data night_chunks).
    vm_compute. reflexivity.
  - apply (Hfiles one_instant (World [] ∅) "Europe/London" []
             {[t8 := (Some 95, Some 60)]}).
    + reflexivity.
    + vm_compute. reflexivity.
    + vm_compute. reflexivity.
Defined.

(** ** The binary writer *)

Lemma le_uint_le_bytes n x : le_uint (le_bytes n x) = x `mod` 256 ^ Z.of_nat n.
Proof.
  revert x. induction n as [|n IH]; intros x.
  - simpl. by rewrite Z.mod_1_r.
  - cbn [le_bytes le_uint foldr]. fold (le_uint (le_bytes n (x `div` 256))).
    rewrite IH, Nat2Z.inj_succ, Z.pow_succ_r by lia.
    rewrite Z.rem_mul_r by lia. lia.
Qed.

Lemma pack_B_inr x b : pack_B x = inr b → b = [x] ∧ 0 ≤ x < 256.
Proof.
  unfold pack_B. case_decide; [|done]. intros [= <-]. split; [|done].
  simpl. by rewrite Z.mod_small.
Qed.

Lemma pack_H_inr x b :
  pack_H x = inr b → length b = 2%nat ∧ le_uint b = x.
Proof.
  unfold pack_H. case_decide; [|done]. intros [= <-]. split; [done|].
  change (le_uint (le_bytes 2 x) = x).
  rewrite le_uint_le_bytes. by apply Z.mod_small.
Qed.

Lemma pack_I_inr x b :
  pack_I x = inr b → length b = 4%nat ∧ le_uint b = x.
Proof.
  unfold pack_I. case_decide; [|done]. intros [= <-]. split; [done|].
  change (le_uint (le_bytes 4 x) = x).
  rewrite le_uint_le_bytes. by apply Z.mod_small.
Qed.

Lemma append_file_insert name bytes content fs :
  append_file name bytes (<[name := content]> fs) = <[name := content ++ bytes]> fs.
Proof. unfold append_file. by rewrite lookup_insert_eq, insert_insert_eq. Qed.

Lemma append_file_append name b1 b2 fs :
  append_file name b2 (append_file name b1 fs) = append_file name (b1 ++ b2) fs.
Proof. unfold append_file at 2 3. by rewrite append_file_insert, app_assoc. Qed.

Lemma write_record_inr name r w w' :
  write_record name r w = (inr (), w') →
  w' = World (stdout w ++ record_diagnostics r)
             (append_file name (record_bytes r) (files w)) ∧
  0 ≤ r.2 < 256.
Proof.
  destruct r as [[t r1] r2]. unfold write_record, record_bytes, record_diagnostics.
  simpl. destruct (pack_B r2) as [err|b2] eqn:H2.
  { case_decide; [|case_decide]; red_io; [done..| ].
    by destruct (pack_B r1). }
  apply pack_B_inr in H2 as [-> H2].
  case_decide as H61.
  - rewrite decide_False by lia. red_io. intros [= <-]. split; [|done].
    rewrite !append_file_append, app_nil_r. done.
  - case_decide as H99.
    + change (pack_B 99) with (@inr exn _ [99]). red_io.
      intros [= <-]. split; [|done]. by rewrite !append_file_append.
    + destruct (pack_B r1) as [err|b1] eqn:H1; red_io; [done|].
      apply pack_B_inr in H1 as [-> H1].
      intros [= <-]. split; [|done].
      by rewrite !append_file_append, app_nil_r.
Qed.

#[local] Arguments for_each : simpl never.

Lemma write_records_inr name data w w' content :
  files w !! name = Some content →
  for_each (write_record name) data w = (inr (), w') →
  w' = World (stdout w ++ (data ≫= record_diagnostics))
             (<[name := content ++ (data ≫= record_bytes)]> (files w)).
Proof.
  revert w content. induction data as [|r data IH]; intros w content Hfile.
  - intros [= <-]. simpl. rewrite !app_nil_r, insert_id by done. by destruct w.
  - rewrite for_each_cons.
    destruct (write_record name r w) as [[err|[]] w1] eqn:Hr; [done|].
    apply write_record_inr in Hr as [-> _]. intros Hrest.
    apply (IH _ (content ++ record_bytes r)) in Hrest as ->; simpl.
    + unfold append_file. rewrite Hfile. simpl.
      by rewrite insert_insert_eq, <- !app_assoc.
    + unfold append_file. by rewrite Hfile, lookup_insert_eq.
Qed.

Lemma write_to_viatom_file_inr lib data w w' :
  write_to_viatom_file lib data w = (inr (), w') →
  ∃ first bY bF bD,
    head data = Some first ∧
    (length bY = 2%nat ∧ le_uint bY = year lib (ts first)) ∧
    (length bF = 4%nat ∧ le_uint bF = len data * 5 + 40) ∧
    (length bD = 2%nat ∧ le_uint bD = len data * 4) ∧
    Forall (λ x, 0 ≤ x < 256)
      [month lib (ts first); day lib (ts first); hour lib (ts first);
       minute lib (ts first); second lib (ts first)] ∧
    files w' =
      <[file_name lib (ts first) :=
          [5; 0] ++ bY ++
          [month lib (ts first); day lib (ts first); hour lib (ts first);
           minute lib (ts first); second lib (ts first)] ++
          bF ++ bD ++ replicate 25 0 ++ (data ≫= record_bytes)]> (files w).
Proof.
  unfold write_to_viatom_file. case_decide as Hlen.
  { destruct (write_too_long lib data w Hlen) as [msg Hmsg].
    unfold write_to_viatom_file in Hmsg. rewrite decide_True in Hmsg by done.
    by rewrite Hmsg. }
  destruct data as [|first data]; [done|].
  change (index (first :: data) 0) with (@inr exn _ first).
  change (b0 ← pack_B 5; b1 ← pack_B 0; mret (b0 ++ b1))
    with (@inr exn _ [5; 0]).
  red_io. fold (ts first). set (t := ts first). set (name := file_name lib t).
  destruct (pack_H (year lib t)) as [err|bY] eqn:HY; [done|].
  destruct (pack_B (month lib t)) as [err|bmo] eqn:Hmo; [done|].
  destruct (pack_B (day lib t)) as [err|bd] eqn:Hd; [done|].
  destruct (pack_B (hour lib t)) as [err|bh] eqn:Hh; [done|].
  destruct (pack_B (minute lib t)) as [err|bmi] eqn:Hmi; [done|].
  destruct (pack_B (second lib t)) as [err|bs] eqn:Hs; [done|].
  destruct (pack_I (len (first :: data) * 5 + 40)) as [err|bF] eqn:HF; [done|].
  destruct (pack_H (len (first :: data) * 4)) as [err|bD] eqn:HD; [done|].
  apply pack_B_inr in Hmo as [-> ?], Hd as [-> ?], Hh as [-> ?],
    Hmi as [-> ?], Hs as [-> ?].
  apply pack_H_inr in HY, HD. apply pack_I_inr in HF.
  rewrite !append_file_append, append_file_insert.
  match goal with |- context [for_each _ _ ?w0] =>
    destruct (for_each (write_record name) (first :: data) w0)
      as [[err|[]] w1] eqn:Hrec end; [done|].
  eapply write_records_inr in Hrec as ->; [|apply lookup_insert_eq].
  intros [= <-]. exists first, bY, bF, bD.
  destruct HY as [? ?], HF as [? ?], HD as [? ?].
  split_and!; [done..| |].
  { repeat (constructor; [done|]). constructor. }
  cbn [files]. rewrite insert_insert_eq. f_equal.
  simpl. repeat (rewrite <- app_assoc; simpl). done.
Qed.

Lemma length_record_bytes data :
  len (data ≫= record_bytes) = 5 * len data.
Proof.
  unfold len. induction data as [|[[t r1] r2] data IH]; [done|].
  cbn [mbind list_bind]. rewrite length_app.
  assert (length (record_bytes (t, r1, r2)) = 5%nat) as ->
    by (unfold record_bytes; by case_decide).
  simpl length. unfold mbind in *.
  lia.
Qed.

(** C5. When [write_to_viatom_file] completes, the file it wrote is named
    after the first record, its header decodes to the year, month, day,
    hour, minute and second of the first record's timestamp, its file-size
    field is [record_count * 5 + 40], which is the length of the file, and
    its duration field is [record_count * 4]. *)
Theorem header_round_trip lib data w w' :
  write_to_viatom_file lib data w = (inr (), w') →
  ∃ first content,
    head data = Some first ∧
    files w' !! file_name lib (ts first) = Some content ∧
    decode_header content =
      Some {| h_year := year lib (ts first);
              h_month := month lib (ts first);
              h_day := day lib (ts first);
              h_hour := hour lib (ts first);
              h_minute := minute lib (ts first);
              h_second := second lib (ts first);
              h_file_size := len data * 5 + 40;
              h_duration := len data * 4 |} ∧
    len content = len data * 5 + 40.
Proof.
  intros (first & bY & bF & bD & Hfirst & [HlY HY] & [HlF HF] & [HlD HD]
            & _ & Hfiles)%write_to_viatom_file_inr.
  eexists first, _. split; [done|]. rewrite Hfiles, lookup_insert_eq.
  split; [done|].
  destruct bY as [|y0 [|y1 [|??]]]; try done.
  destruct bF as [|f0 [|f1 [|f2 [|f3 [|??]]]]]; try done.
  destruct bD as [|d0 [|d1 [|??]]]; try done.
  split.
  - unfold decode_header. rewrite decide_True by (simpl; lia).
    rewrite <- HY, <- HF, <- HD. unfold field. simpl.
    do 2 f_equal; lia.
  - pose proof (length_record_bytes data) as Hbody. unfold len in *.
    rewrite !length_app, length_replicate. simpl length. lia.
Qed.

Lemma header_round_trip_witness :
  ∃ first content,
    head night_chunk = Some first ∧
    files (write_to_viatom_file utc night_chunk (World [] ∅)).2
      !! file_name utc (ts first) = Some content ∧
    decode_header content =
      Some {| h_year := year utc (ts first);
              h_month := month utc (ts first);
              h_day := day utc (ts first);
              h_hour := hour utc (ts first);
              h_minute := minute utc (ts first);
              h_second := second utc (ts first);
              h_file_size := len night_chunk * 5 + 40;
              h_duration := len night_chunk * 4 |} ∧
    len content = len night_chunk * 5 + 40.
Proof.
  apply (header_round_trip utc night_chunk (World [] ∅)).
  vm_compute. reflexivity.
Defined.

Example night_header :
  decode_header <$>
    files (write_to_viatom_file utc night_chunk (World [] ∅)).2
      !! "20210301080000.bin" =
  Some (Some (Header 2021 3 1 8 0 0 155 92)).
Proof. vm_compute. reflexivity. Qed.

(** ** SpO2 values from the reader to the file *)

Lemma read_csv_cons lib t v file timezone :
  read_csv lib ((t, v) :: file) timezone =
    (if decide (v < 61) then []
     else [(astimezone lib timezone t, if decide (v = 100) then 99 else v)])
    ++ read_csv lib file timezone.
Proof. unfold read_csv. simpl. by case_decide. Qed.

Lemma write_record_ok name r w :
  0 ≤ r.2 < 256 →
  write_record name r w =
    (inr (), World (stdout w ++ record_diagnostics r)
                   (append_file name (record_bytes r) (files w))).
Proof.
  destruct r as [[t r1] r2]. simpl. intros H2.
  unfold write_record, record_bytes, record_diagnostics, pack_B.
  rewrite (decide_True (P := 0 ≤ r2 < 256)) by done.
  case_decide as H61.
  - rewrite decide_False by lia. red_io. unfold f_write. simpl.
    rewrite !append_file_append, app_nil_r.
    by rewrite (Z.mod_small r2) by lia.
  - case_decide as H99.
    + rewrite decide_True by lia. red_io. unfold f_write. simpl.
      rewrite !append_file_append.
      by rewrite (Z.mod_small r2) by lia.
    + rewrite decide_True by lia. red_io. unfold f_write. simpl.
      rewrite !append_file_append, app_nil_r.
      by rewrite (Z.mod_small r1), (Z.mod_small r2) by lia.
Qed.

(** The parts of C6 that hold: what the reader drops and keeps, and what
    the writer makes of the values above 61. *)
Lemma spo2_values lib timezone t v file name ts0 r2 w :
  (v ≤ 60 → read_csv lib ((t, v) :: file) timezone = read_csv lib file timezone) ∧
  (60 < v < 100 →
   read_csv lib ((t, v) :: file) timezone =
     (astimezone lib timezone t, v) :: read_csv lib file timezone) ∧
  (v = 100 →
   read_csv lib ((t, v) :: file) timezone =
     (astimezone lib timezone t, 99) :: read_csv lib file timezone) ∧
  (0 ≤ r2 < 256 → 61 < v < 100 →
   write_record name (ts0, v, r2) w =
     (inr (), World (stdout w ++ [])
                    (append_file name [v; r2; 0; 0; 0] (files w)))) ∧
  (0 ≤ r2 < 256 → 99 < v →
   write_record name (ts0, v, r2) w =
     (inr (), World (stdout w ++ ["TOOHIGH: " +:+ pretty v])
                    (append_file name [99; r2; 0; 0; 0] (files w)))).
Proof.
  rewrite read_csv_cons. split_and!.
  - intros Hv. by rewrite decide_True by lia.
  - intros Hv. by rewrite decide_False, decide_False by lia.
  - intros ->. by rewrite decide_False, decide_True by lia.
  - intros H2 Hv. rewrite write_record_ok by done.
    unfold record_bytes, record_diagnostics.
    by rewrite !decide_False by lia.
  - intros H2 Hv. rewrite write_record_ok by done.
    unfold record_bytes, record_diagnostics.
    rewrite (decide_False (P := v ≤ 61)) by lia.
    by rewrite !(decide_True (P := v > 99)) by lia.
Qed.

(** C6 at 61: the reader keeps the value, and the writer, which tests
    [record[1] <= 61], writes the invalid marker in its place. *)
Theorem sixty_one_written_invalid lib timezone t file name ts0 r2 w :
  read_csv lib ((t, 61) :: file) timezone =
    (astimezone lib timezone t, 61) :: read_csv lib file timezone ∧
  (0 ≤ r2 < 256 →
   write_record name (ts0, 61, r2) w =
     (inr (), World (stdout w ++ [])
                    (append_file name [255; r2; 255; 0; 0] (files w)))).
Proof.
  split.
  - by rewrite read_csv_cons.
  - intros H2. by rewrite write_record_ok.
Qed.

Lemma sixty_one_written_invalid_witness :
  read_csv utc [(t8, 61)] "Europe/London" = [(t8, 61)] ∧
  write_record "20210301080000.bin" (t8, 61, 60) (World [] ∅) =
    (inr (), World [] {["20210301080000.bin" := [255; 60; 255; 0; 0]]}).
Proof.
  destruct (sixty_one_written_invalid utc "Europe/London" t8 []
              "20210301080000.bin" t8 60 (World [] ∅)) as [Hread Hwrite].
  split; [exact Hread|]. rewrite Hwrite by lia. reflexivity.
Defined.

(** In the file written for [night_61] the SpO2 byte of the first record,
    at offset 40, is the invalid marker. *)
Example night_61_first_record :
  (λ content, take 5 (drop 40 content)) <$>
    files (export_spo2_as_viatom utc night_61 (World [] ∅)).2
      !! "20210301080000.bin" =
  Some [255; 60; 255; 0; 0].
Proof. vm_compute. reflexivity. Qed.

(** ** The reader *)

(** X1. A sample comes out of [read_csv] exactly for a row whose rounded
    value is at least 61, with the localized timestamp and with 100 turned
    into 99; so no sample below 61 and no sample equal to 100 ever leaves
    the reader, and the samples keep the order of the rows. *)
Theorem read_csv_samples lib file timezone :
  (∀ t v, (t, v) ∈ read_csv lib file timezone ↔
     ∃ row, row ∈ file ∧ 61 ≤ row.2 ∧ t = astimezone lib timezone row.1 ∧
            v = if decide (row.2 = 100) then 99 else row.2) ∧
  (∀ t v, (t, v) ∈ read_csv lib file timezone → 61 ≤ v ∧ v ≠ 100) ∧
  (read_csv lib file timezone).*1 `sublist_of`
    (astimezone lib timezone <$> file.*1).
Proof.
  assert (∀ t v, (t, v) ∈ read_csv lib file timezone ↔
     ∃ row, row ∈ file ∧ 61 ≤ row.2 ∧ t = astimezone lib timezone row.1 ∧
            v = if decide (row.2 = 100) then 99 else row.2) as Hiff.
  { intros t v. unfold read_csv. rewrite list_elem_of_omap. split.
    - intros (row & Hrow & Hsome). exists row.
      case_decide; simplify_eq/=. split_and!; [done|lia|done..].
    - intros (row & Hrow & Hge & -> & ->). exists row. split; [done|].
      by rewrite decide_False by lia. }
  split_and!; [done| |].
  - intros t v (row & _ & Hge & _ & ->)%Hiff. case_decide; lia.
  - clear Hiff. induction file as [|[t v] file IH]; [done|].
    rewrite read_csv_cons. simpl. case_decide; simpl.
    + by apply sublist_cons.
    + by apply sublist_skip.
Qed.

Example four_rows_read :
  read_csv utc four_rows "Europe/London" =
    [(t8, 95); (t8 + 120, 99); (t8 + 600, 97)].
Proof. vm_compute. reflexivity. Qed.

(** ** Sessions of chronological samples *)

Lemma StronglySorted_concat_elem (rs : list (list Z)) r :
  StronglySorted Z.le (concat rs) → r ∈ rs → StronglySorted Z.le r.
Proof.
  intros Hs (l1 & l2 & ->)%list_elem_of_split.
  rewrite concat_app in Hs. simpl in Hs.
  by apply StronglySorted_app_1_r, StronglySorted_app_1_l in Hs.
Qed.

Lemma StronglySorted_head_last (r : list Z) a b :
  StronglySorted Z.le r → head r = Some a → last r = Some b → a ≤ b.
Proof.
  intros Hs Ha Hb. destruct r as [|x r]; [done|]. simpl in Ha. simplify_eq/=.
  apply StronglySorted_cons in Hs as [Hall _].
  destruct r as [|y r]; [by simplify_eq/=|].
  rewrite last_cons_cons in Hb.
  eapply Forall_forall in Hall; [done|]. by eapply last_Some_elem_of.
Qed.

Lemma bounds_inv r a b :
  r ≠ [] → bounds r = [a; b] → head r = Some a ∧ last r = Some b.
Proof.
  intros Hne. unfold bounds. destruct r as [|x r]; [done|]. simpl head.
  destruct (last (x :: r)) as [y|] eqn:Hlast; [|by apply last_None in Hlast].
  by intros [= -> ->].
Qed.

(** X2. The timestamps of the samples are those the reader yields, in
    the zone of the profile, and they are compared and subtracted as
    wall-clock times.  When they are in non-decreasing order, every
    session is [[start, end]] with [start ≤ end], both of them timestamps
    of samples, and the start of a session is more than 300 above the end
    of the session before it, so the sessions are disjoint and in order
    on that clock. *)
Theorem sessions_ordered samples :
  samples ≠ [] →
  StronglySorted Z.le samples.*1 →
  ∃ ss,
    segment samples = inr ss ∧
    (∀ j s, ss !! j = Some s →
       ∃ a b, s = [a; b] ∧ a ≤ b ∧ a ∈ samples.*1 ∧ b ∈ samples.*1) ∧
    (∀ j a b a' b', ss !! j = Some [a; b] → ss !! S j = Some [a'; b'] →
       b + 300 < a').
Proof.
  intros Hne Hsorted.
  destruct (segment_spec samples Hne) as (rs & Hseg & Hcat & Hrne & _ & Hapart).
  exists (bounds <$> rs). split; [done|].
  assert (∀ j s, (bounds <$> rs) !! j = Some s →
            ∃ r a b, rs !! j = Some r ∧ s = [a; b] ∧
                     head r = Some a ∧ last r = Some b) as Hrun.
  { intros j s Hs. rewrite list_lookup_fmap in Hs.
    destruct (rs !! j) as [r|] eqn:Hr; [|done]. simplify_eq/=.
    eapply Forall_lookup in Hrne; [|done].
    destruct r as [|x r]; [done|].
    destruct (last (x :: r)) as [y|] eqn:Hlast; [|by apply last_None in Hlast].
    exists (x :: r), x, y. split_and!; [done| |done..].
    by apply bounds_run. }
  split.
  - intros j s (r & a & b & Hr & -> & Ha & Hb)%Hrun.
    assert (r ∈ rs) as Hin by by eapply list_elem_of_lookup_2.
    exists a, b. split_and!; [done| | |].
    + eapply StronglySorted_head_last; [|done..].
      eapply StronglySorted_concat_elem; [|done]. by rewrite Hcat.
    + rewrite <- Hcat. apply elem_of_concat. exists r. split; [|done].
      destruct r; simplify_eq/=. left.
    + rewrite <- Hcat. apply elem_of_concat. exists r. split; [|done].
      by eapply last_Some_elem_of.
  - intros j a b a' b' (r & x & y & Hr & [= <- <-] & _ & Hb)%Hrun
      (r' & x' & y' & Hr' & [= <- <-] & Ha' & _)%Hrun.
    specialize (Hapart j r r' b a' Hr Hr' Hb Ha'). lia.
Qed.

Lemma sessions_ordered_witness :
  ∃ ss,
    segment three_samples = inr ss ∧
    (∀ j s, ss !! j = Some s →
       ∃ a b, s = [a; b] ∧ a ≤ b ∧
              a ∈ three_samples.*1 ∧ b ∈ three_samples.*1) ∧
    (∀ j a b a' b', ss !! j = Some [a; b] → ss !! S j = Some [a'; b'] →
       b + 300 < a').
Proof.
  apply (sessions_ordered three_samples); [discriminate|].
  unfold three_samples, t8. simpl.
  repeat first [apply SSorted_nil | apply SSorted_cons
               | apply Forall_nil_2 | apply Forall_cons_2 | lia].
Defined.

(** ** The record index *)

Lemma latest_snoc t samples x :
  latest t (samples ++ [x]) =
    if decide (x.1 = t) then Some x.2 else latest t samples.
Proof.
  unfold latest. rewrite filter_app, filter_cons, filter_nil.
  case_decide.
  - by rewrite last_snoc.
  - by rewrite app_nil_r.
Qed.

Lemma latest_is_Some t samples : t ∈ samples.*1 → is_Some (latest t samples).
Proof.
  intros ([t' v] & -> & Hin)%list_elem_of_fmap. unfold latest.
  apply fmap_is_Some, last_is_Some. intros Hnil.
  by eapply (filter_nil_not_elem_of _ _ (t', v)) in Hnil.
Qed.

Lemma latest_elem_of t v samples : latest t samples = Some v → (t, v) ∈ samples.
Proof.
  unfold latest. intros Hl.
  destruct (last (filter _ samples)) as [[t' v']|] eqn:Hlast; [|done].
  simplify_eq/=. apply last_Some_elem_of, list_elem_of_filter in Hlast as [Ht Hin].
  simpl in Ht. by subst.
Qed.

Lemma set_spo2_fold_lookup samples d0 t :
  foldl (λ d x, set_spo2 x.1 x.2 d) d0 samples !! t =
    match latest t samples with
    | Some v => Some (Some v, (default (None, None) (d0 !! t)).2)
    | None => d0 !! t
    end.
Proof.
  induction samples as [|x samples IH] using rev_ind; [done|].
  rewrite foldl_snoc, latest_snoc. unfold set_spo2 at 1.
  case_decide as Hx.
  - rewrite Hx, lookup_insert_eq. do 2 f_equal. rewrite IH.
    by destruct (latest t samples), (d0 !! t).
  - by rewrite lookup_insert_ne.
Qed.

Lemma set_bpm_fold_lookup samples d0 t :
  foldl (λ d x, set_bpm x.1 x.2 d) d0 samples !! t =
    match latest t samples with
    | Some v => Some ((default (None, None) (d0 !! t)).1, Some v)
    | None => d0 !! t
    end.
Proof.
  induction samples as [|x samples IH] using rev_ind; [done|].
  rewrite foldl_snoc, latest_snoc. unfold set_bpm at 1.
  case_decide as Hx.
  - rewrite Hx, lookup_insert_eq. do 2 f_equal. rewrite IH.
    by destruct (latest t samples), (d0 !! t).
  - by rewrite lookup_insert_ne.
Qed.

Lemma spo2_sample_data x st st' :
  spo2_sample x st = inr st' → data st' = set_spo2 x.1 x.2 (data st).
Proof.
  destruct x as [t v]. unfold spo2_sample.
  destruct (if decide (length (sessions st) = 0%nat) then _ else _)
    as [err|ss]; [done|].
  by intros [= <-].
Qed.

Lemma spo2_samples_data samples st st' :
  for_fold spo2_sample samples st = inr st' →
  data st' = foldl (λ d x, set_spo2 x.1 x.2 d) (data st) samples.
Proof.
  revert st. induction samples as [|x samples IH]; intros st.
  - by intros [= <-].
  - rewrite for_fold_cons.
    destruct (spo2_sample x st) as [err|st1] eqn:Hx; [done|].
    apply spo2_sample_data in Hx. intros Hrest%IH. by rewrite Hrest, Hx.
Qed.

Lemma bpm_samples_data samples d0 l0 :
  (foldl (λ acc x, bpm_sample x acc) (d0, l0) samples).1 =
    foldl (λ d x, set_bpm x.1 x.2 d) d0 samples.
Proof.
  revert d0 l0. induction samples as [|x samples IH]; intros d0 l0; [done|].
  simpl. unfold bpm_sample at 2. simpl. apply IH.
Qed.

Lemma align_data lib csv_files json_files timezone filtered d :
  align_spo2_data lib csv_files json_files timezone = inr (filtered, d) →
  d = foldl (λ d x, set_bpm x.1 x.2 d)
        (foldl (λ d x, set_spo2 x.1 x.2 d) ∅
           (spo2_samples lib csv_files timezone))
        (bpm_samples lib json_files timezone).
Proof.
  unfold align_spo2_data.
  destruct (for_fold spo2_sample _ _) as [err|st] eqn:Hfold; [done|].
  apply spo2_samples_data in Hfold. simpl in Hfold. red_result.
  destruct (close_sessions st) as [err|ss]; [done|]. red_result.
  rewrite <- Hfold.
  rewrite <- (bpm_samples_data _ (data st) None).
  destruct (foldl (λ acc sample, bpm_sample sample acc) _ _) as [d1 l1]. simpl.
  destruct (for_fold (retain l1) ss []) as [err|out]; [done|].
  by intros [= _ <-].
Qed.

Lemma align_index lib csv_files json_files timezone filtered d :
  align_spo2_data lib csv_files json_files timezone = inr (filtered, d) →
  ∀ t, d !! t =
         merged (latest t (spo2_samples lib csv_files timezone))
                (latest t (bpm_samples lib json_files timezone)).
Proof.
  intros -> %align_data t.
  rewrite set_bpm_fold_lookup, set_spo2_fold_lookup, lookup_empty.
  by destruct (latest t (spo2_samples _ _ _)), (latest t (bpm_samples _ _ _)).
Qed.

(** X3. The index returned by [align_spo2_data] has an entry exactly at
    the timestamps of the SpO2 samples kept by the reader and of the
    heart-rate entries; the entry holds the value of the last SpO2 sample
    and of the last heart-rate entry read at that timestamp, each field
    untouched by the other source. *)
Theorem index_lookup lib csv_files json_files timezone filtered d :
  align_spo2_data lib csv_files json_files timezone = inr (filtered, d) →
  ∀ t, d !! t =
         merged (latest t (spo2_samples lib csv_files timezone))
                (latest t (bpm_samples lib json_files timezone)).
Proof. apply align_index. Qed.

Lemma index_lookup_witness :
  night_data !! (t8 + 60) =
    merged (latest (t8 + 60) (spo2_samples utc (spo2_files night) "Europe/London"))
           (latest (t8 + 60) (bpm_samples utc (bpm_files night) "Europe/London")).
Proof.
  apply (index_lookup utc (spo2_files night) (bpm_files night)
           "Europe/London" night_sessions night_data).
  vm_compute. reflexivity.
Defined.

Lemma align_retained lib csv_files json_files timezone filtered d :
  align_spo2_data lib csv_files json_files timezone = inr (filtered, d) →
  ∀ s, s ∈ filtered →
    ∃ s0 s1 l v0 x0 v1 x1 y b,
      s = [s0; s1] ∧ s1 < l ∧
      d !! s0 = Some (Some v0, x0) ∧ d !! s1 = Some (Some v1, x1) ∧
      d !! l = Some (y, Some b).
Proof.
  intros Halign s Hs.
  pose proof (align_index _ _ _ _ _ _ Halign) as Hd.
  apply align_unfold in Halign as (ss & Hseg & Hret).
  destruct (last (bpm_samples lib json_files timezone)) as [[l b]|] eqn:Hlast.
  2:{ destruct (spo2_samples lib csv_files timezone) as [|x xs] eqn:Hxs.
      { by rewrite segment_empty in Hseg. }
      destruct (segment_spec (x :: xs)) as (rs & Hseg' & Hrs); [done|].
      rewrite Hseg' in Hseg. injection Hseg as <-.
      destruct rs as [|r rs]; [by destruct Hrs|].
      change (for_fold (retain None) (bounds r :: (bounds <$> rs)) []
                = inr filtered) in Hret.
      destruct (retain_no_bpm (bounds r) (bounds <$> rs) []) as [Herr|Herr];
        rewrite Hret in Herr; done. }
  change (for_fold (retain (Some l)) ss [] = inr filtered) in Hret.
  apply (retain_spec _ _ _ _ Hret) in Hs as [Hs|[Hs (e & He & Hlt)]].
  { by apply elem_of_nil in Hs. }
  destruct (spo2_samples lib csv_files timezone) as [|x xs] eqn:Hxs.
  { by rewrite segment_empty in Hseg. }
  destruct (segment_spec (x :: xs)) as (rs & Hseg' & Hcat & Hrne & _); [done|].
  rewrite Hseg' in Hseg. injection Hseg as <-.
  apply list_elem_of_fmap in Hs as (r & -> & Hr).
  eapply Forall_forall in Hrne; [|done].
  destruct r as [|a r]; [done|].
  destruct (last (a :: r)) as [z|] eqn:Hz; [|by apply last_None in Hz].
  rewrite (bounds_run _ a z) in He |- * by done. simplify_eq/=.
  assert (a ∈ (x :: xs).*1) as Ha.
  { change ((x :: xs).*1) with (x.1 :: xs.*1). rewrite <- Hcat.
    apply elem_of_concat. exists (a :: r). split; [left|done]. }
  assert (e ∈ (x :: xs).*1) as He.
  { change ((x :: xs).*1) with (x.1 :: xs.*1). rewrite <- Hcat.
    apply elem_of_concat. exists (a :: r).
    split; [by eapply last_Some_elem_of|done]. }
  apply latest_is_Some in Ha as [v0 Hv0], He as [v1 Hv1].
  assert (latest l (bpm_samples lib json_files timezone) = Some b) as Hb.
  { apply last_Some in Hlast as [l' ->]. by rewrite latest_snoc, decide_True. }
  exists a, e, l, v0, (latest a (bpm_samples lib json_files timezone)),
    v1, (latest e (bpm_samples lib json_files timezone)),
    (latest l (x :: xs)), b.
  rewrite !Hd, Hv0, Hv1, Hb. split_and!; [done..|].
  by destruct (latest l (x :: xs)).
Qed.

(** X4. Every session returned by [align_spo2_data] is [[start, end]]
    with an SpO2 value in the index at [start] and at [end], and the index
    has a heart-rate value at a timestamp later than [end]: the timestamp
    of the last heart-rate entry read. *)
Theorem retained_sessions_covered lib csv_files json_files timezone filtered d :
  align_spo2_data lib csv_files json_files timezone = inr (filtered, d) →
  ∀ s, s ∈ filtered →
    ∃ s0 s1 l v0 x0 v1 x1 y b,
      s = [s0; s1] ∧ s1 < l ∧
      d !! s0 = Some (Some v0, x0) ∧ d !! s1 = Some (Some v1, x1) ∧
      d !! l = Some (y, Some b).
Proof. apply align_retained. Qed.

Lemma retained_sessions_covered_witness :
  ∃ s0 s1 l v0 x0 v1 x1 y b,
    [t8; t8 + 60] = [s0; s1] ∧ s1 < l ∧
    night_data !! s0 = Some (Some v0, x0) ∧
    night_data !! s1 = Some (Some v1, x1) ∧
    night_data !! l = Some (y, Some b).
Proof.
  apply (retained_sessions_covered utc (spo2_files night) (bpm_files night)
           "Europe/London" night_sessions night_data).
  - vm_compute. reflexivity.
  - left.
Defined.

(** ** The chunker, step by step *)

Lemma emit_push t st s b :
  spo2 st = Some s → bpm st = Some b →
  ∃ st', emit t (seal_full st) = inr st' ∧
         (chunks st', chunk st') = push (chunks st, chunk st) (t, s, b) ∧
         spo2 st' = Some s ∧ bpm st' = Some b.
Proof.
  intros Hs Hb. unfold emit, seal_full, push. destruct st as [cs c s' b'].
  cbn [chunks chunk spo2 bpm fst snd] in *. subst.
  case_decide; cbn [chunks chunk spo2 bpm]; red_result; eauto.
Qed.

(** The [while] loop emits the grid [t, t + 4, ...] below [e], every record
    with the current values of [spo2] and [bpm]. *)
Lemma while_loop_records e t st t' st' :
  while_loop e t st = inr (t', st') →
  ∃ new,
    (chunks st', chunk st') = foldl push (chunks st, chunk st) new ∧
    spo2 st' = spo2 st ∧ bpm st' = bpm st ∧
    t' = t + 4 * len new ∧ e ≤ t' ∧ (t < e → new ≠ []) ∧
    (∀ (j : nat) r, new !! j = Some r →
       ts r = t + 4 * Z.of_nat j ∧ ts r < e ∧
       spo2 st = Some r.1.2 ∧ bpm st = Some r.2).
Proof.
  remember (Z.to_nat (e - t)) as n eqn:Hn.
  revert t st Hn. induction (lt_wf n) as [n _ IH]. intros t st Hn.
  rewrite while_loop_eq. case_decide as Hlt.
  - destruct (emit t (seal_full st)) as [err|st1] eqn:Hemit; simpl; [done|].
    intros Hloop.
    apply emit_seal_full in Hemit as (s & b & Hs0 & Hb0 & Hpush & Hs & Hb).
    eapply (IH (Z.to_nat (e - (t + 4)))) in Hloop as
      (new & Hacc & Hs' & Hb' & Ht' & Hexit & _ & Hnew); [|lia|done].
    exists ((t, s, b) :: new). simpl. rewrite <- Hpush. unfold len in *.
    split_and!; [done|congruence|congruence|simpl; lia|done|done|].
    intros [|j] r; simpl.
    + intros [= <-]. unfold ts; simpl. split_and!; [lia|done..].
    + intros Hr. apply Hnew in Hr as (? & ? & ? & ?).
      split_and!; [lia|done|congruence|congruence].
  - intros [= <- <-]. exists []. unfold len. simpl.
    split_and!; [done..|lia|lia|done|done].
Qed.

Lemma while_loop_returns e t st :
  is_Some (spo2 st) → is_Some (bpm st) →
  ∃ t' st', while_loop e t st = inr (t', st').
Proof.
  remember (Z.to_nat (e - t)) as n eqn:Hn.
  revert t st Hn. induction (lt_wf n) as [n _ IH]. intros t st Hn [s Hs] [b Hb].
  rewrite while_loop_eq. case_decide as Hlt; [|eauto].
  destruct (emit_push t st s b Hs Hb) as (st1 & -> & _ & Hs1 & Hb1). simpl.
  apply (IH (Z.to_nat (e - (t + 4)))); [lia|done|by rewrite Hs1|by rewrite Hb1].
Qed.

Lemma while_loop_unbound e t st :
  t < e →
  (spo2 st = None → while_loop e t st = inl (UnboundLocalError "spo2")) ∧
  (is_Some (spo2 st) → bpm st = None →
   while_loop e t st = inl (UnboundLocalError "bpm")).
Proof.
  intros Hlt. rewrite while_loop_eq, decide_True by done.
  unfold emit, seal_full. split.
  - intros Hs. by case_decide; cbn [spo2]; rewrite Hs.
  - intros [s Hs] Hb. by case_decide; cbn [spo2 bpm]; rewrite Hs, Hb.
Qed.

Lemma interval_eq sd s i last st cur nxt :
  sd !! i = Some cur → sd !! S i = Some nxt →
  interval sd s i (last, st) =
    let t0 := default cur.1 last in
    let st1 := Chunker (chunks st) (chunk st)
                 (observe cur.2.1 (spo2 st)) (observe cur.2.2 (bpm st)) in
    s0 ← index s 0;
    if decide (t0 < s0) then mret (last, st1) else
    s1 ← index s 1;
    if decide (t0 > s1) then mret (last, st1) else
    '(t', st') ← while_loop nxt.1 t0 st1;
    mret (Some t', st').
Proof.
  intros Hcur Hnxt. unfold interval, index.
  rewrite Hcur, Nat.add_1_r, Hnxt. by destruct last.
Qed.

Lemma interval_lookup sd s i acc acc' :
  interval sd s i acc = inr acc' →
  ∃ cur nxt, sd !! i = Some cur ∧ sd !! S i = Some nxt.
Proof.
  destruct acc as [last st]. unfold interval, index. rewrite Nat.add_1_r.
  destruct (sd !! i) as [cur|], (sd !! S i) as [nxt|]; eauto;
    by destruct last.
Qed.

Lemma interval_spec sd s i last st acc' :
  interval sd s i (last, st) = inr acc' →
  ∃ cur nxt new,
    sd !! i = Some cur ∧ sd !! S i = Some nxt ∧
    spo2 acc'.2 = observe cur.2.1 (spo2 st) ∧
    bpm acc'.2 = observe cur.2.2 (bpm st) ∧
    (chunks acc'.2, chunk acc'.2) = foldl push (chunks st, chunk st) new ∧
    (∀ (j : nat) r, new !! j = Some r →
       ts r = default cur.1 last + 4 * Z.of_nat j ∧ ts r < nxt.1 ∧
       spo2 acc'.2 = Some r.1.2 ∧ bpm acc'.2 = Some r.2) ∧
    (((∃ s0, s !! 0%nat = Some s0 ∧ default cur.1 last < s0) ∨
      (∃ s1, s !! 1%nat = Some s1 ∧ s1 < default cur.1 last)) ∧
     new = [] ∧ acc'.1 = last
     ∨
     (∃ s0 s1, s !! 0%nat = Some s0 ∧ s !! 1%nat = Some s1 ∧
               s0 ≤ default cur.1 last ≤ s1) ∧
     acc'.1 = Some (default cur.1 last + 4 * len new) ∧
     nxt.1 ≤ default cur.1 last + 4 * len new ∧
     (default cur.1 last < nxt.1 → new ≠ [])).
Proof.
  intros Hint.
  destruct (interval_lookup _ _ _ _ _ Hint) as (cur & nxt & Hcur & Hnxt).
  rewrite (interval_eq _ _ _ _ _ _ _ Hcur Hnxt) in Hint. cbn zeta in Hint.
  exists cur, nxt. set (t0 := default cur.1 last) in *.
  destruct (index s 0) as [err|s0] eqn:Hs0; [done|]. apply index_inr in Hs0.
  red_result. case_decide as Hlo.
  { injection Hint as <-. exists []. simpl.
    split_and!; [done..|]. left. split_and!; [|done..]. left. eauto. }
  destruct (index s 1) as [err|s1] eqn:Hs1; [done|]. apply index_inr in Hs1.
  red_result. case_decide as Hhi.
  { injection Hint as <-. exists []. simpl.
    split_and!; [done..|]. left. split_and!; [|done..]. right.
    exists s1. split; [done|lia]. }
  match type of Hint with context [while_loop ?e ?t ?st] =>
    destruct (while_loop e t st) as [err|[t' st']] eqn:Hloop end; [done|].
  injection Hint as <-.
  apply while_loop_records in Hloop
    as (new & Hpush & Hs & Hb & Ht' & Hexit & Hne & Hnew).
  simpl in *. exists new. split_and!; [done..| |].
  - intros j r Hr. destruct (Hnew j r Hr) as (? & ? & ? & ?).
    split_and!; [done|done|congruence|congruence].
  - right. split_and!; [|by rewrite Ht'|lia|done].
    exists s0, s1. split_and!; [done..|lia|lia].
Qed.

Lemma interval_returns sd s i last st cur nxt s0 s1 :
  sd !! i = Some cur → sd !! S i = Some nxt →
  s !! 0%nat = Some s0 → s !! 1%nat = Some s1 →
  (s0 ≤ default cur.1 last ≤ s1 → default cur.1 last < nxt.1 →
   is_Some (observe cur.2.1 (spo2 st)) ∧ is_Some (observe cur.2.2 (bpm st))) →
  ∃ acc', interval sd s i (last, st) = inr acc'.
Proof.
  intros Hcur Hnxt Hs0 Hs1 Hbound.
  rewrite (interval_eq _ _ _ _ _ _ _ Hcur Hnxt). cbn zeta.
  unfold index. rewrite Hs0, Hs1. red_result.
  case_decide; [eauto|]. case_decide; [eauto|].
  destruct (decide (default cur.1 last < nxt.1)) as [Hlt|Hge].
  - destruct Hbound as [Hs Hb]; [lia|done|].
    match goal with |- context [while_loop ?e ?t ?st] =>
      destruct (while_loop_returns e t st) as (t' & st' & ->) end; eauto.
  - rewrite while_loop_eq, decide_False by done. eauto.
Qed.

Lemma interval_unbound_bpm sd s i st cur nxt s0 s1 :
  sd !! i = Some cur → sd !! S i = Some nxt →
  s !! 0%nat = Some s0 → s !! 1%nat = Some s1 →
  s0 ≤ cur.1 ≤ s1 → cur.1 < nxt.1 →
  is_Some (observe cur.2.1 (spo2 st)) → observe cur.2.2 (bpm st) = None →
  interval sd s i (None, st) = inl (UnboundLocalError "bpm").
Proof.
  intros Hcur Hnxt Hs0 Hs1 Hin Hlt Hs Hb.
  rewrite (interval_eq _ _ _ _ _ _ _ Hcur Hnxt). cbn zeta.
  unfold index. rewrite Hs0, Hs1. red_result.
  rewrite !decide_False by lia.
  match goal with |- context [while_loop ?e ?t ?st] =>
    destruct (while_loop_unbound e t st Hlt) as [_ ->] end; done.
Qed.

(** ** Values carried forward *)

Lemma observed_snoc f entries x :
  observed f (entries ++ [x]) = observe (f x.2) (observed f entries).
Proof.
  unfold observed. rewrite omap_app. simpl.
  destruct (f x.2) as [v|]; simpl.
  - by rewrite last_snoc.
  - by rewrite app_nil_r.
Qed.

Lemma observed_take_S f sd i cur :
  sd !! i = Some cur →
  observed f (take (S i) sd) = observe (f cur.2) (observed f (take i sd)).
Proof. intros Hcur. by rewrite (take_S_r _ _ _ Hcur), observed_snoc. Qed.

Lemma observe_carried value var carried v :
  (∀ w, carried = Some w → var = Some w) →
  observe value carried = Some v → observe value var = Some v.
Proof. destruct value; simpl; [done|]. intros H. apply H. Qed.

Lemma interval_values sd s cs0 c0 i rs acc acc' :
  values_inv sd s cs0 c0 i rs acc →
  interval sd s i acc = inr acc' →
  ∃ more, values_inv sd s cs0 c0 (S i) (rs ++ more) acc'.
Proof.
  destruct acc as [last st].
  intros (Hacc & Hspo2 & Hbpm & Hbound & Hin) Hint. simpl in *.
  apply interval_spec in Hint
    as (cur & nxt & new & Hcur & Hnxt & Hs & Hb & Hpush & Hnew & Hcase).
  assert (∀ v, observed fst (take (S i) sd) = Some v → spo2 acc'.2 = Some v)
    as Hspo2'.
  { intros v. rewrite (observed_take_S _ _ _ _ Hcur), Hs.
    by apply observe_carried. }
  assert (∀ v, observed snd (take (S i) sd) = Some v → bpm acc'.2 = Some v)
    as Hbpm'.
  { intros v. rewrite (observed_take_S _ _ _ _ Hcur), Hb.
    by apply observe_carried. }
  exists new. split_and!; simpl; [|done|done| |].
  - by rewrite foldl_app, <- Hacc.
  - intros t Ht.
    destruct Hcase as [(Hskip & _ & Hlast)|((s0 & s1 & Hs0 & Hs1 & Hin0) & Hlast & Hexit & _)].
    + rewrite Hlast in Ht. destruct (Hbound t Ht) as (s0 & s1 & Hs0 & Hs1 & Hge & _).
      rewrite Ht in Hskip. simpl in Hskip. exists s0, s1. split_and!; [done..|].
      left. destruct Hskip as [(s0' & ? & ?)|(s1' & ? & ?)]; simplify_eq/=; lia.
    + rewrite Hlast in Ht. injection Ht as <-.
      exists s0, s1. split_and!; [done|done|unfold len; lia|].
      right. intros c Hc. by simplify_eq/=.
  - apply Forall_app. split; [done|].
    apply Forall_lookup. intros j r Hr.
    destruct (Hnew j r Hr) as (Hts & Hlt & Hrs & Hrb).
    destruct Hcase as [(_ & -> & _)|((s0 & s1 & Hs0 & Hs1 & Hin0) & _)]; [done|].
    exists i, cur, nxt. split_and!; [done|done| |done| |].
    + destruct last as [t|]; simpl in *; [|lia].
      destruct (Hbound t eq_refl) as (? & s1' & ? & ? & ? & [?|Hc]);
        simplify_eq/=; [lia|]. specialize (Hc _ Hcur). lia.
    + intros v Hv. apply Hspo2' in Hv. congruence.
    + intros v Hv. apply Hbpm' in Hv. congruence.
Qed.

Lemma intervals_values sd s cs0 c0 n i rs acc acc' :
  values_inv sd s cs0 c0 i rs acc →
  for_fold (interval sd s) (seq i n) acc = inr acc' →
  ∃ more, values_inv sd s cs0 c0 (i + n) (rs ++ more) acc'.
Proof.
  revert i rs acc. induction n as [|n IH]; intros i rs acc Hinv.
  - intros [= <-]. exists []. by rewrite Nat.add_0_r, app_nil_r.
  - cbn [seq]. rewrite for_fold_cons.
    destruct (interval sd s i acc) as [err|acc1] eqn:Hstep; [done|].
    intros Hrest. red_result.
    eapply interval_values in Hstep as [more1 Hinv1]; [|done].
    eapply IH in Hrest as [more Hinv']; [|done].
    exists (more1 ++ more). rewrite app_assoc.
    by replace (i + S n)%nat with (S i + n)%nat by lia.
Qed.

Lemma walk_session_values sd s st st' :
  chunk st = [] →
  walk_session sd s st = inr st' →
  ∃ rs, chunks st' = chunks st ++ chop rs ∧ Forall (carried_in sd) rs.
Proof.
  intros Hempty. unfold walk_session.
  destruct (for_fold _ _ _) as [err|[last st1]] eqn:Hfold; simpl; [done|].
  intros [= <-].
  eapply (intervals_values sd s (chunks st) [] _ 0 []) in Hfold as [rs Hinv].
  2:{ split_and!; simpl; [by rewrite Hempty|done..]. }
  destruct Hinv as (Hacc & _ & _ & _ & Hin). simpl in Hacc, Hin.
  exists rs. split; [|done].
  rewrite <- (app_nil_r (chunks st)), foldl_push_prefix in Hacc.
  injection Hacc as Hcs Hc.
  unfold seal_nonempty, chop. rewrite Hc. simpl.
  destruct (foldl push ([], []) rs).2; simpl.
  + by rewrite Hcs, app_nil_r.
  + by rewrite Hcs, app_assoc.
Qed.

Lemma sorted_items_NoDup data : NoDup (sorted_items data).*1.
Proof.
  unfold sorted_items. rewrite merge_sort_Permutation.
  apply NoDup_fst_map_to_list.
Qed.

(** The timestamps of the sorted index increase strictly. *)
Lemma sorted_items_lt data i j x y :
  (i < j)%nat → sorted_items data !! i = Some x →
  sorted_items data !! j = Some y → x.1 < y.1.
Proof.
  intros Hij Hx Hy.
  assert (key_le x y) as Hle.
  { eapply (StronglySorted_lookup_le _ i j); [apply sorted_items_sorted|lia|done..]. }
  unfold key_le in Hle.
  assert (x.1 ≠ y.1); [|lia]. intros Heq.
  assert (i = j); [|lia].
  eapply (NoDup_lookup _ i j x.1); [apply sorted_items_NoDup|..].
  - by rewrite list_lookup_fmap, Hx.
  - by rewrite list_lookup_fmap, Hy, Heq.
Qed.

Lemma filter_all {A} (P : A → Prop) `{∀ x, Decision (P x)} (l : list A) :
  Forall P l → filter P l = l.
Proof.
  induction 1 as [|x l Hx _ IH]; [done|].
  by rewrite filter_cons, decide_True, IH.
Qed.

Lemma filter_none {A} (P : A → Prop) `{∀ x, Decision (P x)} (l : list A) :
  Forall (λ x, ¬ P x) l → filter P l = [].
Proof.
  induction 1 as [|x l Hx _ IH]; [done|].
  by rewrite filter_cons, decide_False, IH.
Qed.

Lemma up_to_take data i cur nxt t :
  sorted_items data !! i = Some cur → sorted_items data !! S i = Some nxt →
  cur.1 ≤ t < nxt.1 →
  up_to t (sorted_items data) = take (S i) (sorted_items data).
Proof.
  intros Hcur Hnxt Ht. unfold up_to.
  rewrite <- (take_drop (S i) (sorted_items data)) at 1.
  rewrite filter_app, filter_all, filter_none, app_nil_r; [done| |].
  - apply Forall_lookup. intros j y Hy. rewrite lookup_drop in Hy.
    destruct j as [|j].
    + rewrite Nat.add_0_r in Hy. simplify_eq/=. lia.
    + assert (nxt.1 < y.1); [|lia].
      eapply (sorted_items_lt _ (S i) (S i + S j)); [lia|done..].
  - apply Forall_lookup. intros j y Hy.
    apply lookup_take_Some in Hy as [Hy Hj].
    destruct (decide (j = i)) as [->|Hne]; [simplify_eq/=; lia|].
    assert (y.1 < cur.1); [|lia].
    eapply (sorted_items_lt _ j i); [lia|done..].
Qed.

(** X5. A record returned by [divide_data_to_viatom_chunks] carries the
    value of the last SpO2 entry and of the last heart-rate entry of the
    index at or before the record's timestamp, whenever the index has such
    an entry. *)
Theorem records_carry_latest sessions data out :
  divide_data_to_viatom_chunks sessions data = inr out →
  ∀ c r, c ∈ out → r ∈ c →
    (∀ v, observed fst (up_to (ts r) (sorted_items data)) = Some v → r.1.2 = v) ∧
    (∀ v, observed snd (up_to (ts r) (sorted_items data)) = Some v → r.2 = v).
Proof.
  intros (per & -> & Hper)%divide_decompose c r Hc Hr.
  apply elem_of_concat in Hc as (cs & Hc & Hcs).
  apply list_elem_of_lookup in Hcs as [j Hj].
  destruct (Forall2_lookup_r _ _ _ _ _ Hper Hj)
    as (s & _ & st & st' & Hempty & Hwalk & _ & Hchunks).
  apply walk_session_values in Hwalk as (rs & Hchunks' & Hin); [|done].
  rewrite Hchunks in Hchunks'. apply app_inv_head in Hchunks' as ->.
  assert (r ∈ rs) as Hrs.
  { rewrite <- (chop_concat rs). apply elem_of_concat. eauto. }
  eapply Forall_forall in Hin as (i & cur & nxt & Hcur & Hnxt & Hts & Hv1 & Hv2);
    [|done].
  by rewrite (up_to_take _ _ _ _ _ Hcur Hnxt Hts).
Qed.

Lemma records_carry_latest_witness :
  (∀ v, observed fst (up_to (ts (t8 + 60, 96, 61)) (sorted_items night_data))
          = Some v → (t8 + 60, 96, 61).1.2 = v) ∧
  (∀ v, observed snd (up_to (ts (t8 + 60, 96, 61)) (sorted_items night_data))
          = Some v → (t8 + 60, 96, 61).2 = v).
Proof.
  apply (records_carry_latest night_sessions night_data night_chunks
           ltac:(vm_compute; reflexivity) night_chunk).
  - vm_compute. left.
  - vm_compute. do 15 right. left.
Defined.

(** ** When the chunker returns and when it raises *)

Lemma for_fold_app {A S} (body : A → S → result S) l1 l2 acc :
  for_fold body (l1 ++ l2) acc = for_fold body l1 acc ≫= for_fold body l2.
Proof.
  revert acc. induction l1 as [|x l1 IH]; intros acc; [done|].
  simpl. destruct (body x acc); [done|]. red_result. apply IH.
Qed.

Lemma observe_observe a b c : observe a (observe b c) = observe (observe a b) c.
Proof. by destruct a, b. Qed.

Lemma observe_is_Some a b c :
  is_Some (observe a b) → (is_Some b → is_Some c) → is_Some (observe a c).
Proof. destruct a; simpl; eauto. Qed.

Lemma observed_is_Some f (sd : list item) n j y :
  sd !! j = Some y → (j < n)%nat → is_Some (f y.2) →
  is_Some (observed f (take n sd)).
Proof.
  intros Hy Hj [v Hv]. unfold observed. apply last_is_Some.
  intros Hnil. assert (v ∈ omap (λ x : item, f x.2) (take n sd)) as Hin.
  { apply list_elem_of_omap. exists y. split; [|done].
    apply elem_of_take. eauto. }
  rewrite Hnil in Hin. by apply elem_of_nil in Hin.
Qed.

Lemma observed_None f (entries : list item) :
  Forall (λ x : item, f x.2 = None) entries → observed f entries = None.
Proof.
  intros Hall. unfold observed.
  induction Hall as [|x l Hx _ IH]; [done|]. simpl. by rewrite Hx.
Qed.

(** The entries before the session start are skipped: nothing is emitted
    and the locals take the values observed on the way. *)
Lemma skip_before sd s s0 j st :
  s !! 0%nat = Some s0 → (j < length sd)%nat →
  (∀ i x, (i < j)%nat → sd !! i = Some x → x.1 < s0) →
  for_fold (interval sd s) (seq 0 j) (None, st) =
    inr (None, Chunker (chunks st) (chunk st)
                 (observe (observed fst (take j sd)) (spo2 st))
                 (observe (observed snd (take j sd)) (bpm st))).
Proof.
  intros Hs0. induction j as [|j IH]; intros Hj Hbefore.
  - simpl. by destruct st.
  - rewrite seq_S, for_fold_app, IH by (eauto with lia).
    destruct (lookup_lt_is_Some_2 sd j) as [cur Hcur]; [lia|].
    destruct (lookup_lt_is_Some_2 sd (S j)) as [nxt Hnxt]; [lia|].
    cbn [mbind result_bind plus]. rewrite for_fold_cons.
    rewrite (interval_eq _ _ _ _ _ _ _ Hcur Hnxt). cbn zeta.
    unfold index. rewrite Hs0. red_result.
    rewrite decide_True by eauto.
    by rewrite !(observed_take_S _ _ _ _ Hcur), !observe_observe.
Qed.

Lemma intervals_extend sd s l acc acc' :
  for_fold (interval sd s) l acc = inr acc' →
  ∃ more, (chunks acc'.2, chunk acc'.2) =
            foldl push (chunks acc.2, chunk acc.2) more.
Proof.
  revert acc. induction l as [|i l IH]; intros [last st].
  - intros [= <-]. by exists [].
  - rewrite for_fold_cons.
    destruct (interval sd s i (last, st)) as [err|acc1] eqn:Hstep; [done|].
    red_result. intros (more & Hmore)%IH.
    apply interval_spec in Hstep as (_ & _ & new & _ & _ & _ & _ & Hnew & _).
    exists (new ++ more). by rewrite foldl_app, <- Hnew.
Qed.

Lemma seal_chop st cs0 rs :
  (chunks st, chunk st) = foldl push (cs0, []) rs →
  chunks (seal_nonempty st) = cs0 ++ chop rs.
Proof.
  intros Hacc.
  rewrite <- (app_nil_r cs0), foldl_push_prefix in Hacc.
  injection Hacc as Hcs Hc.
  unfold seal_nonempty, chop. rewrite Hc. simpl.
  destruct (foldl push ([], []) rs).2; simpl.
  + by rewrite Hcs, app_nil_r.
  + by rewrite Hcs, app_assoc.
Qed.

Lemma chop_head r rs : ∃ c, head (chop (r :: rs)) = Some c ∧ head c = Some r.
Proof.
  pose proof (chop_concat (r :: rs)) as Hcat.
  pose proof (chop_cap (r :: rs)) as Hcap.
  destruct (chop (r :: rs)) as [|c cs]; [done|].
  apply Forall_cons in Hcap as [Hc _]. exists c. split; [done|].
  destruct c as [|r' c]; [unfold len in Hc; simpl in Hc; lia|].
  simpl in Hcat. by injection Hcat as ->.
Qed.

Lemma sorted_items_index data k e :
  data !! k = Some e → ∃ j, sorted_items data !! j = Some (k, e).
Proof. intros Hk. by apply list_elem_of_lookup, elem_of_sorted_items. Qed.

(** The position of the session start in the index, with a later entry
    after it and earlier timestamps before it. *)
Lemma session_start_index data s0 e :
  data !! s0 = Some e → (∃ k, is_Some (data !! k) ∧ s0 < k) →
  ∃ j nxt, sorted_items data !! j = Some (s0, e) ∧
           sorted_items data !! S j = Some nxt ∧ s0 < nxt.1 ∧
           (S j < length (sorted_items data))%nat ∧
           ∀ i x, (i < j)%nat → sorted_items data !! i = Some x → x.1 < s0.
Proof.
  intros (j & Hj)%sorted_items_index (k & [e' (j' & Hj')%sorted_items_index] & Hlt).
  assert (j < j')%nat as Hjj'.
  { destruct (decide (j < j')%nat); [done|].
    destruct (decide (j = j')) as [->|]; [simplify_eq/=; lia|].
    pose proof (sorted_items_lt data j' j _ _ ltac:(lia) Hj' Hj). simpl in *. lia. }
  apply lookup_lt_Some in Hj' as Hlen.
  destruct (lookup_lt_is_Some_2 (sorted_items data) (S j)) as [nxt Hnxt]; [lia|].
  exists j, nxt. split_and!; [done|done| |lia|].
  - by apply (sorted_items_lt data j (S j) _ _ ltac:(lia) Hj Hnxt).
  - intros i x Hi Hx. by apply (sorted_items_lt data i j _ _ Hi Hx Hj).
Qed.

Lemma seq_split_at (j n : nat) :
  (j < n)%nat → seq 0 n = seq 0 j ++ j :: seq (S j) (n - S j).
Proof.
  intros Hj. replace n with (j + S (n - S j))%nat at 1 by lia.
  by rewrite seq_app.
Qed.

Lemma walk_session_first data s0 s1 e st st' :
  s0 ≤ s1 → data !! s0 = Some e → (∃ k, is_Some (data !! k) ∧ s0 < k) →
  chunk st = [] →
  walk_session (sorted_items data) [s0; s1] st = inr st' →
  ∃ r rs, chunks st' = chunks st ++ chop (r :: rs) ∧ ts r = s0.
Proof.
  intros Hle He Hlater Hempty.
  destruct (session_start_index _ _ _ He Hlater)
    as (j & nxt & Hj & Hnxt & Hlt & Hlen & Hbefore).
  unfold walk_session.
  rewrite (seq_split_at j) by lia.
  rewrite for_fold_app, (skip_before _ _ s0) by (done || lia).
  cbn [mbind result_bind]. rewrite for_fold_cons.
  match goal with |- context [interval ?sd ?s ?i (?l, ?st0)] =>
    destruct (interval sd s i (l, st0)) as [err|acc1] eqn:Hstep end; [done|].
  cbn [mbind result_bind].
  destruct (for_fold _ _ acc1) as [err|[last st2]] eqn:Hrest; [done|].
  cbn [mret result_ret]. intros [= <-].
  apply intervals_extend in Hrest as (more & Hmore).
  apply interval_spec in Hstep
    as (cur & nxt' & new & Hcur & Hnxt' & _ & _ & Hpush & Hnew & Hcase).
  simplify_eq/=.
  destruct Hcase as [([(s0' & ? & ?)|(s1' & ? & ?)] & _)|(_ & _ & _ & Hne)];
    [simplify_eq/=; lia..|].
  destruct new as [|r new]; [by destruct Hne|].
  destruct (Hnew 0%nat r eq_refl) as (Hts & _).
  exists r, (new ++ more). split; [|lia].
  apply seal_chop. rewrite Hmore, Hpush, Hempty.
  change (r :: new ++ more) with ((r :: new) ++ more).
  by rewrite foldl_app.
Qed.

(** X6. When a session [[start, end]] with [start ≤ end] begins at a
    timestamp of the index that is not the greatest one, the chunks it
    leaves are not empty and their first record is at [start]. *)
Theorem sessions_begin_at_start sessions data out :
  divide_data_to_viatom_chunks sessions data = inr out →
  ∃ per, out = concat per ∧
    Forall2 (λ s cs, session_output (sorted_items data) s cs ∧
               ∀ s0 s1, s = [s0; s1] → s0 ≤ s1 → is_Some (data !! s0) →
                 (∃ k, is_Some (data !! k) ∧ s0 < k) →
                 ∃ c r, head cs = Some c ∧ head c = Some r ∧ ts r = s0)
            sessions per.
Proof.
  intros (per & -> & Hper)%divide_decompose.
  exists per. split; [done|].
  eapply Forall2_impl; [done|]. intros s cs Hout. split; [done|].
  intros s0 s1 -> Hle [e He] Hlater.
  destruct Hout as (st & st' & Hempty & Hwalk & _ & Hcs).
  destruct (walk_session_first _ _ _ _ _ _ Hle He Hlater Hempty Hwalk)
    as (r & rs & Hcs' & Hts).
  rewrite Hcs in Hcs'. apply app_inv_head in Hcs' as ->.
  destruct (chop_head r rs) as (c & Hc & Hr). eauto.
Qed.

Lemma sessions_begin_at_start_witness :
  ∃ per, night_chunks = concat per ∧
    Forall2 (λ s cs, session_output (sorted_items night_data) s cs ∧
               ∀ s0 s1, s = [s0; s1] → s0 ≤ s1 → is_Some (night_data !! s0) →
                 (∃ k, is_Some (night_data !! k) ∧ s0 < k) →
                 ∃ c r, head cs = Some c ∧ head c = Some r ∧ ts r = s0)
            night_sessions per.
Proof.
  apply (sessions_begin_at_start night_sessions night_data night_chunks).
  vm_compute. reflexivity.
Defined.

Lemma walk_session_unbound_bpm data s0 s1 v st :
  s0 ≤ s1 →
  data !! s0 = Some (Some v, None) →
  (∀ k y b, data !! k = Some (y, Some b) → s0 < k) →
  (∃ k, is_Some (data !! k) ∧ s0 < k) →
  bpm st = None →
  walk_session (sorted_items data) [s0; s1] st = inl (UnboundLocalError "bpm").
Proof.
  intros Hle He Hnone Hlater Hst.
  destruct (session_start_index _ _ _ He Hlater)
    as (j & nxt & Hj & Hnxt & Hlt & Hlen & Hbefore).
  unfold walk_session.
  rewrite (seq_split_at j) by lia.
  rewrite for_fold_app, (skip_before _ _ s0) by (done || lia).
  cbn [mbind result_bind]. rewrite for_fold_cons.
  rewrite (interval_unbound_bpm _ _ _ _ _ _ s0 s1 Hj Hnxt); [done..| |].
  - by cbn [spo2 fst snd].
  - cbn [bpm fst snd observe]. rewrite Hst, observed_None; [done|].
    apply Forall_lookup. intros i [k [y [b|]]] Hx; [|done].
    apply lookup_take_Some in Hx as [Hx Hi].
    specialize (Hbefore _ _ Hi Hx). simpl in Hbefore.
    assert (data !! k = Some (y, Some b)) as Hk.
    { apply elem_of_sorted_items. by eapply list_elem_of_lookup_2. }
    apply Hnone in Hk. lia.
Qed.

(** X7. When the first session is [[start, end]] with [start ≤ end],
    [start] is an index timestamp that has an SpO2 value and is not the
    greatest timestamp, and no index entry at or before [start] has a
    heart-rate value, the chunker raises [UnboundLocalError] for [bpm] at
    the first record. *)
Theorem divide_unbound_bpm s0 s1 v rest data :
  s0 ≤ s1 →
  data !! s0 = Some (Some v, None) →
  (∀ k y b, data !! k = Some (y, Some b) → s0 < k) →
  (∃ k, is_Some (data !! k) ∧ s0 < k) →
  divide_data_to_viatom_chunks ([s0; s1] :: rest) data
    = inl (UnboundLocalError "bpm").
Proof.
  intros Hle He Hnone Hlater.
  unfold divide_data_to_viatom_chunks.
  by rewrite for_fold_cons, (walk_session_unbound_bpm _ _ _ v).
Qed.

Lemma divide_unbound_bpm_witness :
  divide_data_to_viatom_chunks late_bpm_sessions late_bpm_data
    = inl (UnboundLocalError "bpm").
Proof.
  apply (divide_unbound_bpm t8 (t8 + 60) 95 [] late_bpm_data).
  - lia.
  - vm_compute. reflexivity.
  - intros k y b Hk.
    assert ((k, (y, Some b)) ∈ map_to_list late_bpm_data) as Hin
      by by apply elem_of_map_to_list.
    vm_compute in Hin.
    repeat (apply elem_of_cons in Hin as [Hin|Hin];
            [simplify_eq/=; unfold t8; lia|]).
    by apply elem_of_nil in Hin.
  - exists (t8 + 30). split; [|lia]. vm_compute. eauto.
Defined.

Lemma interval_total data s0 s1 v x i acc :
  data !! s0 = Some (Some v, x) →
  (∀ y, sorted_items data !! 0%nat = Some y → is_Some y.2.2) →
  (S i < length (sorted_items data))%nat →
  bound_inv (sorted_items data) i acc →
  ∃ acc', interval (sorted_items data) [s0; s1] i acc = inr acc' ∧
          bound_inv (sorted_items data) (S i) acc'.
Proof.
  set (sd := sorted_items data).
  intros (j0 & Hj0)%sorted_items_index Hfirst Hlen (Hspo2 & Hbpm & Hlast).
  fold sd in Hj0.
  destruct acc as [last st]. simpl in *.
  destruct (lookup_lt_is_Some_2 sd i) as [cur Hcur]; [lia|].
  destruct (lookup_lt_is_Some_2 sd (S i)) as [nxt Hnxt]; [lia|].
  destruct (lookup_lt_is_Some_2 sd 0) as [y0 Hy0]; [lia|].
  assert (cur.1 < nxt.1) as Hlt
    by by apply (sorted_items_lt data i (S i) _ _ ltac:(lia) Hcur Hnxt).
  assert (is_Some (observed fst (take (S i) sd)) →
          is_Some (observe cur.2.1 (spo2 st))) as Hspo2'.
  { rewrite (observed_take_S _ _ _ _ Hcur). intros H.
    by eapply observe_is_Some. }
  assert (is_Some (observed snd (take (S i) sd)) →
          is_Some (observe cur.2.2 (bpm st))) as Hbpm'.
  { rewrite (observed_take_S _ _ _ _ Hcur). intros H.
    by eapply observe_is_Some. }
  assert (is_Some (observed snd (take (S i) sd))) as Hb0.
  { eapply (observed_is_Some snd sd (S i) 0 y0); [done|lia|by apply Hfirst]. }
  destruct (interval_returns sd [s0; s1] i last st cur nxt s0 s1)
    as [acc' Hint]; [done..| |].
  { intros Hin _. destruct last as [t|]; simpl in *.
    - destruct Hlast as [Hs Hb]; [done|]. split.
      + destruct (cur.2.1); simpl; eauto.
      + destruct (cur.2.2); simpl; eauto.
    - split; [|by apply Hbpm'].
      apply Hspo2'. eapply (observed_is_Some fst sd (S i) j0); [done| |done].
      destruct (decide (j0 < S i)%nat); [done|].
      pose proof (sorted_items_lt data i j0 _ _ ltac:(lia) Hcur Hj0).
      simpl in *. lia. }
  exists acc'. split; [done|].
  apply interval_spec in Hint
    as (cur' & nxt' & new & ? & ? & Hs & Hb & _ & Hnew & Hcase).
  simplify_eq/=. split_and!.
  - rewrite Hs. done.
  - rewrite Hb. done.
  - rewrite Hs, Hb. intros Hsome.
    destruct last as [t|].
    + destruct Hlast as [Hs' Hb']; [done|]. split.
      * destruct (cur.2.1); simpl; eauto.
      * destruct (cur.2.2); simpl; eauto.
    + destruct Hcase as [(_ & _ & Heq)|(_ & _ & _ & Hne)].
      { rewrite Heq in Hsome. by destruct Hsome. }
      simpl in Hne. destruct new as [|r new]; [by destruct Hne|].
      destruct (Hnew 0%nat r eq_refl) as (_ & _ & Hrs & Hrb).
      rewrite <- Hs, <- Hb, Hrs, Hrb. eauto.
Qed.

Lemma intervals_total data s0 s1 v x n i acc :
  data !! s0 = Some (Some v, x) →
  (∀ y, sorted_items data !! 0%nat = Some y → is_Some y.2.2) →
  (i + n < length (sorted_items data))%nat →
  bound_inv (sorted_items data) i acc →
  ∃ acc', for_fold (interval (sorted_items data) [s0; s1]) (seq i n) acc
            = inr acc'.
Proof.
  intros Hs0 Hfirst. revert i acc.
  induction n as [|n IH]; intros i acc Hlen Hinv; [by eexists|].
  cbn [seq]. rewrite for_fold_cons.
  destruct (interval_total data s0 s1 v x i acc) as (acc1 & -> & Hinv1);
    [done|done|lia|done|].
  cbn [mbind result_bind]. apply IH; [lia|done].
Qed.

Lemma walk_session_total data s0 s1 v x st :
  data !! s0 = Some (Some v, x) →
  (∀ y, sorted_items data !! 0%nat = Some y → is_Some y.2.2) →
  ∃ st', walk_session (sorted_items data) [s0; s1] st = inr st'.
Proof.
  intros Hs0 Hfirst. unfold walk_session.
  destruct (intervals_total data s0 s1 v x
              (length (sorted_items data) - 1) 0 (None, st))
    as ([last st1] & ->); [done|done| | |by eexists].
  2:{ unfold bound_inv, observed. simpl.
      split_and!; intros [? [=]]. }
  assert (length (sorted_items data) ≠ 0%nat); [|lia].
  rewrite length_sorted_items. intros Hsize%map_size_empty_inv.
  by rewrite Hsize in Hs0.
Qed.

Lemma divide_total sessions data :
  (∀ s, s ∈ sessions →
     ∃ s0 s1 v x, s = [s0; s1] ∧ data !! s0 = Some (Some v, x)) →
  (∀ k0 e, data !! k0 = Some e → (∀ k, is_Some (data !! k) → k0 ≤ k) →
           is_Some e.2) →
  ∃ out, divide_data_to_viatom_chunks sessions data = inr out.
Proof.
  intros Hsessions Hearliest.
  assert (∀ y, sorted_items data !! 0%nat = Some y → is_Some y.2.2) as Hfirst.
  { intros [k0 e] Hy. apply (Hearliest k0).
    - apply elem_of_sorted_items. by eapply list_elem_of_lookup_2.
    - intros k [e' (j & Hj)%sorted_items_index].
      pose proof (sorted_items_sorted data) as Hsorted.
      apply (StronglySorted_lookup_le _ 0 j _ _ Hsorted ltac:(lia) Hy Hj). }
  unfold divide_data_to_viatom_chunks.
  assert (∀ st, ∃ st', for_fold (walk_session (sorted_items data)) sessions st
                         = inr st') as Hall.
  { induction sessions as [|s sessions IH]; intros st; [by eexists|].
    destruct (Hsessions s) as (s0 & s1 & v & x & -> & Hs0); [left|].
    rewrite for_fold_cons.
    destruct (walk_session_total data s0 s1 v x st Hs0 Hfirst) as [st1 ->].
    cbn [mbind result_bind]. apply IH. intros s Hs. apply Hsessions. by right. }
  destruct (Hall (Chunker [] [] None None)) as [st' ->]. by eexists.
Qed.

(** X8. The chunker returns, without [UnboundLocalError] or
    [IndexError], whenever every session is [[start, end]] with an SpO2
    value in the index at [start] and the earliest entry of the index has a
    heart-rate value. *)
Theorem divide_returns sessions data :
  (∀ s, s ∈ sessions →
     ∃ s0 s1 v x, s = [s0; s1] ∧ data !! s0 = Some (Some v, x)) →
  (∀ k0 e, data !! k0 = Some e → (∀ k, is_Some (data !! k) → k0 ≤ k) →
           is_Some e.2) →
  ∃ out, divide_data_to_viatom_chunks sessions data = inr out.
Proof. apply divide_total. Qed.

Lemma divide_returns_witness :
  ∃ out, divide_data_to_viatom_chunks night_sessions night_data = inr out.
Proof.
  apply (divide_returns night_sessions night_data).
  - intros s Hs. apply list_elem_of_singleton in Hs as ->.
    exists t8, (t8 + 60), 95, (Some 60). split; [done|]. vm_compute. reflexivity.
  - intros k0 e Hk0 Hmin.
    assert (k0 ≤ t8) as Hle
      by (apply Hmin; rewrite is_Some_alt; vm_compute; exact I).
    assert ((k0, e) ∈ map_to_list night_data) as Hin
      by by apply elem_of_map_to_list.
    vm_compute in Hin.
    repeat (apply elem_of_cons in Hin as [Hin|Hin];
            [simplify_eq/=;
             first [by rewrite is_Some_alt | unfold t8 in *; lia]|]).
    by apply elem_of_nil in Hin.
Defined.

(** ** Which files the writer touches, and how it fails *)

Lemma touches_bind {A B} P (m : IO A) (f : A → IO B) :
  touches_only P m → (∀ x, touches_only P (f x)) → touches_only P (m ≫= f).
Proof.
  intros Hm Hf w n Hn. specialize (Hm w n Hn).
  unfold mbind, IO_bind. destruct (m w) as [[e|x] w1]; [done|].
  rewrite Hf by done. done.
Qed.

Lemma touches_pure {A} P (r : result A) : touches_only P (lift r).
Proof. done. Qed.

Lemma touches_ret {A} P (x : A) : touches_only P (mret x).
Proof. done. Qed.

Lemma touches_raise {A} P e : touches_only P (@raise A e).
Proof. done. Qed.

Lemma touches_print P line : touches_only P (print line).
Proof. done. Qed.

Lemma touches_open (P : string → Prop) name : P name → touches_only P (open_wb name).
Proof.
  intros HP w n Hn. simpl. apply lookup_insert_ne. by intros ->.
Qed.

Lemma touches_write (P : string → Prop) name bytes :
  P name → touches_only P (f_write name bytes).
Proof.
  intros HP w n Hn. simpl. apply lookup_insert_ne. by intros ->.
Qed.

Lemma touches_for_each {A} P (body : A → IO unit) l :
  (∀ x, x ∈ l → touches_only P (body x)) → touches_only P (for_each body l).
Proof.
  induction l as [|x l IH]; intros Hbody; [done|].
  change (for_each body (x :: l)) with (body x ≫= λ _, for_each body l).
  apply touches_bind; [apply Hbody; left|].
  intros _. apply IH. intros y Hy. apply Hbody. by right.
Qed.

Lemma touches_mono {A} (P P' : string → Prop) (m : IO A) :
  (∀ n, P n → P' n) → touches_only P m → touches_only P' m.
Proof. intros HP Hm w n Hn. apply Hm. auto. Qed.

Lemma bind_lift_inr {A B} (x : A) (f : A → IO B) : lift (inr x) ≫= f = f x.
Proof. done. Qed.

Ltac touches :=
  repeat first
    [ lazymatch goal with |- touches_only _ (for_each _ _) => idtac end;
      apply touches_for_each; intros ? ?
    | apply touches_pure | apply touches_ret | apply touches_raise
    | apply touches_print
    | apply touches_open; done | apply touches_write; done
    | apply touches_bind; [|intros ?] ].

Lemma write_record_touches name r :
  touches_only (λ n, n = name) (write_record name r).
Proof.
  destruct r as [[t r1] r2]. unfold write_record.
  case_decide; [|case_decide]; touches.
Qed.

Lemma write_to_viatom_file_touches lib data :
  touches_only (λ n, chunk_file lib data = Some n) (write_to_viatom_file lib data).
Proof.
  unfold write_to_viatom_file. case_decide.
  { unfold too_long. touches. }
  destruct data as [|first data]; [by touches|].
  change (index (first :: data) 0) with (@inr exn _ first).
  rewrite bind_lift_inr.
  apply (touches_mono (λ n, n = file_name lib (ts first))).
  { by intros n ->. }
  touches. apply write_record_touches.
Qed.

Lemma raises_bind {A B} Q (m : IO A) (f : A → IO B) :
  raises_only Q m → (∀ x, raises_only Q (f x)) → raises_only Q (m ≫= f).
Proof.
  intros Hm Hf w e w'. unfold mbind, IO_bind.
  destruct (m w) as [[e1|x] w1] eqn:Hmw.
  - intros [= <- <-]. by eapply Hm.
  - apply Hf.
Qed.

Lemma raises_pure {A} (Q : exn → Prop) (r : result A) :
  (∀ e, r = inl e → Q e) → raises_only Q (lift r).
Proof. intros Hr w e w' [= Hw _]. by apply Hr. Qed.

Lemma raises_total {A} Q (m : IO A) :
  (∀ w, ∃ x, (m w).1 = inr x) → raises_only Q m.
Proof. intros Hm w e w' Hw. destruct (Hm w) as [x Hx]. by rewrite Hw in Hx. Qed.

Lemma raises_for_each {A} Q (body : A → IO unit) l :
  (∀ x, x ∈ l → raises_only Q (body x)) → raises_only Q (for_each body l).
Proof.
  induction l as [|x l IH]; intros Hbody; [by intros w e w'|].
  change (for_each body (x :: l)) with (body x ≫= λ _, for_each body l).
  apply raises_bind; [apply Hbody; left|].
  intros _. apply IH. intros y Hy. apply Hbody. by right.
Qed.

Lemma pack_B_inl x e : pack_B x = inl e → e = StructError.
Proof. unfold pack_B. case_decide; [done|]. by intros [= <-]. Qed.

Lemma pack_H_inl x e : pack_H x = inl e → e = StructError.
Proof. unfold pack_H. case_decide; [done|]. by intros [= <-]. Qed.

Lemma pack_I_inl x e : pack_I x = inl e → e = StructError.
Proof. unfold pack_I. case_decide; [done|]. by intros [= <-]. Qed.

Lemma result_bind_inl {A B} (Q : exn → Prop) (r : result A) (f : A → result B) e :
  (∀ e, r = inl e → Q e) → (∀ x e, f x = inl e → Q e) →
  r ≫= f = inl e → Q e.
Proof. destruct r as [e1|x]; simpl; [intros H _ [= <-]; by apply H|]. eauto. Qed.

Ltac raises :=
  repeat first
    [ lazymatch goal with |- raises_only _ (for_each _ _) => idtac end;
      apply raises_for_each; intros ? ?
    | apply raises_total; intros ?; by eexists
    | apply raises_pure; intros ?;
      first [ apply pack_B_inl | apply pack_H_inl | apply pack_I_inl ]
    | apply raises_bind; [|intros ?] ].

Lemma write_record_raises name r :
  raises_only (λ e, e = StructError) (write_record name r).
Proof.
  destruct r as [[t r1] r2]. unfold write_record.
  case_decide; [|case_decide]; raises.
Qed.

Lemma write_to_viatom_file_raises lib data :
  0 < len data ≤ 4095 →
  raises_only (λ e, e = StructError) (write_to_viatom_file lib data).
Proof.
  intros Hlen. unfold write_to_viatom_file. rewrite decide_False by lia.
  destruct data as [|first data]; [unfold len in Hlen; simpl in Hlen; lia|].
  change (index (first :: data) 0) with (@inr exn _ first).
  change (b0 ← pack_B 5; b1 ← pack_B 0; mret (b0 ++ b1))
    with (@inr exn _ [5; 0]).
  rewrite bind_lift_inr.
  raises.
  - apply raises_pure. intros e.
    repeat (apply (result_bind_inl (λ e, e = StructError));
            [apply pack_B_inl|intros ??]).
    done.
  - apply write_record_raises.
Qed.

(** ** When the writer completes *)

Lemma write_records_ok name data w content :
  files w !! name = Some content →
  Forall (λ r : record, 0 ≤ r.2 < 256) data →
  for_each (write_record name) data w =
    (inr (), World (stdout w ++ (data ≫= record_diagnostics))
                   (<[name := content ++ (data ≫= record_bytes)]> (files w))).
Proof.
  revert w content. induction data as [|r data IH]; intros w content Hfile Hdata.
  - simpl. rewrite !app_nil_r, insert_id by done. by destruct w.
  - apply Forall_cons in Hdata as [Hr Hdata].
    rewrite for_each_cons, write_record_ok by done.
    rewrite (IH _ (content ++ record_bytes r)); [|..|done]; simpl.
    + unfold append_file. rewrite Hfile. simpl.
      by rewrite insert_insert_eq, <- !app_assoc.
    + unfold append_file. by rewrite Hfile, lookup_insert_eq.
Qed.

Lemma write_records_range name data w w' :
  for_each (write_record name) data w = (inr (), w') →
  Forall (λ r : record, 0 ≤ r.2 < 256) data.
Proof.
  revert w. induction data as [|r data IH]; intros w; [done|].
  rewrite for_each_cons.
  destruct (write_record name r w) as [[err|[]] w1] eqn:Hr; [done|].
  apply write_record_inr in Hr as [_ Hr]. intros Hrest.
  constructor; [done|]. by eapply IH.
Qed.

Lemma pack_H_range x b : pack_H x = inr b → 0 ≤ x < 65536.
Proof. unfold pack_H. by case_decide. Qed.

(** The chunk [data], whose first record is [first], can be written. *)
Lemma write_to_viatom_file_range lib data w w' :
  write_to_viatom_file lib data w = (inr (), w') →
  ∃ first,
    head data = Some first ∧ len data ≤ 4095 ∧
    0 ≤ year lib (ts first) < 65536 ∧
    Forall (λ x, 0 ≤ x < 256)
      [month lib (ts first); day lib (ts first); hour lib (ts first);
       minute lib (ts first); second lib (ts first)] ∧
    Forall (λ r : record, 0 ≤ r.2 < 256) data.
Proof.
  intros Hw.
  destruct (write_to_viatom_file_inr _ _ _ _ Hw)
    as (first & _ & _ & _ & Hfirst & _ & _ & _ & Hfields & _).
  exists first. split; [done|]. revert Hw.
  unfold write_to_viatom_file. case_decide as Hlen.
  { destruct (write_too_long lib data w Hlen) as [msg Hmsg].
    unfold write_to_viatom_file in Hmsg. rewrite decide_True in Hmsg by done.
    by rewrite Hmsg. }
  destruct data as [|first' data]; [done|]. simplify_eq/=.
  change (index (first :: data) 0) with (@inr exn _ first).
  change (b0 ← pack_B 5; b1 ← pack_B 0; mret (b0 ++ b1))
    with (@inr exn _ [5; 0]).
  red_io. fold (ts first). set (t := ts first) in *.
  set (name := file_name lib t).
  destruct (pack_H (year lib t)) as [err|bY] eqn:HY; [done|].
  destruct (pack_B (month lib t)) as [err|bmo] eqn:Hmo; [done|].
  destruct (pack_B (day lib t)) as [err|bd] eqn:Hd; [done|].
  destruct (pack_B (hour lib t)) as [err|bh] eqn:Hh; [done|].
  destruct (pack_B (minute lib t)) as [err|bmi] eqn:Hmi; [done|].
  destruct (pack_B (second lib t)) as [err|bs] eqn:Hs; [done|].
  destruct (pack_I _) as [err|bF] eqn:HF; [done|].
  destruct (pack_H (len (first :: data) * 4)) as [err|bD] eqn:HD; [done|].
  match goal with |- context [for_each _ _ ?w0] =>
    destruct (for_each (write_record name) (first :: data) w0)
      as [[err|[]] w1] eqn:Hrec end; [done|].
  apply write_records_range in Hrec. apply pack_H_range in HY.
  intros _. split; [lia|]. split; [done|]. by split.
Qed.

Lemma write_to_viatom_file_ok lib first data w :
  let all := first :: data in
  let t := ts first in
  len all ≤ 4095 →
  0 ≤ year lib t < 65536 →
  Forall (λ x, 0 ≤ x < 256)
    [month lib t; day lib t; hour lib t; minute lib t; second lib t] →
  Forall (λ r : record, 0 ≤ r.2 < 256) all →
  write_to_viatom_file lib all w =
    (inr (),
     World (stdout w ++ (all ≫= record_diagnostics) ++
              ["Exported " +:+ file_name lib t +:+ " (size: "
                 +:+ pretty (len all * 5 + 40) +:+ ", duration: "
                 +:+ minutes_to_time_15 lib (length all) +:+ ")"])
           (<[file_name lib t :=
                [5; 0] ++ le_bytes 2 (year lib t) ++
                [month lib t; day lib t; hour lib t; minute lib t;
                 second lib t] ++
                le_bytes 4 (len all * 5 + 40) ++ le_bytes 2 (len all * 4) ++
                replicate 25 0 ++ (all ≫= record_bytes)]> (files w))).
Proof.
  intros all t Hlen HY Hfields Hall.
  apply Forall_cons in Hfields as [Hmo Hfields].
  apply Forall_cons in Hfields as [Hd Hfields].
  apply Forall_cons in Hfields as [Hh Hfields].
  apply Forall_cons in Hfields as [Hmi Hfields].
  apply Forall_cons in Hfields as [Hs _].
  unfold write_to_viatom_file. rewrite decide_False by lia.
  change (index all 0) with (@inr exn _ first).
  change (b0 ← pack_B 5; b1 ← pack_B 0; mret (b0 ++ b1))
    with (@inr exn _ [5; 0]).
  rewrite bind_lift_inr. cbn zeta.
  fold (ts first). fold t. unfold pack_H, pack_I, pack_B.
  assert (0 ≤ len all) by (unfold len; lia).
  rewrite !decide_True by lia.
  red_io. unfold f_write, open_wb. simpl.
  rewrite !append_file_append, append_file_insert.
  erewrite write_records_ok; [|apply lookup_insert_eq|done].
  unfold print. simpl. rewrite insert_insert_eq.
  rewrite !(Z.mod_small (month lib t)), !(Z.mod_small (day lib t)),
    !(Z.mod_small (hour lib t)), !(Z.mod_small (minute lib t)),
    !(Z.mod_small (second lib t)) by lia.
  f_equal. f_equal. by rewrite <- app_assoc.
Qed.

Lemma length_record_bytes_one r : length (record_bytes r) = 5%nat.
Proof. destruct r as [[t r1] r2]. unfold record_bytes. by case_decide. Qed.

Lemma record_slice data (k : nat) r :
  data !! k = Some r →
  take 5 (drop (5 * k) (data ≫= record_bytes)) = record_bytes r.
Proof.
  revert k. induction data as [|r0 data IH]; intros k Hk; [done|].
  pose proof (length_record_bytes_one r0) as Hlen.
  cbn [mbind list_bind]. fold (data ≫= record_bytes).
  destruct k as [|k].
  - injection Hk as ->. rewrite Nat.mul_0_r, drop_0.
    by rewrite take_app_length'.
  - replace (5 * S k)%nat with (length (record_bytes r0) + 5 * k)%nat by lia.
    rewrite <- drop_drop, drop_app_length. by apply IH.
Qed.

(** X9. [write_to_viatom_file] completes exactly on a chunk of 1 to 4095
    records whose first timestamp has a year below 65536 and month, day,
    hour, minute and second below 256, and all of whose heart rates are in
    0..255.  When it raises, it is [IndexError] on an empty chunk and
    [RuntimeError] on one of more than 4095 records, both before anything
    is written, and [struct.error] otherwise. *)
Theorem writer_completes lib data w :
  ((∃ w', write_to_viatom_file lib data w = (inr (), w')) ↔
   ∃ first,
     head data = Some first ∧ len data ≤ 4095 ∧
     0 ≤ year lib (ts first) < 65536 ∧
     Forall (λ x, 0 ≤ x < 256)
       [month lib (ts first); day lib (ts first); hour lib (ts first);
        minute lib (ts first); second lib (ts first)] ∧
     Forall (λ r : record, 0 ≤ r.2 < 256) data) ∧
  (∀ e w', write_to_viatom_file lib data w = (inl e, w') →
     (data = [] ∧ e = IndexError ∧ w' = w) ∨
     (len data > 4095 ∧ (∃ msg, e = RuntimeError msg) ∧ w' = w) ∨
     (0 < len data ≤ 4095 ∧ e = StructError)).
Proof.
  split; [split|].
  - intros [w' Hw]. by eapply write_to_viatom_file_range.
  - intros (first & Hfirst & Hlen & HY & Hfields & Hall).
    destruct data as [|first' data]; simplify_eq/=.
    rewrite write_to_viatom_file_ok by done. eauto.
  - intros e w' Hw.
    destruct (decide (len data > 4095)) as [Hlong|Hshort].
    { right; left. destruct (write_too_long lib data w Hlong) as [msg Hmsg].
      rewrite Hmsg in Hw. simplify_eq/=. eauto. }
    destruct data as [|first data].
    { left. revert Hw. unfold write_to_viatom_file.
      rewrite decide_False by done. by intros [= <- <-]. }
    right; right.
    assert (0 < len (first :: data) ≤ 4095) as Hlen
      by (unfold len in *; simpl in *; lia).
    split; [done|].
    by apply (write_to_viatom_file_raises lib _ Hlen w e w').
Qed.

(** ** The pipeline, stage by stage *)

Lemma divide_chunks_sized sessions data out :
  divide_data_to_viatom_chunks sessions data = inr out →
  Forall (λ c, 0 < len c ≤ 4095) out.
Proof.
  intros (per & -> & Hper)%divide_decompose.
  apply Forall_forall. intros c (cs & Hc & Hcs)%elem_of_concat.
  apply list_elem_of_lookup in Hcs as [j Hj].
  destruct (Forall2_lookup_r _ _ _ _ _ Hper Hj) as (s & _ & Hout).
  apply session_output_stream in Hout as (rs & -> & _).
  pose proof (chop_cap rs) as Hcap.
  by eapply Forall_forall in Hcap.
Qed.

Lemma export_stages lib e w :
  export_spo2_as_viatom lib e w =
    match last (profile e) with
    | None => (inl (RuntimeError "Profile not detected!"), w)
    | Some timezone =>
        let w1 := World (stdout w ++ ["Timezone: " +:+ timezone]) (files w) in
        if decide (length (spo2_files e) = 0%nat ∨ length (bpm_files e) = 0%nat)
        then (inl (RuntimeError "No SpO2 or heart rate data detected!"), w1)
        else
          match align_spo2_data lib (spo2_files e) (bpm_files e) timezone with
          | inl err => (inl err, w1)
          | inr (sessions, data) =>
              let w2 := World (stdout w1 ++ ["Detected SpO2 sessions:"])
                              (files w1) in
              match for_each (print_session lib) sessions w2 with
              | (inl err, w3) => (inl err, w3)
              | (inr _, w3) =>
                  match divide_data_to_viatom_chunks sessions data with
                  | inl err => (inl err, w3)
                  | inr chunks => for_each (write_to_viatom_file lib) chunks w3
                  end
              end
          end
    end.
Proof.
  destruct (last (profile e)) as [timezone|] eqn:Htz.
  2:{ unfold export_spo2_as_viatom, read_profile_timezone. by rewrite Htz. }
  rewrite (export_unfold _ _ _ _ Htz). cbn zeta. case_decide; [done|].
  destruct (align_spo2_data _ _ _ _) as [err|[sessions data]]; [done|].
  red_io.
  destruct (for_each (print_session lib) sessions _) as [[err|[]] w3]; [done|].
  by destruct (divide_data_to_viatom_chunks sessions data).
Qed.

Lemma write_chunks_raise lib chunks :
  Forall (λ c, 0 < len c ≤ 4095) chunks →
  raises_only (λ e, e = StructError) (for_each (write_to_viatom_file lib) chunks).
Proof.
  intros Hsized. apply raises_for_each. intros c Hc.
  apply write_to_viatom_file_raises. by eapply Forall_forall in Hsized.
Qed.

(** X11. When [export_spo2_as_viatom] stops with an exception other than
    [struct.error], it has written nothing: every failure of the profile,
    of the readers, of the session detection and of the chunker comes
    before the first file is opened, and the chunks handed to the writer
    are never empty nor longer than 4095 records. *)
Theorem export_fails_clean lib e w err w' :
  export_spo2_as_viatom lib e w = (inl err, w') →
  err ≠ StructError →
  files w' = files w.
Proof.
  rewrite export_stages.
  destruct (last (profile e)) as [timezone|]; [|by intros [= _ <-]].
  cbn zeta. case_decide; [by intros [= _ <-]|].
  destruct (align_spo2_data _ _ _ _) as [err0|[sessions data]];
    [by intros [= _ <-]|].
  match goal with |- context [for_each _ _ ?w2] =>
    pose proof (print_sessions_files lib sessions w2) as Hfiles;
    destruct (for_each (print_session lib) sessions w2) as [[err0|[]] w3] end.
  { by intros [= _ <-]. }
  destruct (divide_data_to_viatom_chunks sessions data) as [err0|chunks] eqn:Hdiv.
  { by intros [= _ <-]. }
  intros Hw Herr. apply divide_chunks_sized in Hdiv.
  by apply (write_chunks_raise lib chunks Hdiv w3 err w') in Hw.
Qed.

Lemma export_fails_clean_witness :
  files (export_spo2_as_viatom utc no_rows (World [] ∅)).2 = ∅.
Proof.
  eapply (export_fails_clean utc no_rows (World [] ∅)).
  - vm_compute. reflexivity.
  - discriminate.
Defined.

(** X12. Whether it completes or raises, [export_spo2_as_viatom] changes
    no file but those named after the first record of a chunk that
    [divide_data_to_viatom_chunks] returned for the sessions and the index
    of [align_spo2_data]. *)
Theorem export_touches_chunk_files lib e w n :
  files (export_spo2_as_viatom lib e w).2 !! n ≠ files w !! n →
  ∃ timezone sessions data chunks c,
    last (profile e) = Some timezone ∧
    align_spo2_data lib (spo2_files e) (bpm_files e) timezone
      = inr (sessions, data) ∧
    divide_data_to_viatom_chunks sessions data = inr chunks ∧
    c ∈ chunks ∧ chunk_file lib c = Some n.
Proof.
  rewrite export_stages.
  destruct (last (profile e)) as [timezone|]; [|done].
  cbn zeta. case_decide; [done|].
  destruct (align_spo2_data _ _ _ _) as [err0|[sessions data]] eqn:Halign;
    [done|].
  match goal with |- context [for_each _ _ ?w2] =>
    pose proof (print_sessions_files lib sessions w2) as Hfiles;
    destruct (for_each (print_session lib) sessions w2) as [[err0|[]] w3] end;
    simpl in Hfiles; rewrite <- Hfiles.
  { done. }
  destruct (divide_data_to_viatom_chunks sessions data) as [err0|chunks] eqn:Hdiv.
  { done. }
  intros Hn.
  destruct (decide (Exists (λ c, chunk_file lib c = Some n) chunks))
    as [(c & Hc & Hname)%Exists_exists|Hnone].
  { by exists timezone, sessions, data, chunks, c. }
  rewrite Exists_exists in Hnone.
  destruct Hn.
  apply (touches_for_each (λ n, ∃ c, c ∈ chunks ∧ chunk_file lib c = Some n));
    [|done].
  intros c Hc. eapply touches_mono; [|apply write_to_viatom_file_touches].
  intros n' Hn'. eauto.
Qed.

Lemma export_touches_chunk_files_witness :
  ∃ timezone sessions data chunks c,
    last (profile night) = Some timezone ∧
    align_spo2_data utc (spo2_files night) (bpm_files night) timezone
      = inr (sessions, data) ∧
    divide_data_to_viatom_chunks sessions data = inr chunks ∧
    c ∈ chunks ∧ chunk_file utc c = Some "20210301080000.bin".
Proof.
  apply (export_touches_chunk_files utc night (World [] ∅)).
  vm_compute. discriminate.
Defined.

Lemma write_to_viatom_file_files lib data w w' :
  write_to_viatom_file lib data w = (inr (), w') →
  ∃ name, chunk_file lib data = Some name ∧
          files w' = <[name := viatom_file lib data]> (files w).
Proof.
  intros Hw.
  destruct (write_to_viatom_file_range _ _ _ _ Hw)
    as (first & Hfirst & Hlen & HY & Hfields & Hall).
  destruct data as [|first' data]; [done|]. injection Hfirst as ->.
  rewrite write_to_viatom_file_ok in Hw by done. injection Hw as <-.
  by eexists.
Qed.

Lemma write_chunks_files lib chunks w w' :
  for_each (write_to_viatom_file lib) chunks w = (inr (), w') →
  ∀ n, files w' !! n =
         match last (filter (λ c, chunk_file lib c = Some n) chunks) with
         | Some c => Some (viatom_file lib c)
         | None => files w !! n
         end.
Proof.
  revert w. induction chunks as [|c chunks IH]; intros w.
  - by intros [= <-] n.
  - rewrite for_each_cons.
    destruct (write_to_viatom_file lib c w) as [[err|[]] w1] eqn:Hc; [done|].
    apply write_to_viatom_file_files in Hc as (name & Hname & Hfiles).
    intros Hrest n. rewrite (IH _ Hrest n), Hfiles, filter_cons.
    case_decide as Hn.
    + destruct (filter _ chunks) as [|c' l] eqn:Hl.
      * simpl. rewrite Hname in Hn. injection Hn as ->.
        by rewrite lookup_insert_eq.
      * change (last (c :: c' :: l)) with (last (c' :: l)).
        destruct (last (c' :: l)) eqn:E; [done|by apply last_None in E].
    + destruct (last (filter _ chunks)); [done|].
      apply lookup_insert_ne. intros ->. by rewrite Hname in Hn.
Qed.

(** X13. When [export_spo2_as_viatom] completes, the time zone was read,
    [align_spo2_data] and [divide_data_to_viatom_chunks] returned, and the
    files are those from before with, under the name of every chunk, the
    header and records of the last chunk written under that name. *)
Theorem export_files lib e w w' :
  export_spo2_as_viatom lib e w = (inr (), w') →
  ∃ timezone sessions data chunks,
    last (profile e) = Some timezone ∧
    align_spo2_data lib (spo2_files e) (bpm_files e) timezone
      = inr (sessions, data) ∧
    divide_data_to_viatom_chunks sessions data = inr chunks ∧
    ∀ n, files w' !! n =
           match last (filter (λ c, chunk_file lib c = Some n) chunks) with
           | Some c => Some (viatom_file lib c)
           | None => files w !! n
           end.
Proof.
  rewrite export_stages.
  destruct (last (profile e)) as [timezone|]; [|done].
  cbn zeta. case_decide; [done|].
  destruct (align_spo2_data _ _ _ _) as [err0|[sessions data]] eqn:Halign;
    [done|].
  match goal with |- context [for_each _ _ ?w2] =>
    pose proof (print_sessions_files lib sessions w2) as Hfiles;
    destruct (for_each (print_session lib) sessions w2) as [[err0|[]] w3] end;
    simpl in Hfiles; [done|].
  destruct (divide_data_to_viatom_chunks sessions data) as [err0|chunks] eqn:Hdiv;
    [done|].
  intros Hw. exists timezone, sessions, data, chunks.
  split_and!; [done..|].
  intros n. rewrite <- Hfiles. by apply write_chunks_files.
Qed.

Lemma export_files_witness :
  ∃ timezone sessions data chunks,
    last (profile night) = Some timezone ∧
    align_spo2_data utc (spo2_files night) (bpm_files night) timezone
      = inr (sessions, data) ∧
    divide_data_to_viatom_chunks sessions data = inr chunks ∧
    ∀ n, files (export_spo2_as_viatom utc night (World [] ∅)).2 !! n =
           match last (filter (λ c, chunk_file utc c = Some n) chunks) with
           | Some c => Some (viatom_file utc c)
           | None => (∅ : gmap string (list Z)) !! n
           end.
Proof.
  apply (export_files utc night (World [] ∅)).
  vm_compute. reflexivity.
Defined.

(** ** When the pipeline runs through *)

Lemma bpm_samples_last (xs : list (Z * Z)) d0 l0 :
  (foldl (λ acc sample, bpm_sample sample acc) (d0, l0) xs).2 =
    match last xs with Some x => Some x.1 | None => l0 end.
Proof.
  revert d0 l0. induction xs as [|x xs IH]; intros d0 l0; [done|].
  simpl. unfold bpm_sample at 2. simpl. rewrite IH.
  destruct xs as [|y xs]; [done|].
  change (last (x :: y :: xs)) with (last (y :: xs)).
  destruct (last (y :: xs)) eqn:E; [done|]. by apply last_None in E.
Qed.

Lemma retain_total l rs acc :
  Forall (λ r : list Z, r ≠ []) rs →
  ∃ out, for_fold (retain (Some l)) (bounds <$> rs) acc = inr out.
Proof.
  revert acc. induction rs as [|r rs IH]; intros acc Hne; [by eexists|].
  apply Forall_cons in Hne as [Hr Hne].
  destruct r as [|a r]; [done|].
  destruct (last (a :: r)) as [z|] eqn:Hz; [|by apply last_None in Hz].
  rewrite fmap_cons, for_fold_cons, retain_eq, (bounds_run _ a z) by done.
  simpl. case_decide; cbn [mbind result_bind]; by apply IH.
Qed.

Lemma align_total lib csv_files json_files timezone :
  spo2_samples lib csv_files timezone ≠ [] →
  bpm_samples lib json_files timezone ≠ [] →
  ∃ filtered d,
    align_spo2_data lib csv_files json_files timezone = inr (filtered, d).
Proof.
  intros Hs Hb.
  destruct (segment_spec _ Hs) as (rs & Hseg & _ & Hrne & _).
  unfold align_spo2_data. unfold segment in Hseg.
  destruct (for_fold spo2_sample _ _) as [err|st]; [done|].
  cbn [mbind result_bind] in Hseg |- *. rewrite Hseg.
  pose proof (bpm_samples_last (bpm_samples lib json_files timezone)
                (data st) None) as Hlast.
  destruct (foldl (λ acc sample, bpm_sample sample acc) _ _) as [d1 l1].
  simpl in Hlast. subst l1.
  destruct (last (bpm_samples lib json_files timezone)) as [x|] eqn:Hx;
    [|by apply last_None in Hx].
  cbn [mbind result_bind].
  destruct (retain_total x.1 rs [] Hrne) as [out ->]. by eexists _, _.
Qed.

Lemma print_sessions_ok lib ss w :
  (∀ s, s ∈ ss → ∃ s0 s1 : Z, s = [s0; s1]) →
  ∃ w', for_each (print_session lib) ss w = (inr (), w').
Proof.
  revert w. induction ss as [|s ss IH]; intros w Hss; [by eexists|].
  destruct (Hss s) as (s0 & s1 & ->); [left|].
  rewrite for_each_cons. unfold print_session at 1. red_io.
  apply IH. intros s Hs. apply Hss. by right.
Qed.

Lemma bind_nil_inv {A B} (f : A → list B) (ls : list A) :
  ls ≫= f ≠ [] → ls ≠ [].
Proof. by destruct ls. Qed.

(** X14. The timestamps of the samples are those the readers yield, in
    the zone of the profile, compared as wall-clock times.  With a
    profile, at least one SpO2 sample kept by the reader and a heart-rate
    entry whose timestamp is not above the timestamp of any SpO2 sample,
    the pipeline never stops in the readers, the session detection or the
    chunker: it completes, unless [struct.pack] rejects a value in the
    writer. *)
Theorem export_runs lib e w timezone t0 :
  last (profile e) = Some timezone →
  spo2_samples lib (spo2_files e) timezone ≠ [] →
  t0 ∈ (bpm_samples lib (bpm_files e) timezone).*1 →
  (∀ t, t ∈ (spo2_samples lib (spo2_files e) timezone).*1 → t0 ≤ t) →
  ∃ w', export_spo2_as_viatom lib e w = (inr (), w') ∨
        export_spo2_as_viatom lib e w = (inl StructError, w').
Proof.
  intros Htz Hspo2 Ht0 Hmin.
  assert (bpm_samples lib (bpm_files e) timezone ≠ []) as Hbpm.
  { intros Hnil. rewrite Hnil in Ht0. by apply elem_of_nil in Ht0. }
  rewrite export_stages, Htz. cbn zeta.
  rewrite decide_False.
  2:{ apply bind_nil_inv in Hspo2, Hbpm.
      destruct (spo2_files e), (bpm_files e); simpl; intros [?|?]; done. }
  destruct (align_total lib (spo2_files e) (bpm_files e) timezone)
    as (filtered & d & Halign); [done..|].
  rewrite Halign.
  pose proof (align_retained _ _ _ _ _ _ Halign) as Hret.
  pose proof (align_index _ _ _ _ _ _ Halign) as Hd.
  match goal with |- context [for_each _ _ ?w2] =>
    destruct (print_sessions_ok lib filtered w2) as [w3 ->] end.
  { intros s (s0 & s1 & ? & ? & ? & ? & ? & ? & ? & -> & _)%Hret. eauto. }
  destruct (divide_total filtered d) as [chunks Hdiv].
  { intros s (s0 & s1 & ? & v0 & x0 & ? & ? & ? & ? & -> & _ & Hs0 & _)%Hret.
    by exists s0, s1, v0, x0. }
  { intros k0 entry Hk0 Hfirst.
    rewrite Hd in Hk0.
    assert (is_Some (latest t0 (bpm_samples lib (bpm_files e) timezone)))
      as [b0 Hb0] by by apply latest_is_Some.
    assert (k0 ≤ t0) as Hle.
    { apply Hfirst. rewrite Hd, Hb0.
      by destruct (latest t0 (spo2_samples _ _ _)). }
    destruct (latest k0 (bpm_samples lib (bpm_files e) timezone))
      as [b|] eqn:Hb.
    { destruct (latest k0 (spo2_samples _ _ _)); by simplify_eq/=. }
    destruct (latest k0 (spo2_samples _ _ _)) as [v|] eqn:Hv; [|done].
    apply latest_elem_of in Hv.
    assert (t0 ≤ k0) as Hge.
    { apply Hmin. apply list_elem_of_fmap. by exists (k0, v). }
    assert (k0 = t0) as -> by lia. by rewrite Hb in Hb0. }
  rewrite Hdiv. apply divide_chunks_sized in Hdiv.
  destruct (for_each (write_to_viatom_file lib) chunks w3)
    as [[err|[]] w'] eqn:Hw; [|eauto].
  apply (write_chunks_raise lib chunks Hdiv) in Hw as ->. eauto.
Qed.

Lemma export_runs_witness :
  ∃ w', export_spo2_as_viatom utc night (World [] ∅) = (inr (), w') ∨
        export_spo2_as_viatom utc night (World [] ∅) = (inl StructError, w').
Proof.
  apply (export_runs utc night (World [] ∅) "Europe/London" t8).
  - reflexivity.
  - discriminate.
  - vm_compute. left.
  - intros t Ht.
    change (t ∈ [t8; t8 + 60]) in Ht.
    repeat (apply elem_of_cons in Ht as [-> | Ht]; [lia|]).
    by apply elem_of_nil in Ht.
Defined.

(** ** The sleep pipeline *)

#[local] Arguments for_each_item : simpl never.

Ltac red_sio :=
  repeat (progress (unfold mbind, mret, SIO_bind, SIO_ret, builtin, getitem,
                      print, f_write, open_wb in *; simpl in *)).

Lemma for_each_item_cons {A} (body : A → SIO unit) x l w :
  for_each_item body (x :: l) w =
    match body x w with
    | (inl e, w') => (inl e, w')
    | (inr _, w') => for_each_item body l w'
    end.
Proof. done. Qed.

Lemma for_each_item_app {A} (body : A → SIO unit) l1 l2 w :
  for_each_item body (l1 ++ l2) w =
    match for_each_item body l1 w with
    | (inl e, w') => (inl e, w')
    | (inr _, w') => for_each_item body l2 w'
    end.
Proof.
  revert w. induction l1 as [|x l1 IH]; intros w; [done|].
  rewrite <- app_comm_cons, !for_each_item_cons.
  destruct (body x w) as [[e|[]] w1]; [done|]. apply IH.
Qed.

Lemma for_each_item_bind {A B} (body : B → SIO unit) (f : A → list B) l w :
  for_each_item (λ x, for_each_item body (f x)) l w =
    for_each_item body (l ≫= f) w.
Proof.
  revert w. induction l as [|x l IH]; intros w; [done|].
  cbn [mbind list_bind]. fold (l ≫= f).
  rewrite for_each_item_cons, for_each_item_app.
  destruct (for_each_item body (f x) w) as [[e|[]] w1]; [done|]. apply IH.
Qed.

Lemma generate_dreem_hypnogram_eq json_data w :
  generate_dreem_hypnogram json_data w =
    (inr (json_data ≫= stage_labels),
     World (stdout w ++ (json_data ≫= stage_diagnostics)) (files w)).
Proof. unfold generate_dreem_hypnogram. by rewrite hypnogram_loop_spec. Qed.

Lemma dreem_item_ok slib item row w :
  dreem_fields slib item = Some row →
  dreem_item slib item w =
    (inr (), World (stdout w ++ dreem_lines item)
                   (append_file "sleep.csv" (writerow slib row) (files w))).
Proof.
  unfold dreem_fields, dreem_item, dreem_lines, dreem_announce.
  destruct (summary item !! "light") as [light|] eqn:Hlight; [|done].
  destruct (summary item !! "deep") as [deep|] eqn:Hdeep; [|done].
  destruct (summary item !! "rem") as [rem|] eqn:Hrem; [|done].
  destruct (summary item !! "wake") as [wake|] eqn:Hwake; [|done].
  intros [= <-]. cbn zeta.
  unfold mbind at 1 2 3 4 5 6, SIO_bind, builtin, getitem, print, f_write.
  rewrite Hlight, Hdeep, Hrem, Hwake, generate_dreem_hypnogram_eq.
  cbn [stdout files]. by rewrite <- app_assoc.
Qed.

Lemma missing_key_eq item :
  missing_key item =
    match summary item !! "light", summary item !! "deep",
          summary item !! "rem", summary item !! "wake" with
    | None, _, _, _ => Some "light"
    | Some _, None, _, _ => Some "deep"
    | Some _, Some _, None, _ => Some "rem"
    | Some _, Some _, Some _, None => Some "wake"
    | Some _, Some _, Some _, Some _ => None
    end.
Proof.
  unfold missing_key. rewrite !filter_cons, filter_nil.
  destruct (summary item !! "light"), (summary item !! "deep"),
    (summary item !! "rem"), (summary item !! "wake");
    repeat case_decide; done.
Qed.

Lemma dreem_item_fail slib item key w :
  missing_key item = Some key →
  dreem_item slib item w =
    (inl (KeyError key), World (stdout w ++ [dreem_announce item]) (files w)).
Proof.
  rewrite missing_key_eq. unfold dreem_item, dreem_announce. cbn zeta.
  unfold mbind at 1 2 3 4 5 6, SIO_bind, builtin, getitem, print.
  destruct (summary item !! "light") as [light|]; [|by intros [= <-]].
  destruct (summary item !! "deep") as [deep|]; [|by intros [= <-]].
  destruct (summary item !! "rem") as [rem|]; [|by intros [= <-]].
  destruct (summary item !! "wake") as [wake|]; [done|by intros [= <-]].
Qed.

Lemma dreem_items_ok slib items rows w content :
  Forall2 (λ item row, dreem_fields slib item = Some row) items rows →
  files w !! "sleep.csv" = Some content →
  for_each_item (dreem_item slib) items w =
    (inr (), World (stdout w ++ (items ≫= dreem_lines))
                   (<["sleep.csv" := content ++ (rows ≫= writerow slib)]>
                      (files w))).
Proof.
  intros Hrows. revert w content.
  induction Hrows as [|item row items rows Hrow _ IH]; intros w content Hfile.
  - simpl. rewrite !app_nil_r, insert_id by done. by destruct w.
  - rewrite for_each_item_cons, (dreem_item_ok _ _ _ _ Hrow).
    rewrite (IH _ (content ++ writerow slib row)); simpl.
    + unfold append_file. rewrite Hfile. simpl.
      by rewrite insert_insert_eq, <- !app_assoc.
    + unfold append_file. by rewrite Hfile, lookup_insert_eq.
Qed.

Lemma write_to_dreem_eq slib json_files w :
  write_to_dreem slib json_files w =
    for_each_item (dreem_item slib) (stage_logs slib json_files)
      (World (stdout w) (<["sleep.csv" := writerow slib column_names]> (files w))).
Proof.
  unfold write_to_dreem, stage_logs.
  unfold mbind at 1 2, SIO_bind, builtin, open_wb, f_write. cbn [stdout files].
  rewrite for_each_item_bind, append_file_insert. done.
Qed.

(** X15. When every item that passes the "light" filter has the summary
    entries "light", "deep", "rem" and "wake", [write_to_dreem] completes:
    "sleep.csv" holds the row of column names followed by one row per such
    item, in file order, whatever it held before; the items without a
    "light" entry leave no trace; nothing else is written, and each row is
    announced on standard output, followed by the diagnostics of its
    hypnogram. *)
Theorem dreem_rows slib json_files rows w :
  Forall2 (λ item row, dreem_fields slib item = Some row)
          (stage_logs slib json_files) rows →
  write_to_dreem slib json_files w =
    (inr (),
     World (stdout w ++ (stage_logs slib json_files ≫= dreem_lines))
           (<["sleep.csv" := writerow slib column_names
                               ++ (rows ≫= writerow slib)]> (files w))).
Proof.
  intros Hrows. rewrite write_to_dreem_eq.
  erewrite dreem_items_ok; [|done|apply lookup_insert_eq].
  cbn [stdout files]. by rewrite insert_insert_eq.
Qed.

Lemma dreem_rows_witness :
  ∃ row,
    dreem_fields plain stages_log = Some row ∧
    write_to_dreem plain [[classic_log; stages_log]] (World [] ∅) =
      (inr (),
       World ([] ++ (stage_logs plain [[classic_log; stages_log]] ≫= dreem_lines))
             (<["sleep.csv" := writerow plain column_names
                                 ++ ([row] ≫= writerow plain)]> ∅)).
Proof.
  eexists. split; [reflexivity|].
  apply (dreem_rows plain [[classic_log; stages_log]] _ (World [] ∅)).
  repeat constructor.
Defined.

(** X16. The filter of [write_to_dreem] compares lower-cased keys and the
    loop body reads the keys as they are spelled: at the first item that
    passed the filter and lacks one of "light", "deep", "rem" and "wake",
    [write_to_dreem] raises [KeyError] for the first key missing, after it
    announced the item; "sleep.csv" is left with the column names and the
    rows of the items before it. *)
Theorem dreem_key_error slib json_files before item rest rows key w :
  stage_logs slib json_files = before ++ item :: rest →
  Forall2 (λ item row, dreem_fields slib item = Some row) before rows →
  missing_key item = Some key →
  write_to_dreem slib json_files w =
    (inl (KeyError key),
     World (stdout w ++ (before ≫= dreem_lines) ++ [dreem_announce item])
           (<["sleep.csv" := writerow slib column_names
                               ++ (rows ≫= writerow slib)]> (files w))).
Proof.
  intros Hlogs Hrows Hkey. rewrite write_to_dreem_eq, Hlogs.
  rewrite for_each_item_app.
  erewrite dreem_items_ok; [|done|apply lookup_insert_eq].
  rewrite for_each_item_cons, (dreem_item_fail _ _ _ _ Hkey).
  cbn [stdout files]. by rewrite insert_insert_eq, <- app_assoc.
Qed.

Lemma dreem_key_error_witness :
  ∃ row,
    dreem_fields plain stages_log = Some row ∧
    write_to_dreem plain [[stages_log]; [capital_log; stages_log]] (World [] ∅) =
      (inl (KeyError "light"),
       World ([] ++ ([stages_log] ≫= dreem_lines) ++ [dreem_announce capital_log])
             (<["sleep.csv" := writerow plain column_names
                                 ++ ([row] ≫= writerow plain)]> ∅)).
Proof.
  eexists. split; [reflexivity|].
  apply (dreem_key_error plain [[stages_log]; [capital_log; stages_log]]
           [stages_log] capital_log [stages_log] _ "light" (World [] ∅)).
  - vm_compute. reflexivity.
  - repeat constructor.
  - vm_compute. reflexivity.
Defined.

(** X17. Without any "sleep-*.json" file [export_sleep_phases_as_dreem]
    raises "No sleep data detected!" and writes nothing.  With files of
    which no item passes the "light" filter it completes silently, and
    "sleep.csv" is created, or overwritten, with the column names alone. *)
Theorem export_sleep_without_stages slib json_files w :
  (json_files = [] →
   export_sleep_phases_as_dreem slib json_files w =
     (inl (Builtin (RuntimeError "No sleep data detected!")), w)) ∧
  (json_files ≠ [] → stage_logs slib json_files = [] →
   export_sleep_phases_as_dreem slib json_files w =
     (inr (), World (stdout w)
                    (<["sleep.csv" := writerow slib column_names]> (files w)))).
Proof.
  unfold export_sleep_phases_as_dreem. split.
  - by intros ->.
  - intros Hne Hlogs. destruct json_files as [|json_data json_files]; [done|].
    rewrite decide_False by done.
    by rewrite write_to_dreem_eq, Hlogs.
Qed.

Example classic_log_only :
  export_sleep_phases_as_dreem plain [[classic_log]]
    (World [] {["sleep.csv" := [1; 2; 3]]}) =
  (inr (), World [] {["sleep.csv" := writerow plain column_names]}).
Proof. vm_compute. reflexivity. Qed.

(** ** The two exports in sequence *)

Lemma bin_not_csv s : s +:+ ".bin" ≠ "sleep.csv".
Proof.
  destruct s as [|a0 [|a1 [|a2 [|a3 [|a4 [|a5 s]]]]]]; try done.
  simpl. intros H. simplify_eq/=.
  destruct s as [|b0 [|b1 [|b2 [|b3 s]]]]; done.
Qed.

Lemma read_profile_timezone_touches P e :
  touches_only P (read_profile_timezone e).
Proof. unfold read_profile_timezone. destruct (last (profile e)); touches. Qed.

Lemma export_touches lib e :
  touches_only (λ n, ∃ t, n = file_name lib t) (export_spo2_as_viatom lib e).
Proof.
  unfold export_spo2_as_viatom.
  apply touches_bind; [apply read_profile_timezone_touches|]. intros timezone.
  cbn zeta. case_decide; [by touches|].
  apply touches_bind; [by touches|]. intros [sessions data].
  touches.
  eapply touches_mono; [|apply write_to_viatom_file_touches].
  intros n. unfold chunk_file. destruct (head _) as [first|]; [|done].
  intros [= <-]. eauto.
Qed.

(** X18. The sleep export runs only after the SpO2 export has completed:
    whenever the two exports in sequence change "sleep.csv",
    [export_spo2_as_viatom] had returned without an exception. *)
Theorem sleep_after_spo2 lib slib e sleep_files w :
  files (run_exports lib slib e sleep_files w).2 !! "sleep.csv"
    ≠ files w !! "sleep.csv" →
  ∃ w1, export_spo2_as_viatom lib e w = (inr (), w1).
Proof.
  unfold run_exports. unfold mbind, SIO_bind, builtin.
  pose proof (export_touches lib e w "sleep.csv") as Hframe.
  destruct (export_spo2_as_viatom lib e w) as [[err|[]] w1]; [|eauto].
  intros Hchanged. destruct Hchanged. apply Hframe.
  intros [t Ht]. symmetry in Ht. by apply bin_not_csv in Ht.
Qed.

Lemma sleep_after_spo2_witness :
  ∃ w1, export_spo2_as_viatom utc night (World [] ∅) = (inr (), w1).
Proof.
  apply (sleep_after_spo2 utc plain night [[stages_log]] (World [] ∅)).
  vm_compute. discriminate.
Defined.

(** ** The length of the hypnogram *)

Lemma stage_labels_bounded item :
  Forall (λ label, label ∈ ["WAKE"; "REM"; "Light"; "Deep"]) (stage_labels item) ∧
  (0 ≤ seconds item → 30 * len (stage_labels item) ≤ seconds item).
Proof.
  unfold stage_labels, label_of, len.
  assert (0 ≤ seconds item →
          30 * Z.of_nat (Z.to_nat (seconds item `div` 30)) ≤ seconds item)
    as Hlen.
  { intros Hsec. rewrite Z2Nat.id by (apply Z.div_pos; lia).
    apply Z.mul_div_le. lia. }
  repeat case_decide;
    (split; [|first [by rewrite length_replicate | by simpl; lia]]);
    first [apply Forall_replicate|apply Forall_nil_2];
    set_solver.
Qed.

(** X19. [generate_dreem_hypnogram] always returns, writes no file, and
    returns no label but "WAKE", "REM", "Light" and "Deep"; when no stage
    has a negative number of seconds, the 30-second labels it returns
    cover no more than the seconds of all the stages together. *)
Theorem hypnogram_bounded json_data w :
  ∃ labels w',
    generate_dreem_hypnogram json_data w = (inr labels, w') ∧
    files w' = files w ∧
    Forall (λ label, label ∈ ["WAKE"; "REM"; "Light"; "Deep"]) labels ∧
    (Forall (λ item, 0 ≤ seconds item) json_data →
     30 * len labels ≤ foldr (λ item total, seconds item + total) 0 json_data).
Proof.
  eexists _, _. split; [apply generate_dreem_hypnogram_eq|].
  split; [done|]. unfold len.
  induction json_data as [|item json_data [IHl IHs]]; [by split|].
  destruct (stage_labels_bounded item) as [Hl Hs].
  cbn [mbind list_bind foldr]. split.
  - apply Forall_app. by split.
  - intros [Hitem Hrest]%Forall_cons. rewrite length_app.
    specialize (Hs Hitem). specialize (IHs Hrest).
    unfold len, mbind in *. lia.
Qed.

(** ** Heart-rate files without entries *)

Lemma align_without_bpm lib csv_files json_files timezone :
  spo2_samples lib csv_files timezone ≠ [] →
  bpm_samples lib json_files timezone = [] →
  align_spo2_data lib csv_files json_files timezone = inl TypeError.
Proof.
  intros Hs Hb.
  destruct (segment_spec _ Hs) as (rs & Hseg & Hcat & Hrne & _).
  unfold align_spo2_data. unfold segment in Hseg.
  destruct (for_fold spo2_sample _ _) as [err|st]; [done|].
  cbn [mbind result_bind] in Hseg |- *. rewrite Hseg, Hb.
  cbn [foldl mbind result_bind].
  destruct rs as [|r rs].
  { simpl in Hcat. destruct (spo2_samples lib csv_files timezone); done. }
  apply Forall_cons in Hrne as [Hr _].
  destruct r as [|a r]; [done|].
  destruct (last (a :: r)) as [z|] eqn:Hz; [|by apply last_None in Hz].
  by rewrite fmap_cons, for_fold_cons, retain_eq, (bounds_run _ a z).
Qed.

(** X20. With SpO2 samples and heart-rate files that hold no entry, the
    check on the files passes and the pipeline stops in
    [align_spo2_data] with [TypeError], at the comparison of a session
    end with [None], after it printed the time zone and before any file
    is written. *)
Theorem export_without_heart_rate lib e w timezone :
  last (profile e) = Some timezone →
  spo2_samples lib (spo2_files e) timezone ≠ [] →
  bpm_files e ≠ [] →
  bpm_samples lib (bpm_files e) timezone = [] →
  export_spo2_as_viatom lib e w =
    (inl TypeError,
     World (stdout w ++ ["Timezone: " +:+ timezone]) (files w)).
Proof.
  intros Htz Hspo2 Hfiles Hbpm.
  rewrite export_stages, Htz. cbn zeta.
  rewrite decide_False.
  2:{ apply bind_nil_inv in Hspo2.
      destruct (spo2_files e), (bpm_files e); simpl; intros [?|?]; done. }
  by rewrite align_without_bpm.
Qed.

Lemma export_without_heart_rate_witness :
  export_spo2_as_viatom utc no_heart_rate (World [] ∅) =
    (inl TypeError, World ([] ++ ["Timezone: " +:+ "Europe/London"]) ∅).
Proof.
  apply (export_without_heart_rate utc no_heart_rate (World [] ∅)).
  - reflexivity.
  - discriminate.
  - discriminate.
  - reflexivity.
Defined.

(** ** A session is resampled in full *)

Lemma walk_session_end sd s st st' :
  chunk st = [] →
  walk_session sd s st = inr st' →
  ∃ rs, chunks st' = chunks st ++ chop rs ∧ grid rs ∧
        ∀ r, last rs = Some r →
          ∃ s1, s !! 1%nat = Some s1 ∧
                (s1 < ts r + 4 ∨
                 ∀ cur, sd !! (length sd - 1)%nat = Some cur → cur.1 ≤ ts r + 4).
Proof.
  intros Hempty. unfold walk_session.
  destruct (for_fold _ _ _) as [err|[last_timestamp st1]] eqn:Hfold; simpl; [done|].
  intros [= <-].
  eapply (intervals_inv sd s (chunks st) _ 0 []) in Hfold as [rs Hinv].
  2:{ split_and!; simpl; [by rewrite Hempty|by intros []|done|done|done]. }
  destruct Hinv as (Hacc & Hgrid & Hlast & Hbound & _). simpl in *.
  exists rs. split_and!; [|done|].
  - rewrite <- (app_nil_r (chunks st)), foldl_push_prefix in Hacc.
    injection Hacc as Hcs Hc.
    unfold seal_nonempty, chop. rewrite Hc. simpl.
    destruct (foldl push ([], []) rs).2; simpl.
    + by rewrite Hcs, app_nil_r.
    + by rewrite Hcs, app_assoc.
  - intros r Hr. apply Hlast in Hr.
    destruct (Hbound _ Hr) as (s0 & s1 & _ & Hs1 & _ & Hend). eauto.
Qed.

Lemma grid_from_head rs r0 (k : nat) r :
  grid rs → head rs = Some r0 → rs !! k = Some r → ts r = ts r0 + 4 * Z.of_nat k.
Proof.
  intros Hgrid Hhead. revert r. induction k as [|k IH]; intros r Hk.
  - rewrite <- head_lookup, Hhead in Hk. injection Hk as ->. lia.
  - destruct (lookup_lt_is_Some_2 rs k) as [r' Hr'].
    { apply lookup_lt_Some in Hk. lia. }
    rewrite (Hgrid k r' r Hr' Hk), (IH r' Hr'). lia.
Qed.

(** The records of a session that begins at an index timestamp: they lie
    on the grid from the start of the session, and none of the grid points
    of the session that are below a timestamp of the index is missing. *)
Lemma walk_session_cover data s0 s1 e st st' :
  s0 ≤ s1 → data !! s0 = Some e → (∃ m, is_Some (data !! m) ∧ s0 < m) →
  chunk st = [] →
  walk_session (sorted_items data) [s0; s1] st = inr st' →
  ∃ rs, chunks st' = chunks st ++ chop rs ∧
        (∀ (k : nat) r, rs !! k = Some r → ts r = s0 + 4 * Z.of_nat k) ∧
        (∀ k : nat, s0 + 4 * Z.of_nat k ≤ s1 →
           (∃ m, is_Some (data !! m) ∧ s0 + 4 * Z.of_nat k < m) → is_Some (rs !! k)).
Proof.
  intros Hle He Hlater Hempty Hwalk.
  destruct (walk_session_first _ _ _ _ _ _ Hle He Hlater Hempty Hwalk)
    as (r0 & rs0 & Hfirst & Hts0).
  destruct (walk_session_end _ _ _ _ Hempty Hwalk) as (rs & Hcs & Hgrid & Hend).
  assert (rs = r0 :: rs0) as Hrs.
  { rewrite Hcs in Hfirst. apply app_inv_head in Hfirst.
    by rewrite <- (chop_concat rs), Hfirst, chop_concat. }
  exists rs. split; [done|].
  assert (∀ (k : nat) r, rs !! k = Some r → ts r = s0 + 4 * Z.of_nat k) as Hgridk.
  { intros k r Hk. rewrite <- Hts0.
    apply (grid_from_head rs); [done|by rewrite Hrs|done]. }
  split; [done|].
  intros k Hk (m & [em Hm] & Hkm).
  apply lookup_lt_is_Some_2.
  destruct (decide (k < length rs)%nat) as [|Hge]; [done|].
  destruct (last rs) as [rl|] eqn:Hlast; [|apply last_None in Hlast; by subst].
  pose proof Hlast as Hlk. rewrite last_lookup in Hlk.
  apply Hgridk in Hlk.
  assert (length rs ≠ 0%nat) by (rewrite Hrs; done).
  destruct (Hend rl eq_refl) as (s1' & [= <-] & [Hpast|Hgreatest]); [lia|].
  apply sorted_items_index in Hm as [j Hj].
  pose proof (lookup_lt_Some _ _ _ Hj) as Hjlt.
  destruct (lookup_lt_is_Some_2 (sorted_items data)
              (length (sorted_items data) - 1)) as [z Hz]; [lia|].
  specialize (Hgreatest z Hz).
  pose proof (StronglySorted_lookup_le _ j (length (sorted_items data) - 1)
                _ _ (sorted_items_sorted data) ltac:(lia) Hj Hz) as Hmz.
  unfold key_le in Hmz. simpl in Hmz. lia.
Qed.

Lemma chop_split rs r :
  rs !! Z.to_nat 4095 = Some r →
  ∃ c1 c2 rest, chop rs = c1 :: c2 :: rest ∧ len c1 = 4095 ∧ head c2 = Some r.
Proof.
  intros Hr. pose proof (lookup_lt_Some _ _ _ Hr) as Hlen.
  pose proof (chop_concat rs) as Hcat.
  pose proof (chop_cap rs) as Hcap.
  pose proof (chop_full rs 0%nat) as Hfull.
  destruct (chop rs) as [|c1 [|c2 rest]].
  - simpl in Hcat. subst rs. simpl in Hlen. lia.
  - rewrite Forall_singleton in Hcap. simpl in Hcat.
    rewrite app_nil_r in Hcat. subst c1. unfold len in Hcap. lia.
  - specialize (Hfull c1 eq_refl ltac:(simpl; lia)).
    apply Forall_cons in Hcap as [_ [Hc2 _]%Forall_cons].
    exists c1, c2, rest. split_and!; [done..|].
    simpl in Hcat. rewrite <- Hcat in Hr.
    rewrite lookup_app_r in Hr by (unfold len in Hfull; lia).
    replace (Z.to_nat 4095 - length c1)%nat with 0%nat in Hr
      by (unfold len in Hfull; lia).
    destruct c2 as [|r2 c2]; [unfold len in Hc2; simpl in Hc2; lia|].
    by simplify_eq/=.
Qed.

(** C1. Every chunk returned by [divide_data_to_viatom_chunks] holds at
    most 4095 records.  The output is the concatenation of the chunks of
    the sessions.  A session that emits more than 4095 records leaves at
    least two chunks, and none of its records is lost: for a session
    [[start, end]] that begins at a timestamp of the index, record [k] of
    its chunks is at [start + 4 * k], for every grid point up to [end]
    that lies below a timestamp of the index; so when the 4096th grid
    point, [start + 16380], is such a point, the first chunk holds exactly
    4095 records and the second begins at [start + 16380].
    [write_to_viatom_file] raises on a chunk of more than 4095 records,
    before it touches any file. *)
Theorem chunks_capped lib sessions data out :
  divide_data_to_viatom_chunks sessions data = inr out →
  Forall (λ c, len c ≤ 4095) out ∧
  (∃ per, out = concat per ∧
     Forall2 (λ s cs, session_output (sorted_items data) s cs ∧
                (len (concat cs) > 4095 → 2 ≤ len cs) ∧
                (∀ s0 s1, s = [s0; s1] → is_Some (data !! s0) →
                   (∀ k : nat, s0 + 4 * Z.of_nat k ≤ s1 →
                      (∃ m, is_Some (data !! m) ∧ s0 + 4 * Z.of_nat k < m) →
                      ∃ r, concat cs !! k = Some r ∧ ts r = s0 + 4 * Z.of_nat k) ∧
                   (s0 + 16380 ≤ s1 →
                    (∃ m, is_Some (data !! m) ∧ s0 + 16380 < m) →
                    ∃ c1 c2 rest r,
                      cs = c1 :: c2 :: rest ∧ len c1 = 4095 ∧
                      head c2 = Some r ∧ ts r = s0 + 16380)))
             sessions per) ∧
  (∀ c w, len c > 4095 →
     ∃ msg, write_to_viatom_file lib c w = (inl (RuntimeError msg), w)).
Proof.
  intros (per & -> & Hper)%divide_decompose. split_and!.
  - apply Forall_forall. intros c (cs & Hc & Hcs)%elem_of_concat.
    apply list_elem_of_lookup in Hcs as [j Hj].
    destruct (Forall2_lookup_r _ _ _ _ _ Hper Hj) as (s & _ & Hout).
    apply session_output_stream in Hout as (rs & -> & _).
    pose proof (chop_cap rs) as Hcap.
    eapply Forall_forall in Hcap; [|done]. simpl in Hcap. lia.
  - exists per. split; [done|].
    eapply Forall2_impl; [done|]. intros s cs Hout. split_and!; [done| |].
    + apply session_output_stream in Hout as (rs & -> & _).
      pose proof (chop_cap rs) as Hcap. intros Hlen.
      destruct (chop rs) as [|c1 [|c2 cs]]; [done| |unfold len; simpl; lia].
      rewrite Forall_singleton in Hcap. simpl in Hlen.
      rewrite app_nil_r in Hlen. lia.
    + intros s0 s1 -> [e He].
      destruct Hout as (st & st' & Hempty & Hwalk & _ & Hcs).
      assert (∀ k : nat, s0 + 4 * Z.of_nat k ≤ s1 →
                (∃ m, is_Some (data !! m) ∧ s0 + 4 * Z.of_nat k < m) →
                ∃ rs r, cs = chop rs ∧ rs !! k = Some r ∧ ts r = s0 + 4 * Z.of_nat k)
        as Hcover.
      { intros k Hk (m & Hm & Hkm).
        destruct (walk_session_cover data s0 s1 e st st')
          as (rs & Hrs & Hgrid & Hall); [lia|done| |done|done|].
        { exists m. split; [done|lia]. }
        destruct (Hall k Hk) as [r Hr]; [by exists m|].
        exists rs, r. split_and!; [|done|by apply Hgrid].
        rewrite Hcs in Hrs. by apply app_inv_head in Hrs. }
      split.
      * intros k Hk Hm. destruct (Hcover k Hk Hm) as (rs & r & -> & Hr & Hts).
        exists r. by rewrite chop_concat.
      * intros Hk Hm.
        destruct (Hcover (Z.to_nat 4095)) as (rs & r & -> & Hr & Hts);
          [lia| |].
        { destruct Hm as (m & Hm & Hlt). exists m. split; [done|lia]. }
        destruct (chop_split rs r Hr) as (c1 & c2 & rest & -> & Hc1 & Hc2).
        exists c1, c2, rest, r. split_and!; [done..|lia].
  - apply write_too_long.
Qed.

Lemma chunks_capped_witness :
  Forall (λ c, len c ≤ 4095) long_chunks ∧
  (∃ per, long_chunks = concat per ∧
     Forall2 (λ s cs, session_output (sorted_items long_data) s cs ∧
                (len (concat cs) > 4095 → 2 ≤ len cs) ∧
                (∀ s0 s1, s = [s0; s1] → is_Some (long_data !! s0) →
                   (∀ k : nat, s0 + 4 * Z.of_nat k ≤ s1 →
                      (∃ m, is_Some (long_data !! m) ∧ s0 + 4 * Z.of_nat k < m) →
                      ∃ r, concat cs !! k = Some r ∧ ts r = s0 + 4 * Z.of_nat k) ∧
                   (s0 + 16380 ≤ s1 →
                    (∃ m, is_Some (long_data !! m) ∧ s0 + 16380 < m) →
                    ∃ c1 c2 rest r,
                      cs = c1 :: c2 :: rest ∧ len c1 = 4095 ∧
                      head c2 = Some r ∧ ts r = s0 + 16380)))
             long_sessions per) ∧
  (∀ c w, len c > 4095 →
     ∃ msg, write_to_viatom_file utc c w = (inl (RuntimeError msg), w)).
Proof.
  apply (chunks_capped utc long_sessions long_data long_chunks).
  vm_compute. reflexivity.
Defined.

(** The session of [long_sessions] is split after 4095 records. *)
Example long_chunks_sizes : len <$> long_chunks = [4095; 1].
Proof. vm_compute. reflexivity. Qed.

(** ** Retention in terms of the entries read *)

Lemma bpm_samples_stamps lib json_files timezone :
  (bpm_samples lib json_files timezone).*1 =
    astimezone lib timezone <$> (concat json_files).*1.
Proof.
  unfold bpm_samples. induction json_files as [|file json_files IH]; [done|].
  cbn [mbind list_bind concat]. rewrite !fmap_app. f_equal; [|apply IH].
  unfold read_json. rewrite <- !list_fmap_compose. done.
Qed.

Lemma spo2_samples_stamps lib csv_files timezone t :
  t ∈ (spo2_samples lib csv_files timezone).*1 →
  ∃ u, u ∈ (concat csv_files).*1 ∧ t = astimezone lib timezone u.
Proof.
  intros ([t' v] & -> & Hin)%list_elem_of_fmap.
  unfold spo2_samples in Hin.
  apply list_elem_of_bind in Hin as (file & Hin & Hfile).
  unfold read_csv in Hin. apply list_elem_of_omap in Hin as (row & Hrow & Hsome).
  case_decide; simplify_eq/=.
  exists row.1. split; [|done].
  apply list_elem_of_fmap. exists row. split; [done|].
  apply elem_of_concat. eauto.
Qed.

Lemma session_end_sample samples ss s e :
  segment samples = inr ss → s ∈ ss → s !! 1%nat = Some e → e ∈ samples.*1.
Proof.
  intros Hseg Hs He.
  destruct samples as [|x xs]; [by rewrite segment_empty in Hseg|].
  destruct (segment_spec (x :: xs)) as (rs & Hseg' & Hcat & Hrne & _); [done|].
  rewrite Hseg' in Hseg. injection Hseg as <-.
  apply list_elem_of_fmap in Hs as (r & -> & Hr).
  eapply Forall_forall in Hrne; [|done].
  destruct r as [|a r]; [done|].
  destruct (last (a :: r)) as [z|] eqn:Hz; [|by apply last_None in Hz].
  rewrite (bounds_run _ a z) in He by done. simplify_eq/=.
  rewrite <- Hcat. apply elem_of_concat. exists (a :: r).
  split; [by eapply last_Some_elem_of|done].
Qed.

(** C2, amended. When the conversion to the time zone of the profile
    keeps the timestamps of the input in order, a session is retained if
    and only if its end, the timestamp of an SpO2 row, is strictly less
    than the timestamp of the last heart-rate entry read, the files taken
    in the order they are listed; that timestamp is the greatest
    heart-rate timestamp when the entries are read in chronological
    order. *)
Theorem retained_before_last_bpm lib csv_files json_files timezone filtered d :
  (∀ t t', t ∈ (concat csv_files).*1 ++ (concat json_files).*1 →
           t' ∈ (concat csv_files).*1 ++ (concat json_files).*1 →
           t < t' → astimezone lib timezone t < astimezone lib timezone t') →
  align_spo2_data lib csv_files json_files timezone = inr (filtered, d) →
  ∃ ss l,
    segment (spo2_samples lib csv_files timezone) = inr ss ∧
    last (concat json_files).*1 = Some l ∧
    (∀ s, s ∈ filtered ↔
          s ∈ ss ∧ ∃ e, e ∈ (concat csv_files).*1 ∧
                        s !! 1%nat = Some (astimezone lib timezone e) ∧ e < l) ∧
    (StronglySorted Z.le (concat json_files).*1 →
     ∀ t, t ∈ (concat json_files).*1 → t ≤ l).
Proof.
  intros Hmono Halign.
  destruct (retained_before_last_read _ _ _ _ _ _ Halign)
    as (ss & l' & Hseg & Hlast & Hiff & _).
  rewrite bpm_samples_stamps, fmap_last in Hlast.
  destruct (last (concat json_files).*1) as [l|] eqn:Hl; [|done].
  injection Hlast as <-.
  assert (l ∈ (concat json_files).*1) as Hlin by by eapply last_Some_elem_of.
  exists ss, l. split_and!; [done..| |].
  - intros s. rewrite Hiff. split.
    + intros [Hs (e' & He' & Hlt)]. split; [done|].
      destruct (spo2_samples_stamps lib csv_files timezone e')
        as (e & He & ->); [by eapply session_end_sample|].
      exists e. split_and!; [done..|].
      destruct (Z.lt_trichotomy e l) as [?|[->|Hgt]]; [done|lia|].
      apply Hmono in Hgt; [lia|..]; apply elem_of_app; auto.
    + intros [Hs (e & He & Hs1 & Hlt)]. split; [done|].
      exists (astimezone lib timezone e). split; [done|].
      apply Hmono; [..|done]; apply elem_of_app; auto.
  - intros Hsorted t Ht.
    destruct (concat json_files).*1 as [|l0 ts' _] using rev_ind; [done|].
    rewrite last_snoc in Hl. simplify_eq/=.
    apply elem_of_app in Ht as [Ht|Ht%list_elem_of_singleton]; [|lia].
    apply (StronglySorted_app_1_elem_of _ _ _ _ _ Hsorted Ht). left.
Qed.

Lemma retained_before_last_bpm_witness :
  ∃ ss l,
    segment (spo2_samples london (spo2_files night) "Europe/London") = inr ss ∧
    last (concat (bpm_files night)).*1 = Some l ∧
    (∀ s, s ∈ night_sessions ↔
          s ∈ ss ∧ ∃ e, e ∈ (concat (spo2_files night)).*1 ∧
                        s !! 1%nat = Some (astimezone london "Europe/London" e) ∧
                        e < l) ∧
    (StronglySorted Z.le (concat (bpm_files night)).*1 →
     ∀ t, t ∈ (concat (bpm_files night)).*1 → t ≤ l).
Proof.
  apply (retained_before_last_bpm london (spo2_files night) (bpm_files night)
           "Europe/London" night_sessions night_data).
  - assert (∀ t, t ∈ [t8; t8 + 60; t8; t8 + 30; t8 + 90; t8 + 900] →
                 london_time t = t) as Hwinter.
    { intros t Ht. unfold london_time. apply decide_False.
      repeat (apply elem_of_cons in Ht as [-> | Ht];
              [unfold t8, bst_start; lia|]).
      by apply elem_of_nil in Ht. }
    intros t t' Ht Ht' Hlt. simpl.
    rewrite (Hwinter t Ht), (Hwinter t' Ht'). lia.
  - vm_compute. reflexivity.
Defined.

(** ** Sessions across a change of the UTC offset *)

(** C3. The segmenter measures the gap between two consecutive samples on
    their timestamps in the zone of the profile, which are wall-clock
    times: two rows are put in different sessions exactly when the
    converted timestamps differ by more than 300 seconds, whatever time
    passed between the rows. *)
Theorem gap_on_local_clock lib timezone t1 v1 t2 v2 :
  61 ≤ v1 → 61 ≤ v2 →
  ∃ w1 w2,
    spo2_samples lib [[(t1, v1); (t2, v2)]] timezone
      = [(astimezone lib timezone t1, w1); (astimezone lib timezone t2, w2)] ∧
    segment (spo2_samples lib [[(t1, v1); (t2, v2)]] timezone) =
      inr (if decide (astimezone lib timezone t2 - astimezone lib timezone t1
                        > 300)
           then [[astimezone lib timezone t1; astimezone lib timezone t1];
                 [astimezone lib timezone t2; astimezone lib timezone t2]]
           else [[astimezone lib timezone t1; astimezone lib timezone t2]]).
Proof.
  intros Hv1 Hv2. eexists _, _.
  assert (spo2_samples lib [[(t1, v1); (t2, v2)]] timezone =
            [(astimezone lib timezone t1, if decide (v1 = 100) then 99 else v1);
             (astimezone lib timezone t2, if decide (v2 = 100) then 99 else v2)])
    as ->.
  { unfold spo2_samples. cbn [mbind list_bind]. rewrite app_nil_r.
    rewrite (read_csv_cons lib t1), (read_csv_cons lib t2).
    rewrite (decide_False (P := v1 < 61)), (decide_False (P := v2 < 61)) by lia.
    done. }
  split; [done|].
  generalize (astimezone lib timezone t1) (astimezone lib timezone t2).
  intros a b. unfold segment, for_fold, spo2_sample, close_sessions.
  cbn [sessions prev_timestamp data mbind result_bind mret result_ret
       length decide].
  simpl. destruct (decide (b - a > 300)); reflexivity.
Qed.

Lemma gap_on_local_clock_witness :
  ∃ w1 w2,
    spo2_samples london [spring_rows] "Europe/London"
      = [(bst_start - 120, w1); (bst_start + 3720, w2)] ∧
    segment (spo2_samples london [spring_rows] "Europe/London") =
      inr [[bst_start - 120; bst_start - 120];
           [bst_start + 3720; bst_start + 3720]].
Proof.
  apply (gap_on_local_clock london "Europe/London"
           (bst_start - 120) 95 (bst_start + 120) 96); lia.
Defined.

(** Four minutes apart across the start of summer time: two sessions.
    Sixty-two minutes apart across its end: one session. *)
Example spring_rows_sessions :
  segment (spo2_samples london [spring_rows] "Europe/London")
    = inr [[bst_start - 120; bst_start - 120];
           [bst_start + 3720; bst_start + 3720]].
Proof. vm_compute. reflexivity. Qed.

Example autumn_rows_sessions :
  segment (spo2_samples london [autumn_rows] "Europe/London")
    = inr [[bst_end + 3540; bst_end + 3660]].
Proof. vm_compute. reflexivity. Qed.

(** ** The file of a chunk *)

Lemma length_viatom_file lib data :
  data ≠ [] → len (viatom_file lib data) = len data * 5 + 40.
Proof.
  destruct data as [|first data]; [done|]. intros _.
  pose proof (length_record_bytes (first :: data)) as Hbody.
  unfold viatom_file, len in *. cbn zeta.
  remember ((first :: data) ≫= record_bytes) as body eqn:Hb. clear Hb.
  rewrite !length_app, length_replicate. simpl length in *. lia.
Qed.

(** X10. When [write_to_viatom_file] completes, the file named after the
    first record holds the 40-byte header followed by five bytes per
    record and nothing else, [40 + 5 * n] bytes for [n] records, whatever
    it held before; the five bytes at offset [40 + 5 * k] are those of
    record [k]; no other file has changed; and standard output has gained
    a "TOOHIGH" line for each SpO2 value above 99, followed by the
    "Exported" line. *)
Theorem written_file_records lib data w w' :
  write_to_viatom_file lib data w = (inr (), w') →
  ∃ first,
    head data = Some first ∧
    files w' = <[file_name lib (ts first) := viatom_file lib data]> (files w) ∧
    len (viatom_file lib data) = len data * 5 + 40 ∧
    (∀ (k : nat) r, data !! k = Some r →
       take 5 (drop (40 + 5 * k) (viatom_file lib data)) = record_bytes r) ∧
    stdout w' =
      stdout w ++ (data ≫= record_diagnostics) ++
      ["Exported " +:+ file_name lib (ts first) +:+ " (size: "
         +:+ pretty (len data * 5 + 40) +:+ ", duration: "
         +:+ minutes_to_time_15 lib (length data) +:+ ")"].
Proof.
  intros Hw.
  destruct (write_to_viatom_file_range _ _ _ _ Hw)
    as (first & Hfirst & Hlen & HY & Hfields & Hall).
  destruct data as [|first' data]; [done|]. injection Hfirst as ->.
  rewrite write_to_viatom_file_ok in Hw by done. injection Hw as <-.
  exists first. split_and!; [done|reflexivity| | |done].
  - by apply length_viatom_file.
  - intros k r Hk.
    rewrite <- (record_slice (first :: data) k r Hk), <- drop_drop.
    reflexivity.
Qed.

Lemma written_file_records_witness :
  ∃ first,
    head night_chunk = Some first ∧
    files (write_to_viatom_file utc night_chunk
             (World [] {["20210301080000.bin" := [1; 2; 3]]})).2 =
      <[file_name utc (ts first) := viatom_file utc night_chunk]>
        {["20210301080000.bin" := [1; 2; 3]]} ∧
    len (viatom_file utc night_chunk) = len night_chunk * 5 + 40 ∧
    (∀ (k : nat) r, night_chunk !! k = Some r →
       take 5 (drop (40 + 5 * k) (viatom_file utc night_chunk))
         = record_bytes r) ∧
    stdout (write_to_viatom_file utc night_chunk
              (World [] {["20210301080000.bin" := [1; 2; 3]]})).2 =
      [] ++ (night_chunk ≫= record_diagnostics) ++
      ["Exported " +:+ file_name utc (ts first) +:+ " (size: "
         +:+ pretty (len night_chunk * 5 + 40) +:+ ", duration: "
         +:+ minutes_to_time_15 utc (length night_chunk) +:+ ")"].
Proof.
  refine (written_file_records utc night_chunk
            (World [] {["20210301080000.bin" := [1; 2; 3]]})
            (write_to_viatom_file utc night_chunk
               (World [] {["20210301080000.bin" := [1; 2; 3]]})).2 _).
  vm_compute. reflexivity.
Defined.
